(** * Anyi GUI automation: the visual wait / locate / click engine

    A shallow embedding of class [ImageAutomation] of [anyi_main.py]
    (methods [_get_image_path], [wait_and_find_image],
    [click_image_with_offset], [ensure_english_input], [type_text_safely],
    [generate_random_email] and [perform_automation_sequence]) and the
    properties its specification states about them.

    The second part embeds the code around the engine:
    [FileManager.validate_exe_path] (with the pattern of its format
    check as a regular expression and a matcher by derivatives),
    [ConfigManager], [ProcessManager] and [ProgramRunner], with the
    properties their code shows.  [FileManager.delete_config_folder]
    (an asyncio event loop and a thread pool), its helper
    [get_current_username], [AnyiAutomation.run], which calls it, and
    [main] are not embedded.

    Conventions of the embedding.
    - Time is an integer number of milliseconds: the source's float
      seconds [x] are [1000 * x] here ([time.sleep(0.5)] is [sleep 500],
      a [timeout] of [30] seconds is [30000]).
    - Everything outside the program (screen, mouse, keyboard, clipboard
      library, file system, entropy) is an environment [Env]: a record of
      functions that answer each library call from the world reached so
      far, so they may depend on every earlier action and on the clock.
    - A library call either returns or raises a Python [Exception];
      [KeyboardInterrupt] and [SystemExit], which [except Exception] does
      not catch, are outside the model.
    - Methods run in a state-and-exception monad over [World]; effects on
      the world persist when a call raises, as in Python.
    - The mode of the system's input method is not a field of [World]:
      the program never reads it.  The statements that speak of it
      compute it from the trace ([input_mode]), each delivered press of
      Shift switching it. *)

From Stdlib Require Import ZArith List String Ascii Bool Lia QArith.
From Stdlib Require Import DecimalString Decimal.
Import ListNotations.
Local Open Scope string_scope.
Local Open Scope Z_scope.

(** ** Data *)

(** A screen coordinate: pyautogui's [Point(x, y)]. *)
Definition Point : Type := (Z * Z)%type.

(** A search region [(left, top, width, height)]. *)
Definition Region : Type := (Z * Z * Z * Z)%type.

(** Python exceptions deriving from [Exception]. *)
Inductive Exn : Type :=
| ImageNotFoundException
| FailSafeException
| PyperclipException
| OtherException (msg : string).

(** What a library call does: return a value or raise. *)
Inductive Outcome (A : Type) : Type :=
| Done (a : A)
| Fails (e : Exn).
Arguments Done {A} a.
Arguments Fails {A} e.

Inductive Level : Type := INFO | WARNING | ERROR.

(** One constructor per [logger] call site of the class, carrying the
    values its f-string interpolates. *)
Inductive LogMsg : Type :=
| MsgFileMissing (image_path : string)
| MsgWaiting (image_name : string)
| MsgLocateAttempt (n : nat) (image_name : string)
| MsgFound (image_name : string) (location : Point)
| MsgLocateError (image_name : string) (e : Exn)
| MsgLocateRetry (n : nat) (image_name : string) (e : Exn)
| MsgPopup (popup_location : Point)
| MsgTimeout (image_name : string)
| MsgClickAttempt (n : nat) (image_name : string)
| MsgClicked (image_name : string) (x y : Z)
| MsgClickError (image_name : string) (e : Exn)
| MsgClickFailed (image_name : string)
| MsgEnglish
| MsgEnglishError (e : Exn)
| MsgTyped (text : string)
| MsgTypeError (e : Exn)
| MsgTypedFallback (text : string)
| MsgFallbackError (e : Exn)
| MsgEmail (email : string)
| MsgSequenceDone
| MsgSequenceError (e : Exn).

(** Everything the program does to the outside, newest first in the
    trace.  Library calls record their arguments and their outcome. *)
Inductive Event : Type :=
| EvLog (lvl : Level) (msg : LogMsg)
| EvSleep (ms : Z)
| EvLocate (image_path : string) (confidence : Q) (region : option Region)
           (res : Outcome (option Point))
| EvClick (x y : Z) (res : Outcome unit)
| EvKey (key : string) (res : Outcome unit)
| EvCopy (text : string) (res : Outcome unit)
| EvHotkey (keys : list string) (res : Outcome unit)
| EvWrite (text : string) (interval : Z) (res : Outcome unit).

Record World : Type := mkWorld {
  now : Z;                      (* time.time(), in milliseconds *)
  trace : list Event;           (* newest first *)
  clipboard : option string;    (* the system clipboard, when it holds text *)
  rng : nat                     (* how much of the entropy stream was used *)
}.

(** The outside world.  Each library call answers with its outcome and
    the time it took (in milliseconds, [pyautogui.PAUSE] included). *)
Record Env : Type := mkEnv {
  os_path_join : string -> string -> string;
  os_path_exists : World -> string -> bool;
  locateCenterOnScreen :
    World -> string -> Q -> option Region -> Outcome (option Point) * nat;
  pyautogui_click : World -> Z -> Z -> Outcome unit * nat;
  keyboard_press_and_release : World -> string -> Outcome unit * nat;
  pyperclip_copy : World -> string -> Outcome unit * nat;
  pyautogui_hotkey : World -> list string -> Outcome unit * nat;
  pyautogui_write : World -> string -> Z -> Outcome unit * nat;
  entropy : nat -> nat
}.

(** The attributes set by [ImageAutomation.__init__]. *)
Record ImageAutomation : Type := mkImageAutomation {
  images_dir : string;
  confidence : Q;
  max_wait_time : Z;
  check_interval : Z;
  retry_count : nat
}.

Definition ImageAutomation_init (dir : string) : ImageAutomation :=
  {| images_dir := dir;
     confidence := 7 # 10;
     max_wait_time := 30000;
     check_interval := 500;
     retry_count := 3 |}.

(** ** The monad *)

(** How a call ends: with a value, with a raised exception, or because
    the embedding ran out of its call-depth or loop-iteration budget. *)
Inductive Res (A : Type) : Type :=
| Val (a : A)
| Raised (e : Exn)
| OutOfDepth
| OutOfFuel.
Arguments Val {A} a.
Arguments Raised {A} e.
Arguments OutOfDepth {A}.
Arguments OutOfFuel {A}.

Definition M (A : Type) : Type := World -> Res A * World.

Definition ret {A} (a : A) : M A := fun w => (Val a, w).

Definition bind {A B} (m : M A) (k : A -> M B) : M B :=
  fun w =>
    match m w with
    | (Val a, w1) => k a w1
    | (Raised e, w1) => (Raised e, w1)
    | (OutOfDepth, w1) => (OutOfDepth, w1)
    | (OutOfFuel, w1) => (OutOfFuel, w1)
    end.

Definition raise {A} (e : Exn) : M A := fun w => (Raised e, w).

(** [try: m  except Exception as e: h e]. *)
Definition try_ {A} (m : M A) (h : Exn -> M A) : M A :=
  fun w =>
    match m w with
    | (Raised e, w1) => h e w1
    | other => other
    end.

Declare Scope m_scope.
Delimit Scope m_scope with m.
Notation "x <- c1 ;; c2" := (bind c1 (fun x => c2))
  (at level 61, c1 at next level, right associativity) : m_scope.
Notation "c1 ;; c2" := (bind c1 (fun _ => c2))
  (at level 61, right associativity) : m_scope.
Local Open Scope m_scope.

(** How one pass through a loop body ends: fall through to the next
    iteration ([continue] included) or [return v] from the method. *)
Inductive Flow (R : Type) : Type :=
| Next
| Return (v : R).
Arguments Next {R}.
Arguments Return {R} v.

(** [for x in xs: body x]. *)
Fixpoint for_each {A R} (xs : list A) (body : A -> M (Flow R)) : M (Flow R) :=
  match xs with
  | [] => ret Next
  | x :: rest =>
      r <- body x ;;
      match r with
      | Next => for_each rest body
      | Return v => ret (Return v)
      end
  end.

(** [while cond: body], allowed at most [fuel] iterations. *)
Fixpoint while_ {R} (fuel : nat) (cond : M bool) (body : M (Flow R))
  : M (Flow R) :=
  c <- cond ;;
  if c : bool then
    match fuel with
    | O => fun w => (OutOfFuel, w)
    | S fuel' =>
        r <- body ;;
        match r with
        | Next => while_ fuel' cond body
        | Return v => ret (Return v)
        end
    end
  else ret Next.

(** ** Primitive effects *)

Definition emit (ev : Event) (w : World) : World :=
  {| now := now w; trace := ev :: trace w;
     clipboard := clipboard w; rng := rng w |}.

Definition advance (ms : Z) (w : World) : World :=
  {| now := now w + ms; trace := trace w;
     clipboard := clipboard w; rng := rng w |}.

Definition set_clipboard (s : string) (w : World) : World :=
  {| now := now w; trace := trace w; clipboard := Some s; rng := rng w |}.

Definition use_entropy (w : World) : World :=
  {| now := now w; trace := trace w;
     clipboard := clipboard w; rng := S (rng w) |}.

(** [logger.info], [logger.warning], [logger.error]. *)
Definition log (lvl : Level) (msg : LogMsg) : M unit :=
  fun w => (Val tt, emit (EvLog lvl msg) w).

(** [time.time()]. *)
Definition time_time : M Z := fun w => (Val (now w), w).

(** [time.sleep(ms / 1000)]: a negative argument is a [ValueError]. *)
Definition sleep (ms : Z) : M unit :=
  fun w =>
    if ms <? 0 then (Raised (OtherException "sleep length must be non-negative"), w)
    else (Val tt, advance ms (emit (EvSleep ms) w)).

(** A library call: record it with its outcome, let its time pass, and
    return or raise. *)
Definition call {A} (answer : Outcome A * nat) (ev : Outcome A -> Event)
  : M A :=
  fun w =>
    let w1 := advance (Z.of_nat (snd answer)) (emit (ev (fst answer)) w) in
    match fst answer with
    | Done a => (Val a, w1)
    | Fails e => (Raised e, w1)
    end.

Section Automation.

Variable env : Env.
Variable self : ImageAutomation.

(** *** Library calls *)

Definition locate (image_path : string) (conf : Q) (region : option Region)
  : M (option Point) :=
  fun w => call (locateCenterOnScreen env w image_path conf region)
                (EvLocate image_path conf region) w.

Definition click (x y : Z) : M unit :=
  fun w => call (pyautogui_click env w x y) (EvClick x y) w.

Definition press_and_release (key : string) : M unit :=
  fun w => call (keyboard_press_and_release env w key) (EvKey key) w.

(** [pyperclip.copy(text)]: the clipboard holds [text] once it returns. *)
Definition copy (text : string) : M unit :=
  fun w =>
    match call (pyperclip_copy env w text) (EvCopy text) w with
    | (Val u, w1) => (Val u, set_clipboard text w1)
    | other => other
    end.

Definition hotkey (keys : list string) : M unit :=
  fun w => call (pyautogui_hotkey env w keys) (EvHotkey keys) w.

Definition write (text : string) (interval : Z) : M unit :=
  fun w => call (pyautogui_write env w text interval) (EvWrite text interval) w.

Definition exists_ (path : string) : M bool :=
  fun w => (Val (os_path_exists env w path), w).

(** The next raw number of the random source. *)
Definition random_raw : M nat :=
  fun w => (Val (entropy env (rng w)), use_entropy w).

(** [random.randint(a, b)]: an integer of [a..b], both ends included. *)
Definition randint (a b : Z) : M Z :=
  r <- random_raw ;; ret (a + Z.of_nat r mod (b - a + 1)).

(** [random.uniform(a, b)], at millisecond resolution. *)
Definition uniform (a b : Z) : M Z :=
  r <- random_raw ;; ret (a + Z.of_nat r mod (b - a + 1)).

(** [random.choice(seq)] for a non-empty string. *)
Definition choice (chars : string) : M ascii :=
  r <- random_raw ;;
  ret (match String.get (r mod String.length chars)%nat chars with
       | Some c => c
       | None => "000"%char
       end).

(** *** Methods of [ImageAutomation] *)

Definition INTERRUPT : string := "7.png".

Definition _get_image_path (image_name : string) : string :=
  os_path_join env (images_dir self) image_name.

(** One pass of [for retry in range(self.retry_count)] inside the polling
    loop of [wait_and_find_image]: the [try] block and its handler. *)
Definition locate_attempt (image_name image_path : string)
    (region : option Region) (retry : nat) : M (Flow (option Point)) :=
  try_
    ((if (0 <? retry)%nat
      then sleep 500 ;;
           log INFO (MsgLocateAttempt (retry + 1) image_name)
      else ret tt) ;;
     location <- locate image_path (confidence self) region ;;
     match location with
     | Some p =>
         log INFO (MsgFound image_name p) ;;
         ret (Return (Some p))
     | None => ret Next
     end)
    (fun e =>
       (if (retry =? retry_count self - 1)%nat
        then log ERROR (MsgLocateError image_name e)
        else log WARNING (MsgLocateRetry (retry + 1) image_name e)) ;;
       ret Next).

(** The global watch for the popup, at the end of a poll cycle.
    [dismiss] is [self.click_image_with_offset("7.png")]. *)
Definition interrupt_check (dismiss : M bool) (image_name : string) : M unit :=
  if negb (image_name =? INTERRUPT)%string then
    try_
      (popup_location <-
         locate (_get_image_path INTERRUPT) (confidence self) None ;;
       match popup_location with
       | Some p =>
           log INFO (MsgPopup p) ;;
           _ <- dismiss ;;
           ret tt
       | None => ret tt
       end)
      (fun _ => ret tt)
  else ret tt.

(** The body of [while time.time() - start_time < timeout]. *)
Definition poll_cycle (dismiss : M bool) (image_name image_path : string)
    (region : option Region) : M (Flow (option Point)) :=
  r <- for_each (seq 0 (retry_count self))
                (locate_attempt image_name image_path region) ;;
  match r with
  | Return v => ret (Return v)
  | Next =>
      interrupt_check dismiss image_name ;;
      sleep (check_interval self) ;;
      ret Next
  end.

(** [wait_and_find_image], its call of [click_image_with_offset] taken as
    the parameter [click_image]. *)
Definition wait_body
    (click_image : string -> option Z -> option Region -> M bool)
    (fuel : nat) (image_name : string) (timeout : option Z)
    (region : option Region) : M (option Point) :=
  let timeout :=
    match timeout with None => max_wait_time self | Some t => t end in
  let image_path := _get_image_path image_name in
  present <- exists_ image_path ;;
  if negb present then
    log ERROR (MsgFileMissing image_path) ;;
    ret None
  else
    log INFO (MsgWaiting image_name) ;;
    start_time <- time_time ;;
    r <- while_ fuel
           (t <- time_time ;; ret (t - start_time <? timeout))
           (poll_cycle (click_image INTERRUPT None None)
                       image_name image_path region) ;;
    match r with
    | Return v => ret v
    | Next =>
        log WARNING (MsgTimeout image_name) ;;
        ret None
    end.

(** The [try] block and handler of [click_image_with_offset], run once
    the image is located at [(x, y)]. *)
Definition dispatch_click (image_name : string) (attempt : nat)
    (location : Point) : M (Flow bool) :=
  let '(x, y) := location in
  try_
    (offset_x <- randint (-5) 5 ;;
     offset_y <- randint (-5) 5 ;;
     click (x + offset_x) (y + offset_y) ;;
     log INFO (MsgClicked image_name (x + offset_x) (y + offset_y)) ;;
     ret (Return true))
    (fun e =>
       log ERROR (MsgClickError image_name e) ;;
       if (attempt =? retry_count self - 1)%nat
       then ret (Return false)
       else ret Next).

(** One pass of [for attempt in range(self.retry_count)]. *)
Definition click_attempt
    (wait_image : string -> option Z -> option Region -> M (option Point))
    (image_name : string) (timeout : option Z) (region : option Region)
    (attempt : nat) : M (Flow bool) :=
  (if (0 <? attempt)%nat
   then log WARNING (MsgClickAttempt (attempt + 1) image_name) ;;
        sleep 1000
   else ret tt) ;;
  location <- wait_image image_name timeout region ;;
  match location with
  | Some p => dispatch_click image_name attempt p
  | None => ret Next
  end.

(** [click_image_with_offset], its call of [wait_and_find_image] taken as
    the parameter [wait_image]. *)
Definition click_body
    (wait_image : string -> option Z -> option Region -> M (option Point))
    (image_name : string) (timeout : option Z) (region : option Region)
  : M bool :=
  r <- for_each (seq 0 (retry_count self))
                (click_attempt wait_image image_name timeout region) ;;
  match r with
  | Return v => ret v
  | Next =>
      log ERROR (MsgClickFailed image_name) ;;
      ret false
  end.

(** The two methods call each other; [depth] bounds how many calls may
    be open at once, [fuel] how many times each polling loop may go
    round. *)
Fixpoint wait_and_find_image (depth fuel : nat) (image_name : string)
    (timeout : option Z) (region : option Region) {struct depth}
  : M (option Point) :=
  match depth with
  | O => fun w => (OutOfDepth, w)
  | S d =>
      wait_body (click_image_with_offset d fuel)
                fuel image_name timeout region
  end
with click_image_with_offset (depth fuel : nat) (image_name : string)
    (timeout : option Z) (region : option Region) {struct depth} : M bool :=
  match depth with
  | O => fun w => (OutOfDepth, w)
  | S d =>
      click_body (wait_and_find_image d fuel) image_name timeout region
  end.

Definition ensure_english_input : M unit :=
  try_
    (press_and_release "shift" ;;
     sleep 200 ;;
     press_and_release "shift" ;;
     log INFO MsgEnglish)
    (fun e => log ERROR (MsgEnglishError e)).

(** The [except] block of [type_text_safely]: type the text directly. *)
Definition type_text_fallback (text : string) (e : Exn) : M unit :=
  log ERROR (MsgTypeError e) ;;
  try_
    (write text 100 ;;
     log INFO (MsgTypedFallback text))
    (fun e2 => log ERROR (MsgFallbackError e2)).

Definition type_text_safely (text : string) : M unit :=
  try_
    (ensure_english_input ;;
     copy text ;;
     sleep 200 ;;
     hotkey ["ctrl"; "v"] ;;
     log INFO (MsgTyped text))
    (type_text_fallback text).

Definition ascii_lowercase : string := "abcdefghijklmnopqrstuvwxyz".
Definition ascii_uppercase : string := "ABCDEFGHIJKLMNOPQRSTUVWXYZ".
Definition ascii_letters : string := ascii_lowercase ++ ascii_uppercase.
Definition digits : string := "0123456789".

(** [''.join(random.choice(chars) for _ in range(n))]. *)
Fixpoint random_string (chars : string) (n : nat) : M string :=
  match n with
  | O => ret ""
  | S k =>
      c <- choice chars ;;
      rest <- random_string chars k ;;
      ret (String c rest)
  end.

Definition generate_random_email : M string :=
  let chars := ascii_letters ++ digits in
  random_str <- random_string chars 6 ;;
  let email := random_str ++ "@163.com" in
  log INFO (MsgEmail email) ;;
  ret email.

(** [time.sleep(random.uniform(0.3, 0.6))]. *)
Definition jitter : M unit :=
  d <- uniform 300 600 ;; sleep d.

(** The length of that pause when it starts in world [w]. *)
Definition jitter_ms (w : World) : Z :=
  300 + Z.of_nat (entropy env (rng w)) mod (600 - 300 + 1).

(** [str(i)] for a natural number. *)
Definition str (i : nat) : string := NilEmpty.string_of_uint (Nat.to_uint i).

(** The [try] block of [perform_automation_sequence]. *)
Definition automation_steps (depth fuel : nat) : M bool :=
  let click_image_with_offset := click_image_with_offset depth fuel in
  r <- for_each (seq 1 3)
         (fun i =>
            let image_name := str i ++ ".png" in
            ok <- click_image_with_offset image_name None None ;;
            if negb ok then
              log ERROR (MsgClickFailed image_name) ;;
              ret (Return false)
            else
              jitter ;;
              ret Next) ;;
  match r with
  | Return v => ret v
  | Next =>
      email <- generate_random_email ;;
      type_text_safely email ;;
      jitter ;;
      ok <- click_image_with_offset "4.png" None None ;;
      if negb ok then
        log ERROR (MsgClickFailed "4.png") ;;
        ret false
      else
        jitter ;;
        type_text_safely email ;;
        jitter ;;
        ok <- click_image_with_offset "5.png" None None ;;
        if negb ok then
          log ERROR (MsgClickFailed "5.png") ;;
          ret false
        else
          jitter ;;
          ok <- click_image_with_offset "1.png" None None ;;
          if negb ok then
            log ERROR (MsgClickFailed "1.png") ;;
            ret false
          else
            jitter ;;
            ok <- click_image_with_offset "6.png" None None ;;
            if negb ok then
              log ERROR (MsgClickFailed "6.png") ;;
              ret false
            else
              jitter ;;
              log INFO MsgSequenceDone ;;
              ret true
  end.

Definition perform_automation_sequence (depth fuel : nat) : M bool :=
  try_
    (automation_steps depth fuel)
    (fun e =>
       log ERROR (MsgSequenceError e) ;;
       ret false).

End Automation.

(** ** Vocabulary of the statements *)

(** Fuel for a call with this [timeout]: one unit per half second of
    the timeout, and of the default timeout that dismissing the popup
    waits with. *)
Definition enough_fuel (fuel : nat) (timeout : option Z) : Prop :=
  30000 <= 500 * Z.of_nat fuel /\
  match timeout with
  | Some t => t <= 500 * Z.of_nat fuel
  | None => True
  end.

(** A character of [[A-Za-z0-9]]. *)
Definition is_alnum (c : ascii) : bool :=
  let n := nat_of_ascii c in
  ((48 <=? n) && (n <=? 57) || (65 <=? n) && (n <=? 90)
   || (97 <=? n) && (n <=? 122))%nat.

(** [re.fullmatch(r"[A-Za-z0-9]{6}@163\.com", s)]. *)
Definition matches_email_pattern (s : string) : bool :=
  (String.length s =? 14)%nat
  && forallb is_alnum (list_ascii_of_string (substring 0 6 s))
  && (substring 6 8 s =? "@163.com")%string.

(** [w] with [n] more numbers of the entropy stream used. *)
Definition drawn (n : nat) (w : World) : World :=
  {| now := now w; trace := trace w;
     clipboard := clipboard w; rng := (n + rng w)%nat |}.

(** The events of [ensure_english_input] (newest first): Shift is
    pressed, and pressed again 0.2 s later; a press that raises ends the
    attempt with an error line. *)
Definition toggled (evs : list Event) : Prop :=
  evs = [EvLog INFO MsgEnglish; EvKey "shift" (Done tt); EvSleep 200;
         EvKey "shift" (Done tt)] \/
  (exists e,
     evs = [EvLog ERROR (MsgEnglishError e); EvKey "shift" (Fails e);
            EvSleep 200; EvKey "shift" (Done tt)]) \/
  (exists e,
     evs = [EvLog ERROR (MsgEnglishError e); EvKey "shift" (Fails e)]).

(** The events of the fallback (newest first): [text] is written key by
    key, 0.1 s apart, and the outcome is logged. *)
Definition fell_back (text : string) (evs : list Event) : Prop :=
  evs = [EvLog INFO (MsgTypedFallback text); EvWrite text 100 (Done tt)] \/
  (exists e2,
     evs = [EvLog ERROR (MsgFallbackError e2); EvWrite text 100 (Fails e2)]).

(** The mode of the system's input method.  The program cannot read
    it; it acts on it with one key only: the comments of
    [ensure_english_input] rely on Shift switching the input method, so
    every press of Shift that is delivered switches between the two
    modes, and no other call of the program touches the mode. *)
Inductive InputMode : Type := English | Chinese.

Definition switch (m : InputMode) : InputMode :=
  match m with
  | English => Chinese
  | Chinese => English
  end.

Definition is_shift_press (ev : Event) : bool :=
  match ev with
  | EvKey key (Done _) => (key =? "shift")%string
  | _ => false
  end.

(** The mode after the events [evs] (newest first), from the mode
    [start] before the first of them. *)
Fixpoint input_mode (start : InputMode) (evs : list Event) : InputMode :=
  match evs with
  | [] => start
  | ev :: rest =>
      if is_shift_press ev then switch (input_mode start rest)
      else input_mode start rest
  end.

(** The offsets [dispatch_click] draws when it starts in world [w]. *)
Definition offset_x (env : Env) (w : World) : Z :=
  -5 + Z.of_nat (entropy env (rng w)) mod (5 - -5 + 1).

Definition offset_y (env : Env) (w : World) : Z :=
  -5 + Z.of_nat (entropy env (S (rng w))) mod (5 - -5 + 1).

(** Every click in the trace [evs] (newest first) was dispatched right
    after a match that found a template: under the click lie the found
    line of the template and the successful match of its file, and the
    click is within 5 pixels of the centre that match reported, on each
    axis. *)
Fixpoint clicks_on_found (env : Env) (self : ImageAutomation)
    (evs : list Event) : Prop :=
  match evs with
  | [] => True
  | EvClick x y _ :: rest =>
      match rest with
      | EvLog INFO (MsgFound name (px, py))
          :: EvLocate path _ _ (Done (Some q)) :: _ =>
          path = _get_image_path env self name /\ q = (px, py) /\
          -5 <= x - px <= 5 /\ -5 <= y - py <= 5
      | _ => False
      end /\ clicks_on_found env self rest
  | _ :: rest => clicks_on_found env self rest
  end.

(** A scripted environment for concrete runs: [present] says which files
    exist, [screen] what a match of each path gives in each world, [ent]
    is the entropy stream; paths are joined with a slash, every call
    returns at once, and mouse, keyboard and clipboard calls succeed. *)
Definition scripted_env (present : string -> bool)
    (screen : World -> string -> Outcome (option Point))
    (ent : nat -> nat) : Env :=
  {| os_path_join := fun a b => (a ++ "/" ++ b)%string;
     os_path_exists := fun _ path => present path;
     locateCenterOnScreen := fun w path _ _ => (screen w path, O);
     pyautogui_click := fun _ _ _ => (Done tt, O);
     keyboard_press_and_release := fun _ _ => (Done tt, O);
     pyperclip_copy := fun _ _ => (Done tt, O);
     pyautogui_hotkey := fun _ _ => (Done tt, O);
     pyautogui_write := fun _ _ _ => (Done tt, O);
     entropy := ent |}.

(** The world at the start of a run. *)
Definition w_init : World :=
  {| now := 0; trace := []; clipboard := None; rng := O |}.

(** [env] with another entropy stream. *)
Definition with_entropy (env : Env) (ent : nat -> nat) : Env :=
  {| os_path_join := os_path_join env;
     os_path_exists := os_path_exists env;
     locateCenterOnScreen := locateCenterOnScreen env;
     pyautogui_click := pyautogui_click env;
     keyboard_press_and_release := keyboard_press_and_release env;
     pyperclip_copy := pyperclip_copy env;
     pyautogui_hotkey := pyautogui_hotkey env;
     pyautogui_write := pyautogui_write env;
     entropy := ent |}.

(** [env] on a system whose clipboard cannot be reached: every copy
    raises. *)
Definition without_clipboard (env : Env) : Env :=
  {| os_path_join := os_path_join env;
     os_path_exists := os_path_exists env;
     locateCenterOnScreen := locateCenterOnScreen env;
     pyautogui_click := pyautogui_click env;
     keyboard_press_and_release := keyboard_press_and_release env;
     pyperclip_copy := fun _ _ => (Fails PyperclipException, O);
     pyautogui_hotkey := pyautogui_hotkey env;
     pyautogui_write := pyautogui_write env;
     entropy := entropy env |}.

(** Pieces of scripted environments. *)
Definition no_files : string -> bool := fun _ => false.
Definition all_files : string -> bool := fun _ => true.
Definition blank_screen : World -> string -> Outcome (option Point) :=
  fun _ _ => Done None.
Definition zero_entropy : nat -> nat := fun _ => O.

(** The click steps of the sequence, in order. *)
Definition click_steps : list string :=
  ["1.png"; "2.png"; "3.png"; "4.png"; "5.png"; "1.png"; "6.png"].

(** What the sequence does between the success of its click number [k]
    (from 0) and its next click: the pause, and after the third click
    generating the address and typing it, after the fourth typing it
    again.  [email] is the address once generated; the result is the
    world reached and the address. *)
Definition between_clicks (env : Env) (k : nat) (email : option string)
    (w : World) : World * option string :=
  let w1 := snd (jitter env w) in
  match k with
  | 2%nat =>
      match generate_random_email env w1 with
      | (Val e, w2) =>
          (snd (jitter env (snd (type_text_safely env e w2))), Some e)
      | (_, w2) => (w2, None)
      end
  | 3%nat =>
      match email with
      | Some e => (snd (jitter env (snd (type_text_safely env e w1))), email)
      | None => (w1, None)
      end
  | _ => (w1, email)
  end.

(** The world in which the sequence started in [w] makes its click
    number [k] (from 0), when the clicks before it all succeeded. *)
Fixpoint run_until (env : Env) (self : ImageAutomation) (depth fuel : nat)
    (k : nat) (w : World) : option (World * option string) :=
  match k with
  | O => Some (w, None)
  | S k' =>
      match run_until env self depth fuel k' w with
      | Some (w1, email) =>
          match click_image_with_offset env self depth fuel
                  (nth k' click_steps "") None None w1 with
          | (Val true, w2) => Some (between_clicks env k' email w2)
          | _ => None
          end
      | None => None
      end
  end.

(** A screen on which every template but the popup's is found at [p],
    and a template store from which one file is missing. *)
Definition found_at (p : Point) : World -> string -> Outcome (option Point) :=
  fun _ path =>
    if (path =? "images/7.png")%string then Done None else Done (Some p).

Definition all_but (missing : string) : string -> bool :=
  fun path => negb (path =? missing)%string.

(** The template at [path] is never found by a match within [region];
    such a match returns at once. *)
Definition never_matches (env : Env) (path : string)
    (region : option Region) : Prop :=
  forall w p,
    fst (locateCenterOnScreen env w path (7 # 10) region) <> Done (Some p).

Definition instant (env : Env) (path : string)
    (region : option Region) : Prop :=
  forall w, snd (locateCenterOnScreen env w path (7 # 10) region) = O.

(** The timeout a call waits with. *)
Definition effective_timeout (timeout : option Z) : Z :=
  match timeout with
  | Some t => t
  | None => 30000
  end.

(** The screen is quiet for a wait of [name] within [region]: matches
    of the template return at once, and the popup never shows, its
    matches returning at once too (or the template waited for is the
    popup's own). *)
Definition quiet (env : Env) (self : ImageAutomation) (name : string)
    (region : option Region) : Prop :=
  instant env (_get_image_path env self name) region /\
  (name = INTERRUPT \/
   (never_matches env (_get_image_path env self INTERRUPT) None /\
    instant env (_get_image_path env self INTERRUPT) None)).





(** ** Path validation: [FileManager.validate_exe_path]

    The pattern of the format check uses classes, concatenation, [*] and
    [+] only, so Python's backtracking [re] finds a match exactly when
    the text is in the language of the pattern; the matcher below
    decides that language by derivatives.  Texts are sequences of bytes
    (UTF-8): every byte of a character outside ASCII is above 127, so it
    is in the negated class and in no other, as the character itself
    is for [re]. *)

Inductive regex : Type :=
| ReEmpty
| ReEps
| ReClass (p : ascii -> bool)
| ReCat (r1 r2 : regex)
| ReAlt (r1 r2 : regex)
| ReStar (r : regex).

Fixpoint nullable (r : regex) : bool :=
  match r with
  | ReEmpty => false
  | ReEps => true
  | ReClass _ => false
  | ReCat r1 r2 => nullable r1 && nullable r2
  | ReAlt r1 r2 => nullable r1 || nullable r2
  | ReStar _ => true
  end.

Fixpoint deriv (c : ascii) (r : regex) : regex :=
  match r with
  | ReEmpty => ReEmpty
  | ReEps => ReEmpty
  | ReClass p => if p c then ReEps else ReEmpty
  | ReCat r1 r2 =>
      ReAlt (ReCat (deriv c r1) r2)
            (if nullable r1 then deriv c r2 else ReEmpty)
  | ReAlt r1 r2 => ReAlt (deriv c r1) (deriv c r2)
  | ReStar r1 => ReCat (deriv c r1) (ReStar r1)
  end.

(** The whole of [s] is in the language of [r]. *)
Fixpoint matches (r : regex) (s : list ascii) : bool :=
  match s with
  | [] => nullable r
  | c :: s' => matches (deriv c r) s'
  end.

(** The language of a pattern: the texts it matches in full. *)
Inductive lang : regex -> list ascii -> Prop :=
| LEps : lang ReEps []
| LClass p c : p c = true -> lang (ReClass p) [c]
| LCat r1 r2 s1 s2 :
    lang r1 s1 -> lang r2 s2 -> lang (ReCat r1 r2) (s1 ++ s2)%list
| LAltL r1 r2 s : lang r1 s -> lang (ReAlt r1 r2) s
| LAltR r1 r2 s : lang r2 s -> lang (ReAlt r1 r2) s
| LStarNil r : lang (ReStar r) []
| LStarApp r s1 s2 :
    lang r s1 -> lang (ReStar r) s2 -> lang (ReStar r) (s1 ++ s2)%list.

(** [r+]. *)
Definition RePlus (r : regex) : regex := ReCat r (ReStar r).

(** One given character. *)
Definition ReChar (c : ascii) : regex := ReClass (Ascii.eqb c).

(** The characters of [s] in a row. *)
Fixpoint ReLit (s : list ascii) : regex :=
  match s with
  | [] => ReEps
  | c :: s' => ReCat (ReChar c) (ReLit s')
  end.

Definition LF : ascii := ascii_of_nat 10.
Definition BACKSLASH : ascii := ascii_of_nat 92.

(** [[a-zA-Z]]. *)
Definition is_drive_letter (c : ascii) : bool :=
  let n := nat_of_ascii c in
  ((97 <=? n) && (n <=? 122) || (65 <=? n) && (n <=? 90))%nat.

(** The characters the negated class of the pattern leaves out:
    backslash, slash, colon, star, question mark, double quote, the
    angle brackets, the bar, carriage return and line feed, by code. *)
Definition forbidden_codes : list nat :=
  [92; 47; 58; 42; 63; 34; 60; 62; 124; 13; 10]%nat.

Definition is_name_char (c : ascii) : bool :=
  negb (existsb (Nat.eqb (nat_of_ascii c)) forbidden_codes).

(** The pattern of [validate_exe_path] up to its final [$]: a drive
    letter [[a-zA-Z]], a colon, a backslash, any number of groups of one
    or more name characters and a backslash, any number of name
    characters, and [.exe]. *)
Definition exe_pattern : regex :=
  ReCat (ReClass is_drive_letter)
    (ReCat (ReChar ":")
       (ReCat (ReChar BACKSLASH)
          (ReCat (ReStar (ReCat (RePlus (ReClass is_name_char))
                                (ReChar BACKSLASH)))
             (ReCat (ReStar (ReClass is_name_char))
                    (ReLit (list_ascii_of_string ".exe")))))).

(** [s] without its last character when that is a line feed. *)
Fixpoint drop_final_newline (s : list ascii) : option (list ascii) :=
  match s with
  | [] => None
  | [c] => if Ascii.eqb c LF then Some [] else None
  | c :: s' =>
      match drop_final_newline s' with
      | Some t => Some (c :: t)
      | None => None
      end
  end.

(** [re.match(r + "$", s)] is not [None]: without [re.MULTILINE], [$]
    holds at the end of the text and just before a line feed that ends
    it. *)
Definition re_match_dollar (r : regex) (s : list ascii) : bool :=
  matches r s
  || match drop_final_newline s with
     | Some t => matches r t
     | None => false
     end.

(** [FileManager.validate_exe_path] for a [str]; [exists_] and [isfile]
    are [os.path.exists] and [os.path.isfile] when it is called. *)
Definition validate_exe_path (exists_ isfile : string -> bool)
    (path : string) : bool :=
  if (path =? "")%string then false
  else if negb (re_match_dollar exe_pattern (list_ascii_of_string path))
  then false
  else if negb (exists_ path) then false
  else if negb (isfile path) then false
  else true.

(** The paths the format check is written for: a drive letter, a colon,
    a backslash, directory names that are not empty, each followed by a
    backslash, and a file name ending in [.exe] (the part before the
    extension may be empty); no name holds a forbidden character. *)
Definition is_dir_name (dir : list ascii) : Prop :=
  dir <> [] /\ forallb is_name_char dir = true.

Definition exe_format (s : list ascii) : Prop :=
  exists d dirs name,
    s = (d :: list_ascii_of_string ":" ++ [BACKSLASH]
           ++ List.concat (map (fun dir => dir ++ [BACKSLASH]) dirs)
           ++ name ++ list_ascii_of_string ".exe")%list /\
    is_drive_letter d = true /\
    Forall is_dir_name dirs /\
    forallb is_name_char name = true.

(** No two backslashes in a row. *)
Fixpoint separated (l : list ascii) : bool :=
  match l with
  | c1 :: l' =>
      match l' with
      | c2 :: _ =>
          negb (Ascii.eqb c1 BACKSLASH && Ascii.eqb c2 BACKSLASH)
          && separated l'
      | [] => true
      end
  | [] => true
  end.

(** The text does not begin with a backslash. *)
Definition starts_plain (l : list ascii) : bool :=
  match l with
  | c :: _ => negb (Ascii.eqb c BACKSLASH)
  | [] => true
  end.

(** ** The host: processes, the configuration file, the console

    Classes [ConfigManager], [ProcessManager] and [ProgramRunner].
    Conventions of this part.
    - A library call answers from the events recorded so far, so it may
      depend on everything the program did before.
    - [psutil.process_iter] yields a finite sequence of process records
      and then stops or raises; the sequence is the one of the call.
      In a record the name is [None] when the system refused to give
      it (psutil's [ad_value]).
    - [psutil.Process(pid)] followed by [terminate()] or [kill()] is one
      call with one outcome.
    - [logger] calls, [os.path.exists], [os.path.isfile],
      [time.sleep(2)] and [Popen.poll] do not raise.  [print] and
      [input] may: the console can refuse a text or be closed.
    - Of a value read by [json.load] the program only uses whether it
      is a [dict], whether an entry is a [str], and truth values. *)

Inductive HostExn : Type :=
| AccessDenied                  (* psutil.AccessDenied *)
| AttributeError
| TypeError
| HostError (msg : string).     (* any other exception *)

Inductive HostOutcome (A : Type) : Type :=
| Ok (a : A)
| Err (e : HostExn).
Arguments Ok {A} a.
Arguments Err {A} e.

(** A value found in the configuration: a [str], or another JSON value
    with its truth value. *)
Inductive PyVal : Type :=
| PStr (s : string)
| PNotStr (truth : bool).

(** What [json.load] returned: a [dict], or another JSON value. *)
Inductive Config : Type :=
| CDict (items : list (string * PyVal))
| CNotDict.

(** [d.get(k, default)]. *)
Fixpoint dict_get (d : list (string * PyVal)) (k : string) (default : PyVal)
  : PyVal :=
  match d with
  | [] => default
  | (k', v) :: d' => if (k' =? k)%string then v else dict_get d' k default
  end.

(** [d[k] = v]. *)
Fixpoint dict_set (k : string) (v : PyVal) (d : list (string * PyVal))
  : list (string * PyVal) :=
  match d with
  | [] => [(k, v)]
  | (k', v') :: d' =>
      if (k' =? k)%string then (k, v) :: d' else (k', v') :: dict_set k v d'
  end.

(** [proc.info] for the attributes [pid] and [name]. *)
Record ProcInfo : Type := mkProcInfo {
  proc_pid : Z;
  proc_name : option string
}.

(** One constructor per [logger] call site of the three classes. *)
Inductive HostLog : Type :=
| MsgLoadFailed (e : HostExn)
| MsgSaveFailed (e : HostExn)
| MsgCheckFailed (process_name : string) (e : HostExn)
| MsgTerminated (process_name : string) (pid : Z)
| MsgDenied (process_name : string) (pid : Z)
| MsgKilled (process_name : string) (pid : Z)
| MsgKillFailed (process_name : string) (e : HostExn)
| MsgTerminateFailed (process_name : string) (e : HostExn)
| MsgTerminateError (process_name : string) (e : HostExn)
| MsgPromptError (e : HostExn)
| MsgGiveUp
| MsgLaunching (path : string)
| MsgLaunched (path : string)
| MsgExited (path : string)
| MsgLaunchFailed (e : HostExn).

(** The [print] call sites of [_prompt_and_run_anyi]. *)
Inductive PrintMsg : Type :=
| PrintPrompt
| PrintInvalid
| PrintRetry (remaining : nat).

Inductive HostEvent : Type :=
| HLog (lvl : Level) (msg : HostLog)
| HPrint (msg : PrintMsg) (res : HostOutcome unit)
| HInput (res : HostOutcome string)
| HProcessIter (procs : list ProcInfo) (err : option HostExn)
| HTerminate (pid : Z) (res : HostOutcome unit)
| HKill (pid : Z) (res : HostOutcome unit)
| HLoad (file : string) (res : HostOutcome Config)
| HDump (file : string) (c : Config) (res : HostOutcome unit)
| HPopen (path : string) (res : HostOutcome unit)
| HSleep (ms : Z)
| HPoll (returncode : option Z).

(** The attributes of a [ConfigManager]. *)
Record ConfigManager : Type := mkConfigManager {
  config_file : string;
  config : Config
}.

(** The events so far, newest first, and the one [ConfigManager] the
    program runner shares with its owner. *)
Record Sys : Type := mkSys {
  host_trace : list HostEvent;
  config_manager : ConfigManager
}.

Record Host : Type := mkHost {
  str_lower : string -> string;
  str_strip : string -> string;
  psutil_process_iter : list HostEvent -> list ProcInfo * option HostExn;
  process_terminate : list HostEvent -> Z -> HostOutcome unit;
  process_kill : list HostEvent -> Z -> HostOutcome unit;
  host_path_exists : list HostEvent -> string -> bool;
  host_path_isfile : list HostEvent -> string -> bool;
  json_load : list HostEvent -> string -> HostOutcome Config;
  json_dump : list HostEvent -> string -> Config -> HostOutcome unit;
  console_print : list HostEvent -> PrintMsg -> HostOutcome unit;
  input_line : list HostEvent -> HostOutcome string;
  subprocess_Popen : list HostEvent -> string -> HostOutcome unit;
  process_poll : list HostEvent -> option Z
}.

Inductive HostRes (A : Type) : Type :=
| HVal (a : A)
| HRaised (e : HostExn)
| HOutOfFuel.
Arguments HVal {A} a.
Arguments HRaised {A} e.
Arguments HOutOfFuel {A}.

Definition HostM (A : Type) : Type := Sys -> HostRes A * Sys.

Definition hret {A} (a : A) : HostM A := fun s => (HVal a, s).

Definition hbind {A B} (m : HostM A) (k : A -> HostM B) : HostM B :=
  fun s =>
    match m s with
    | (HVal a, s1) => k a s1
    | (HRaised e, s1) => (HRaised e, s1)
    | (HOutOfFuel, s1) => (HOutOfFuel, s1)
    end.

Definition hraise {A} (e : HostExn) : HostM A := fun s => (HRaised e, s).

(** [try: m  except Exception as e: h e]. *)
Definition htry {A} (m : HostM A) (h : HostExn -> HostM A) : HostM A :=
  fun s =>
    match m s with
    | (HRaised e, s1) => h e s1
    | other => other
    end.

(** [try: m  except psutil.AccessDenied: denied
    except Exception as e: h e]. *)
Definition htry_denied {A} (m : HostM A) (denied : HostM A)
    (h : HostExn -> HostM A) : HostM A :=
  fun s =>
    match m s with
    | (HRaised AccessDenied, s1) => denied s1
    | (HRaised e, s1) => h e s1
    | other => other
    end.

Declare Scope host_scope.
Delimit Scope host_scope with host.
Notation "x <- c1 ;; c2" := (hbind c1 (fun x => c2))
  (at level 61, c1 at next level, right associativity) : host_scope.
Notation "c1 ;; c2" := (hbind c1 (fun _ => c2))
  (at level 61, right associativity) : host_scope.
Local Open Scope host_scope.

Definition hemit (ev : HostEvent) : HostM unit :=
  fun s =>
    (HVal tt,
     {| host_trace := ev :: host_trace s;
        config_manager := config_manager s |}).

Definition hlog (lvl : Level) (msg : HostLog) : HostM unit :=
  hemit (HLog lvl msg).

(** A library call that may raise: record it with its outcome. *)
Definition hcall {A} (answer : list HostEvent -> HostOutcome A)
    (ev : HostOutcome A -> HostEvent) : HostM A :=
  fun s =>
    let r := answer (host_trace s) in
    match hemit (ev r) s with
    | (_, s1) =>
        match r with
        | Ok a => (HVal a, s1)
        | Err e => (HRaised e, s1)
        end
    end.

(** A look at the outside that leaves no event. *)
Definition hquery {A} (answer : list HostEvent -> A) : HostM A :=
  fun s => (HVal (answer (host_trace s)), s).

Definition get_config_manager : HostM ConfigManager :=
  fun s => (HVal (config_manager s), s).

Definition set_config_manager (cm : ConfigManager) : HostM unit :=
  fun s => (HVal tt, {| host_trace := host_trace s; config_manager := cm |}).

(** [for x in xs: acc = body x acc]. *)
Fixpoint hfold {A S} (xs : list A) (body : A -> S -> HostM S) (acc : S)
  : HostM S :=
  match xs with
  | [] => hret acc
  | x :: rest => acc1 <- body x acc ;; hfold rest body acc1
  end.

(** [for x in xs: body x], where the body may [return]. *)
Fixpoint hfor_each {A R} (xs : list A) (body : A -> HostM (Flow R))
  : HostM (Flow R) :=
  match xs with
  | [] => hret Next
  | x :: rest =>
      r <- body x ;;
      match r with
      | Next => hfor_each rest body
      | Return v => hret (Return v)
      end
  end.

(** [needle in hay] for two [str]. *)
Fixpoint contains (needle hay : string) : bool :=
  String.prefix needle hay
  || match hay with
     | EmptyString => false
     | String _ hay' => contains needle hay'
     end.

Section HostCode.

Variable host : Host.

(** *** [ConfigManager] *)

Definition default_config : Config := CDict [("anyi_path", PStr "")].

Definition _load_config (file : string) : HostM Config :=
  htry
    (found <- hquery (fun tr => host_path_exists host tr file) ;;
     if found : bool then hcall (fun tr => json_load host tr file) (HLoad file)
     else hret default_config)
    (fun e => hlog ERROR (MsgLoadFailed e) ;; hret default_config).

Definition ConfigManager_init (file : string) : HostM unit :=
  c <- _load_config file ;;
  set_config_manager {| config_file := file; config := c |}.

Definition save_config : HostM bool :=
  htry
    (cm <- get_config_manager ;;
     hcall (fun tr => json_dump host tr (config_file cm) (config cm))
           (HDump (config_file cm) (config cm)) ;;
     hret true)
    (fun e => hlog ERROR (MsgSaveFailed e) ;; hret false).

(** On a value that is not a [dict], [.get] is an [AttributeError]. *)
Definition get_anyi_path : HostM PyVal :=
  cm <- get_config_manager ;;
  match config cm with
  | CDict d => hret (dict_get d "anyi_path" (PStr ""))
  | CNotDict => hraise AttributeError
  end.

(** On a value that is not a [dict], the item assignment is a
    [TypeError]. *)
Definition set_anyi_path (path : string) : HostM unit :=
  cm <- get_config_manager ;;
  match config cm with
  | CDict d =>
      set_config_manager
        {| config_file := config_file cm;
           config := CDict (dict_set "anyi_path" (PStr path) d) |}
  | CNotDict => hraise TypeError
  end ;;
  _ <- save_config ;;
  hret tt.

(** *** [ProcessManager] *)

(** [process_name.lower() in proc.info['name'].lower()]: on a name that
    is [None], [.lower()] is an [AttributeError]. *)
Definition name_matches (process_name : string) (proc : ProcInfo)
  : HostM bool :=
  let needle := str_lower host process_name in
  match proc_name proc with
  | Some n => hret (contains needle (str_lower host n))
  | None => hraise AttributeError
  end.

(** [psutil.process_iter(['pid', 'name'])]: the records it yields and
    the exception that ends the iteration, if any. *)
Definition process_iter : HostM (list ProcInfo * option HostExn) :=
  it <- hquery (psutil_process_iter host) ;;
  hemit (HProcessIter (fst it) (snd it)) ;;
  hret it.

(** The end of a [for] loop over the iterator. *)
Definition iter_end (err : option HostExn) : HostM unit :=
  match err with
  | Some e => hraise e
  | None => hret tt
  end.

Definition is_process_running (process_name : string) : HostM bool :=
  htry
    (it <- process_iter ;;
     r <- hfor_each (fst it)
            (fun proc =>
               m <- name_matches process_name proc ;;
               if m : bool then hret (Return true) else hret Next) ;;
     match r with
     | Return v => hret v
     | Next => iter_end (snd it) ;; hret false
     end)
    (fun e => hlog ERROR (MsgCheckFailed process_name e) ;; hret false).

(** The body of the loop of [terminate_process]; [terminated] is the
    local variable. *)
Definition terminate_one (process_name : string) (proc : ProcInfo)
    (terminated : bool) : HostM bool :=
  m <- name_matches process_name proc ;;
  if m : bool then
    htry_denied
      (hcall (fun tr => process_terminate host tr (proc_pid proc))
             (HTerminate (proc_pid proc)) ;;
       hlog INFO (MsgTerminated process_name (proc_pid proc)) ;;
       hret true)
      (hlog WARNING (MsgDenied process_name (proc_pid proc)) ;;
       htry
         (hcall (fun tr => process_kill host tr (proc_pid proc))
                (HKill (proc_pid proc)) ;;
          hlog INFO (MsgKilled process_name (proc_pid proc)) ;;
          hret true)
         (fun e => hlog ERROR (MsgKillFailed process_name e) ;;
                   hret terminated))
      (fun e => hlog ERROR (MsgTerminateFailed process_name e) ;;
                hret terminated)
  else hret terminated.

Definition terminate_process (process_name : string) : HostM bool :=
  htry
    (it <- process_iter ;;
     terminated <- hfold (fst it) (terminate_one process_name) false ;;
     iter_end (snd it) ;;
     hret terminated)
    (fun e => hlog ERROR (MsgTerminateError process_name e) ;; hret false).

(** *** [ProgramRunner] *)

(** [FileManager.validate_exe_path(path)] for a [str], against the file
    system as it is now. *)
Definition validate_now (path : string) : HostM bool :=
  hquery (fun tr =>
            validate_exe_path (host_path_exists host tr)
                              (host_path_isfile host tr) path).

Definition _run_anyi_exe (path : string) : HostM bool :=
  htry
    (hlog INFO (MsgLaunching path) ;;
     hcall (fun tr => subprocess_Popen host tr path) (HPopen path) ;;
     hemit (HSleep 2000) ;;
     rc <- hquery (process_poll host) ;;
     hemit (HPoll rc) ;;
     match rc with
     | None => hlog INFO (MsgLaunched path) ;; hret true
     | Some _ => hlog ERROR (MsgExited path) ;; hret false
     end)
    (fun e => hlog ERROR (MsgLaunchFailed e) ;; hret false).

(** [print(msg)]. *)
Definition print (msg : PrintMsg) : HostM unit :=
  hcall (fun tr => console_print host tr msg) (HPrint msg).

Definition max_retries : nat := 3.

(** One pass through the [try] of the prompt loop. *)
Definition prompt_attempt : HostM (Flow bool) :=
  htry
    (print PrintPrompt ;;
     line <- hcall (input_line host) HInput ;;
     let anyi_path := str_strip host line in
     valid <- validate_now anyi_path ;;
     if valid : bool then
       started <- _run_anyi_exe anyi_path ;;
       if started : bool then
         set_anyi_path anyi_path ;; hret (Return true)
       else hret Next
     else print PrintInvalid ;; hret Next)
    (fun e => hlog ERROR (MsgPromptError e) ;; hret Next).

(** The [while] loop of [_prompt_and_run_anyi] from a given value of
    [retry_count], allowed at most [fuel] iterations, and what follows
    the loop. *)
Fixpoint prompt_loop (fuel retry_count : nat) : HostM bool :=
  if (retry_count <? max_retries)%nat then
    match fuel with
    | O => fun s => (HOutOfFuel, s)
    | S fuel' =>
        r <- prompt_attempt ;;
        match r with
        | Return v => hret v
        | Next =>
            let retry_count := S retry_count in
            (if (retry_count <? max_retries)%nat
             then print (PrintRetry (max_retries - retry_count))
             else hret tt) ;;
            prompt_loop fuel' retry_count
        end
    end
  else hlog ERROR MsgGiveUp ;; hret false.

Definition _prompt_and_run_anyi (fuel : nat) : HostM bool :=
  prompt_loop fuel 0.

(** [run_anyi]: a stored value that is not a [str] is false ([not
    anyi_path]) or makes [re.match] raise a [TypeError]. *)
Definition run_anyi (fuel : nat) : HostM bool :=
  anyi_path <- get_anyi_path ;;
  match anyi_path with
  | PStr s =>
      if (s =? "")%string then _prompt_and_run_anyi fuel
      else
        valid <- validate_now s ;;
        if valid : bool then _run_anyi_exe s else _prompt_and_run_anyi fuel
  | PNotStr false => _prompt_and_run_anyi fuel
  | PNotStr true => hraise TypeError
  end.

End HostCode.

Local Close Scope host_scope.

(** ** Vocabulary of the statements about the host *)

(** [proc] is a process that [process_name] selects. *)
Definition matching (host : Host) (process_name : string) (proc : ProcInfo)
  : bool :=
  match proc_name proc with
  | Some n => contains (str_lower host process_name) (str_lower host n)
  | None => false
  end.

(** Every event of [evs] is a log line, a terminate signal to a process
    of [procs] that [process_name] selects, or a kill signal to a
    process that refused the terminate signal with [AccessDenied]. *)
Definition only_signals (host : Host) (process_name : string)
    (procs : list ProcInfo) (evs : list HostEvent) : Prop :=
  forall ev, In ev evs ->
    match ev with
    | HLog _ _ => True
    | HTerminate pid _ =>
        exists p, In p procs /\ proc_pid p = pid /\
                  matching host process_name p = true
    | HKill pid _ => In (HTerminate pid (Err AccessDenied)) evs
    | _ => False
    end.

Definition is_input (ev : HostEvent) : bool :=
  match ev with
  | HInput _ => true
  | _ => false
  end.

Definition is_print (ev : HostEvent) : bool :=
  match ev with
  | HPrint _ _ => true
  | _ => false
  end.

Definition is_popen (ev : HostEvent) : bool :=
  match ev with
  | HPopen _ _ => true
  | _ => false
  end.

(** The prompt for a path: one per pass through the prompt loop. *)
Definition is_prompt (ev : HostEvent) : bool :=
  match ev with
  | HPrint PrintPrompt _ => true
  | _ => false
  end.

Definition is_dump (ev : HostEvent) : bool :=
  match ev with
  | HDump _ _ _ => true
  | _ => false
  end.

(** Log lines, sleeps and polls. *)
Definition is_background (ev : HostEvent) : bool :=
  match ev with
  | HLog _ _ => true
  | HSleep _ => true
  | HPoll _ => true
  | _ => false
  end.

(** In the trace [tr] (newest first) the line [line] was read, its
    stripped text passed [validate_exe_path] against the file system
    as it was just after the line was read, and that path was then
    launched and found running at the poll. *)
Definition launched_from_line (host : Host) (tr : list HostEvent)
    (line : string) : Prop :=
  exists pre post,
    tr = (pre ++ HInput (Ok line) :: post)%list /\
    validate_exe_path (host_path_exists host (HInput (Ok line) :: post))
                      (host_path_isfile host (HInput (Ok line) :: post))
                      (str_strip host line) = true /\
    In (HPopen (str_strip host line) (Ok tt)) pre /\
    In (HPoll None) pre.

(** How the prompt loop, started in [s] with [n] attempts left, can end
    in [r], having left the events [evs]: with [True] after a launch
    that stayed up, the path stored; with [False] after [n] prompts;
    or with the exception of a retry message that the console
    refused. *)
Definition prompt_outcome (host : Host) (s : Sys) (n : nat)
    (evs : list HostEvent) (r : HostRes bool * Sys) : Prop :=
  match fst r with
  | HVal true =>
      exists line d,
        launched_from_line host (host_trace (snd r)) line /\
        config (config_manager (snd r)) = CDict d /\
        dict_get d "anyi_path" (PStr "") = PStr (str_strip host line)
  | HVal false =>
      List.length (filter is_prompt evs) = n /\
      config_manager (snd r) = config_manager s /\
      exists evs', evs = HLog ERROR MsgGiveUp :: evs'
  | HRaised e =>
      config_manager (snd r) = config_manager s /\
      exists k evs',
        evs = HPrint (PrintRetry k) (Err e) :: evs' /\
        console_print host (evs' ++ host_trace s)%list (PrintRetry k) = Err e
  | HOutOfFuel => False
  end.

(** A host for examples: texts are already lower-case and stripped,
    the listing is [procs], every signal is delivered, every path
    exists as a file, there is no configuration file to read, writing
    one succeeds, the console takes every text and gives [line], every
    launch succeeds and
    the poll answers [poll]. *)
Definition example_host (procs : list ProcInfo) (line : string)
    (poll : option Z) : Host :=
  {| str_lower := fun s => s;
     str_strip := fun s => s;
     psutil_process_iter := fun _ => (procs, None);
     process_terminate := fun _ _ => Ok tt;
     process_kill := fun _ _ => Ok tt;
     host_path_exists := fun _ _ => true;
     host_path_isfile := fun _ _ => true;
     json_load := fun _ _ => Err (HostError "unreadable");
     json_dump := fun _ _ _ => Ok tt;
     console_print := fun _ _ => Ok tt;
     input_line := fun _ => Ok line;
     subprocess_Popen := fun _ _ => Ok tt;
     process_poll := fun _ => poll |}.

(** [host] with its console closed: every [print] raises. *)
Definition closed_console (host : Host) : Host :=
  {| str_lower := str_lower host;
     str_strip := str_strip host;
     psutil_process_iter := psutil_process_iter host;
     process_terminate := process_terminate host;
     process_kill := process_kill host;
     host_path_exists := host_path_exists host;
     host_path_isfile := host_path_isfile host;
     json_load := json_load host;
     json_dump := json_dump host;
     console_print := fun _ _ => Err (HostError "closed file");
     input_line := input_line host;
     subprocess_Popen := subprocess_Popen host;
     process_poll := process_poll host |}.

(** The start: nothing happened yet, the configuration is [c]. *)
Definition sys_init (c : Config) : Sys :=
  {| host_trace := [];
     config_manager := {| config_file := "anyi_config.json"; config := c |} |}.

(** A signal that was delivered. *)
Definition signal_ok (ev : HostEvent) : bool :=
  match ev with
  | HTerminate _ (Ok _) => true
  | HKill _ (Ok _) => true
  | _ => false
  end.


(** ** Reasoning about runs *)

Local Open Scope list_scope.

(** The ways a run can end without a value. *)
Inductive Kind : Type := KRaised | KDepth | KFuel.

Definition ends (k : Kind) {A} (r : Res A) : bool :=
  match k, r with
  | KRaised, Raised _ => true
  | KDepth, OutOfDepth => true
  | KFuel, OutOfFuel => true
  | _, _ => false
  end.

(** [never k m]: from no world does [m] end in the way [k]. *)
Definition never (k : Kind) {A} (m : M A) : Prop :=
  forall w, ends k (fst (m w)) = false.

(** [w ⊑ w']: the clock did not go back and the trace only grew. *)
Definition le_world (w w' : World) : Prop :=
  now w <= now w' /\ exists evs, trace w' = evs ++ trace w.

Definition extends {A} (m : M A) : Prop :=
  forall w, le_world w (snd (m w)).

(** [keeps P m]: a trace that satisfies [P] still does after [m]. *)
Definition keeps {A} (P : list Event -> Prop) (m : M A) : Prop :=
  forall w, P (trace w) -> P (trace (snd (m w))).

Lemma le_world_refl w : le_world w w.
Proof. split; [lia | now exists []]. Qed.

Lemma le_world_trans w1 w2 w3 :
  le_world w1 w2 -> le_world w2 w3 -> le_world w1 w3.
Proof.
  intros [H1 [e1 E1]] [H2 [e2 E2]]. split; [lia |].
  exists (e2 ++ e1). now rewrite E2, E1, app_assoc.
Qed.

Lemma le_world_emit ev w : le_world w (emit ev w).
Proof. split; simpl; [lia | now exists [ev]]. Qed.

Lemma le_world_advance ms w : 0 <= ms -> le_world w (advance ms w).
Proof. intros H. split; simpl; [lia | now exists []]. Qed.

Section MonadFacts.

Context {A B : Type}.

Lemma bind_val (m : M A) (k : A -> M B) w a w1 :
  m w = (Val a, w1) -> bind m k w = k a w1.
Proof. intros H. unfold bind. now rewrite H. Qed.

Lemma bind_inv (m : M A) (k : A -> M B) w r w' :
  bind m k w = (r, w') ->
  (exists a w1, m w = (Val a, w1) /\ k a w1 = (r, w')) \/
  ((exists e, m w = (Raised e, w') /\ r = Raised e) \/
   (m w = (OutOfDepth, w') /\ r = OutOfDepth) \/
   (m w = (OutOfFuel, w') /\ r = OutOfFuel)).
Proof.
  unfold bind. destruct (m w) as [[a|e| |] w1]; intros H.
  - left. now exists a, w1.
  - inversion H; subst. right; left. now exists e.
  - inversion H; subst. right; right; left. now split.
  - inversion H; subst. right; right; right. now split.
Qed.

Lemma never_ret k (a : A) : never k (ret a).
Proof. intros w. now destruct k. Qed.

Lemma never_bind k (m : M A) (f : A -> M B) :
  never k m -> (forall a, never k (f a)) -> never k (bind m f).
Proof.
  intros Hm Hf w. unfold bind. specialize (Hm w).
  destruct (m w) as [[a|e| |] w1]; simpl in *; try (now destruct k).
  apply Hf.
Qed.

Lemma never_try_raised (m : M A) (h : Exn -> M A) :
  (forall e, never KRaised (h e)) -> never KRaised (try_ m h).
Proof.
  intros Hh w. unfold try_.
  destruct (m w) as [[a|e| |] w1]; simpl; auto. apply Hh.
Qed.

Lemma never_try k (m : M A) (h : Exn -> M A) :
  never k m -> (forall e, never k (h e)) -> never k (try_ m h).
Proof.
  intros Hm Hh w. unfold try_. specialize (Hm w).
  destruct (m w) as [[a|e| |] w1]; simpl in *; auto. apply Hh.
Qed.

Lemma extends_ret (a : A) : extends (ret a).
Proof. intros w. apply le_world_refl. Qed.

Lemma extends_bind (m : M A) (f : A -> M B) :
  extends m -> (forall a, extends (f a)) -> extends (bind m f).
Proof.
  intros Hm Hf w. unfold bind. specialize (Hm w).
  destruct (m w) as [[a|e| |] w1]; simpl in *; auto.
  eapply le_world_trans; [exact Hm | apply Hf].
Qed.

Lemma extends_try (m : M A) (h : Exn -> M A) :
  extends m -> (forall e, extends (h e)) -> extends (try_ m h).
Proof.
  intros Hm Hh w. unfold try_. specialize (Hm w).
  destruct (m w) as [[a|e| |] w1]; simpl in *; auto.
  eapply le_world_trans; [exact Hm | apply Hh].
Qed.

End MonadFacts.

Lemma bind_assoc {A B C} (m : M A) (f : A -> M B) (g : B -> M C) w :
  bind (bind m f) g w = bind m (fun a => bind (f a) g) w.
Proof. unfold bind. destruct (m w) as [[a|e| |] w1]; reflexivity. Qed.

Lemma bind_ret_l {A B} (a : A) (k : A -> M B) w : bind (ret a) k w = k a w.
Proof. reflexivity. Qed.

Lemma try_val {A} (m : M A) h w a w1 :
  m w = (Val a, w1) -> try_ m h w = (Val a, w1).
Proof. intros H. unfold try_. now rewrite H. Qed.

Section LoopFacts.

Context {A R : Type}.

Lemma never_for_each k (xs : list A) (body : A -> M (Flow R)) :
  (forall x, never k (body x)) -> never k (for_each xs body).
Proof.
  intros Hb. induction xs as [|x xs IH]; simpl.
  - apply never_ret.
  - apply never_bind; [apply Hb |].
    intros [|v]; [exact IH | apply never_ret].
Qed.

Lemma extends_for_each (xs : list A) (body : A -> M (Flow R)) :
  (forall x, extends (body x)) -> extends (for_each xs body).
Proof.
  intros Hb. induction xs as [|x xs IH]; simpl.
  - apply extends_ret.
  - apply extends_bind; [apply Hb |].
    intros [|v]; [exact IH | apply extends_ret].
Qed.

(** A [return] that leaves a [for] loop was executed by one of its
    passes. *)
Lemma for_each_return (xs : list A) (body : A -> M (Flow R))
    (P : R -> World -> Prop) :
  (forall x w v w', body x w = (Val (Return v), w') -> P v w') ->
  forall w v w', for_each xs body w = (Val (Return v), w') -> P v w'.
Proof.
  intros Hb. induction xs as [|x xs IH]; simpl; intros w v w' H.
  - discriminate.
  - apply bind_inv in H.
    destruct H as [(r & w1 & H1 & H2) | [(e & _ & ?) | [[_ ?] | [_ ?]]]];
      try discriminate.
    destruct r as [|v0].
    + eapply IH; eauto.
    + inversion H2; subst. eapply Hb; eauto.
Qed.

Lemma while_unfold (fuel : nat) (cond : M bool) (body : M (Flow R)) :
  while_ fuel cond body =
  bind cond (fun c =>
    if c : bool then
      match fuel with
      | O => fun w => (OutOfFuel, w)
      | S fuel' =>
          bind body (fun r =>
            match r with
            | Next => while_ fuel' cond body
            | Return v => ret (Return v)
            end)
      end
    else ret Next).
Proof. destruct fuel; reflexivity. Qed.

Lemma never_while k (fuel : nat) (cond : M bool) (body : M (Flow R)) :
  k <> KFuel -> never k cond -> never k body ->
  never k (while_ fuel cond body).
Proof.
  intros Hk Hc Hb. induction fuel as [|f IH]; rewrite while_unfold.
  - apply never_bind; [exact Hc |].
    intros [|]; [| apply never_ret]. intros w. now destruct k.
  - apply never_bind; [exact Hc |].
    intros [|]; [| apply never_ret].
    apply never_bind; [exact Hb |].
    intros [|v]; [exact IH | apply never_ret].
Qed.

Lemma extends_while (fuel : nat) (cond : M bool) (body : M (Flow R)) :
  extends cond -> extends body -> extends (while_ fuel cond body).
Proof.
  intros Hc Hb. induction fuel as [|f IH]; rewrite while_unfold.
  - apply extends_bind; [exact Hc |].
    intros [|]; [| apply extends_ret]. intros w. apply le_world_refl.
  - apply extends_bind; [exact Hc |].
    intros [|]; [| apply extends_ret].
    apply extends_bind; [exact Hb |].
    intros [|v]; [exact IH | apply extends_ret].
Qed.

(** A [return] that leaves a [while] loop was executed by its body. *)
Lemma while_return (fuel : nat) (cond : M bool) (body : M (Flow R))
    (P : R -> World -> Prop) :
  (forall w v w', body w = (Val (Return v), w') -> P v w') ->
  (forall w c w', cond w = (Val c, w') -> w' = w) ->
  forall w v w', while_ fuel cond body w = (Val (Return v), w') -> P v w'.
Proof.
  intros Hb Hc. induction fuel as [|f IH]; intros w v w' H;
    rewrite while_unfold in H; apply bind_inv in H;
    destruct H as [(c & w1 & H1 & H2) | [(e & _ & ?) | [[_ ?] | [_ ?]]]];
    try discriminate; destruct c; try discriminate.
  apply bind_inv in H2.
  destruct H2 as [(r & w2 & H2 & H3) | [(e & _ & ?) | [[_ ?] | [_ ?]]]];
    try discriminate.
  destruct r as [|v0].
  - eapply IH; eauto.
  - inversion H3; subst. eapply Hb; eauto.
Qed.

End LoopFacts.

Create HintDb run discriminated.

#[export] Hint Resolve never_ret never_bind never_try never_for_each
  extends_ret extends_bind extends_try extends_for_each extends_while
  le_world_refl : run.

#[export] Hint Extern 1 (@eq Kind _ _ -> False) => discriminate : run.
#[export] Hint Extern 1 (not (@eq Kind _ _)) => discriminate : run.

Section PrimitiveFacts.

Variable env : Env.

Lemma never_log k lvl msg : never k (log lvl msg).
Proof. intros w. now destruct k. Qed.

Lemma extends_log lvl msg : extends (log lvl msg).
Proof. intros w. apply le_world_emit. Qed.

Lemma never_time_time k : never k time_time.
Proof. intros w. now destruct k. Qed.

Lemma extends_time_time : extends time_time.
Proof. intros w. apply le_world_refl. Qed.

Lemma never_exists k path : never k (exists_ env path).
Proof. intros w. now destruct k. Qed.

Lemma extends_exists path : extends (exists_ env path).
Proof. intros w. apply le_world_refl. Qed.

Lemma sleep_run ms w :
  0 <= ms -> sleep ms w = (Val tt, advance ms (emit (EvSleep ms) w)).
Proof.
  intros H. unfold sleep. destruct (ms <? 0) eqn:E; [| reflexivity].
  apply Z.ltb_lt in E. lia.
Qed.

Lemma never_sleep k ms : 0 <= ms -> never k (sleep ms).
Proof. intros H w. rewrite sleep_run by exact H. now destruct k. Qed.

Lemma never_sleep_depth ms : never KDepth (sleep ms).
Proof. intros w. unfold sleep. now destruct (ms <? 0). Qed.

Lemma never_sleep_fuel ms : never KFuel (sleep ms).
Proof. intros w. unfold sleep. now destruct (ms <? 0). Qed.

Lemma extends_sleep ms : extends (sleep ms).
Proof.
  intros w. unfold sleep. destruct (ms <? 0) eqn:E; simpl.
  - apply le_world_refl.
  - apply Z.ltb_ge in E.
    eapply le_world_trans; [apply (le_world_emit (EvSleep ms)) |].
    now apply le_world_advance.
Qed.

Lemma call_run {A} (answer : Outcome A * nat) ev w :
  call answer ev w =
  (match fst answer with Done a => Val a | Fails e => Raised e end,
   advance (Z.of_nat (snd answer)) (emit (ev (fst answer)) w)).
Proof. unfold call. now destruct (fst answer). Qed.

Lemma ends_call {A} k (answer : Outcome A * nat) ev w :
  k <> KRaised -> ends k (fst (call answer ev w)) = false.
Proof.
  intros Hk. rewrite call_run. simpl.
  destruct (fst answer); destruct k; simpl; congruence.
Qed.

Lemma le_world_call {A} (answer : Outcome A * nat) ev w :
  le_world w (snd (call answer ev w)).
Proof.
  rewrite call_run. simpl.
  eapply le_world_trans; [apply le_world_emit |].
  apply le_world_advance. lia.
Qed.

Lemma never_locate k path conf region :
  k <> KRaised -> never k (locate env path conf region).
Proof. intros Hk w. now apply ends_call. Qed.

Lemma extends_locate path conf region : extends (locate env path conf region).
Proof. intros w. apply le_world_call. Qed.

Lemma never_click k x y : k <> KRaised -> never k (click env x y).
Proof. intros Hk w. now apply ends_call. Qed.

Lemma extends_click x y : extends (click env x y).
Proof. intros w. apply le_world_call. Qed.

Lemma never_press k key : k <> KRaised -> never k (press_and_release env key).
Proof. intros Hk w. now apply ends_call. Qed.

Lemma extends_press key : extends (press_and_release env key).
Proof. intros w. apply le_world_call. Qed.

Lemma never_copy k text : k <> KRaised -> never k (copy env text).
Proof.
  intros Hk w. unfold copy. rewrite call_run.
  destruct (fst (pyperclip_copy env w text)); destruct k; simpl; congruence.
Qed.

Lemma extends_copy text : extends (copy env text).
Proof.
  intros w. unfold copy.
  pose proof (le_world_call (pyperclip_copy env w text) (EvCopy text) w) as H.
  destruct (call (pyperclip_copy env w text) (EvCopy text) w)
    as [[u|e| |] w1]; simpl in *; auto.
Qed.

Lemma never_hotkey k keys : k <> KRaised -> never k (hotkey env keys).
Proof. intros Hk w. now apply ends_call. Qed.

Lemma extends_hotkey keys : extends (hotkey env keys).
Proof. intros w. apply le_world_call. Qed.

Lemma never_write k text interval :
  k <> KRaised -> never k (write env text interval).
Proof. intros Hk w. now apply ends_call. Qed.

Lemma extends_write text interval : extends (write env text interval).
Proof. intros w. apply le_world_call. Qed.

Lemma never_random_raw k : never k (random_raw env).
Proof. intros w. now destruct k. Qed.

Lemma extends_random_raw : extends (random_raw env).
Proof. intros w. split; simpl; [lia | now exists []]. Qed.

Lemma never_randint k a b : never k (randint env a b).
Proof. intros w. now destruct k. Qed.

Lemma extends_randint a b : extends (randint env a b).
Proof. intros w. split; simpl; [lia | now exists []]. Qed.

Lemma never_uniform k a b : never k (uniform env a b).
Proof. intros w. now destruct k. Qed.

Lemma extends_uniform a b : extends (uniform env a b).
Proof. intros w. split; simpl; [lia | now exists []]. Qed.

Lemma never_choice k chars : never k (choice env chars).
Proof. intros w. now destruct k. Qed.

Lemma extends_choice chars : extends (choice env chars).
Proof. intros w. split; simpl; [lia | now exists []]. Qed.

End PrimitiveFacts.

#[export] Hint Resolve never_log extends_log never_time_time
  extends_time_time never_exists extends_exists never_sleep_depth
  never_sleep_fuel extends_sleep never_locate extends_locate never_click
  extends_click never_press extends_press never_copy extends_copy
  never_hotkey extends_hotkey never_write extends_write never_random_raw
  extends_random_raw never_randint extends_randint never_uniform
  extends_uniform never_choice extends_choice : run.

(** Structural proofs of [never] and [extends]: follow the shape of the
    program, splitting on what it branches on. *)
Ltac run_step :=
  match goal with
  | |- never _ (bind _ _) => apply never_bind; [| intros ?]
  | |- extends (bind _ _) => apply extends_bind; [| intros ?]
  | |- never KRaised (try_ _ _) => apply never_try_raised; intros ?
  | |- never _ (try_ _ _) => apply never_try; [| intros ?]
  | |- extends (try_ _ _) => apply extends_try; [| intros ?]
  | |- never _ (for_each _ _) => apply never_for_each; intros ?
  | |- extends (for_each _ _) => apply extends_for_each; intros ?
  | |- never _ (while_ _ _ _) => apply never_while
  | |- extends (while_ _ _ _) => apply extends_while
  | |- never _ (if ?c then _ else _) => destruct c
  | |- extends (if ?c then _ else _) => destruct c
  | |- never _ (match ?x with _ => _ end) => destruct x
  | |- extends (match ?x with _ => _ end) => destruct x
  | |- never _ (sleep _) => apply never_sleep; lia
  | |- _ <> _ => discriminate
  end.

Ltac run_auto := repeat (first [ solve [auto with run] | run_step ]).

(** Invert a run of [bind]: either the first part gave a value and the
    rest ran, or the first part ended the run. *)
Ltac inv_bind H :=
  let a := fresh "a" in
  let w := fresh "w" in
  let e := fresh "e" in
  let H1 := fresh "Hrun" in
  let H2 := fresh "Hres" in
  apply bind_inv in H;
  destruct H as [(a & w & H1 & H) | [(e & H1 & H2) | [[H1 H2] | [H1 H2]]]];
  try discriminate.

Section MethodFacts.

Variable env : Env.
Variable dir : string.

Local Abbreviation self := (ImageAutomation_init dir).

Lemma never_locate_attempt k name path region retry :
  never k (locate_attempt env self name path region retry).
Proof. unfold locate_attempt. destruct k; run_auto. Qed.

Lemma extends_locate_attempt name path region retry :
  extends (locate_attempt env self name path region retry).
Proof. unfold locate_attempt. run_auto. Qed.

Lemma never_interrupt_check_raised dismiss name :
  never KRaised (interrupt_check env self dismiss name).
Proof. unfold interrupt_check. run_auto. Qed.

Lemma never_interrupt_check k dismiss name :
  never k dismiss -> never k (interrupt_check env self dismiss name).
Proof.
  intros H. destruct k; [apply never_interrupt_check_raised | |];
    unfold interrupt_check; run_auto.
Qed.

Lemma never_interrupt_check_self k dismiss :
  never k (interrupt_check env self dismiss INTERRUPT).
Proof. unfold interrupt_check. simpl. apply never_ret. Qed.

Lemma extends_interrupt_check dismiss name :
  extends dismiss -> extends (interrupt_check env self dismiss name).
Proof. intros H. unfold interrupt_check. run_auto. Qed.

Lemma never_poll_cycle_raised dismiss name path region :
  never KRaised (poll_cycle env self dismiss name path region).
Proof.
  unfold poll_cycle. apply never_bind.
  - apply never_for_each. intros x. apply never_locate_attempt.
  - intros [|v]; [| apply never_ret].
    apply never_bind; [apply never_interrupt_check_raised |]. intros _.
    simpl. run_auto.
Qed.

Lemma never_poll_cycle k dismiss name path region :
  k <> KRaised -> never k dismiss ->
  never k (poll_cycle env self dismiss name path region).
Proof.
  intros Hk Hd. unfold poll_cycle. apply never_bind.
  - apply never_for_each. intros x. apply never_locate_attempt.
  - intros [|v]; [| apply never_ret].
    apply never_bind; [now apply never_interrupt_check |]. intros _.
    simpl. run_auto.
Qed.

Lemma never_poll_cycle_self k dismiss path region :
  never k (poll_cycle env self dismiss INTERRUPT path region).
Proof.
  unfold poll_cycle. apply never_bind.
  - apply never_for_each. intros x. apply never_locate_attempt.
  - intros [|v]; [| apply never_ret].
    apply never_bind; [apply never_interrupt_check_self |]. intros _.
    simpl. run_auto.
Qed.

Lemma extends_poll_cycle dismiss name path region :
  extends dismiss -> extends (poll_cycle env self dismiss name path region).
Proof.
  intros Hd. unfold poll_cycle. apply extends_bind.
  - apply extends_for_each. intros x. apply extends_locate_attempt.
  - intros [|v]; [| apply extends_ret].
    apply extends_bind; [now apply extends_interrupt_check |]. intros _.
    run_auto.
Qed.

Lemma never_wait_body_raised click_image fuel name timeout region :
  never KRaised (wait_body env self click_image fuel name timeout region).
Proof.
  unfold wait_body. run_auto. apply never_poll_cycle_raised.
Qed.

Lemma never_wait_body_depth click_image fuel name timeout region :
  never KDepth (click_image INTERRUPT None None) ->
  never KDepth (wait_body env self click_image fuel name timeout region).
Proof.
  intros H. unfold wait_body. run_auto. now apply never_poll_cycle.
Qed.

Lemma never_wait_body_depth_self click_image fuel timeout region :
  never KDepth (wait_body env self click_image fuel INTERRUPT timeout region).
Proof.
  unfold wait_body. run_auto. apply never_poll_cycle_self.
Qed.

Lemma extends_wait_body click_image fuel name timeout region :
  extends (click_image INTERRUPT None None) ->
  extends (wait_body env self click_image fuel name timeout region).
Proof.
  intros H. unfold wait_body. run_auto. now apply extends_poll_cycle.
Qed.

Lemma never_dispatch_click k name attempt location :
  never k (dispatch_click env self name attempt location).
Proof.
  unfold dispatch_click. destruct location as [x y]. destruct k; run_auto.
Qed.

Lemma extends_dispatch_click name attempt location :
  extends (dispatch_click env self name attempt location).
Proof. unfold dispatch_click. destruct location as [x y]. run_auto. Qed.

Lemma never_click_attempt k wait_image name timeout region attempt :
  never k (wait_image name timeout region) ->
  never k (click_attempt env self wait_image name timeout region attempt).
Proof.
  intros H. unfold click_attempt.
  destruct k; run_auto; apply never_dispatch_click.
Qed.

Lemma extends_click_attempt wait_image name timeout region attempt :
  extends (wait_image name timeout region) ->
  extends (click_attempt env self wait_image name timeout region attempt).
Proof.
  intros H. unfold click_attempt. run_auto. apply extends_dispatch_click.
Qed.

Lemma never_click_body k wait_image name timeout region :
  never k (wait_image name timeout region) ->
  never k (click_body env self wait_image name timeout region).
Proof.
  intros H. unfold click_body. run_auto. now apply never_click_attempt.
Qed.

Lemma extends_click_body wait_image name timeout region :
  extends (wait_image name timeout region) ->
  extends (click_body env self wait_image name timeout region).
Proof.
  intros H. unfold click_body. run_auto. now apply extends_click_attempt.
Qed.

(** Neither method lets an exception escape. *)
Lemma never_wait_raised depth fuel name timeout region :
  never KRaised (wait_and_find_image env self depth fuel name timeout region).
Proof.
  destruct depth as [|d]; simpl.
  - intros w. reflexivity.
  - apply never_wait_body_raised.
Qed.

Lemma never_click_raised depth fuel name timeout region :
  never KRaised
    (click_image_with_offset env self depth fuel name timeout region).
Proof.
  destruct depth as [|d]; simpl.
  - intros w. reflexivity.
  - apply never_click_body. apply never_wait_raised.
Qed.

Lemma extends_wait_click depth :
  (forall fuel name timeout region,
     extends (wait_and_find_image env self depth fuel name timeout region)) /\
  (forall fuel name timeout region,
     extends (click_image_with_offset env self depth fuel name timeout region)).
Proof.
  induction depth as [|d [IHw IHc]]; split; intros; simpl;
    try (intros w; apply le_world_refl).
  - apply extends_wait_body. apply IHc.
  - apply extends_click_body. apply IHw.
Qed.

Lemma extends_wait depth fuel name timeout region :
  extends (wait_and_find_image env self depth fuel name timeout region).
Proof. apply extends_wait_click. Qed.

Lemma extends_click_image depth fuel name timeout region :
  extends (click_image_with_offset env self depth fuel name timeout region).
Proof. apply extends_wait_click. Qed.

End MethodFacts.

(** ** Programs that agree on every world *)

Section Agreement.

Context {A B : Type}.

Lemma bind_ext (m1 m2 : M A) (k1 k2 : A -> M B) w :
  (forall w, m1 w = m2 w) -> (forall a w, k1 a w = k2 a w) ->
  bind m1 k1 w = bind m2 k2 w.
Proof.
  intros Hm Hk. unfold bind. rewrite Hm.
  destruct (m2 w) as [[a|e| |] w1]; auto.
Qed.

Lemma try_ext (m1 m2 : M A) (h1 h2 : Exn -> M A) w :
  (forall w, m1 w = m2 w) -> (forall e w, h1 e w = h2 e w) ->
  try_ m1 h1 w = try_ m2 h2 w.
Proof.
  intros Hm Hh. unfold try_. rewrite Hm.
  destruct (m2 w) as [[a|e| |] w1]; auto.
Qed.

End Agreement.

Section LoopAgreement.

Context {A R : Type}.

Lemma for_each_ext (xs : list A) (b1 b2 : A -> M (Flow R)) w :
  (forall x w, b1 x w = b2 x w) -> for_each xs b1 w = for_each xs b2 w.
Proof.
  intros Hb. revert w. induction xs as [|x xs IH]; intros w; simpl; auto.
  apply bind_ext; [apply Hb |]. intros [|v] w1; auto.
Qed.

Lemma while_ext (fuel : nat) (cond : M bool) (b1 b2 : M (Flow R)) w :
  (forall w, b1 w = b2 w) -> while_ fuel cond b1 w = while_ fuel cond b2 w.
Proof.
  intros Hb. revert w. induction fuel as [|f IH]; intros w.
  - rewrite (while_unfold 0 cond b1), (while_unfold 0 cond b2).
    apply bind_ext; auto.
  - rewrite (while_unfold (S f) cond b1), (while_unfold (S f) cond b2).
    apply bind_ext; auto.
    intros [|] w1; auto. apply bind_ext; auto. intros [|v] w2; auto.
Qed.

End LoopAgreement.

Section DepthAndFuel.

Variable env : Env.
Variable dir : string.

Local Abbreviation self := (ImageAutomation_init dir).

Lemma poll_cycle_ext d1 d2 name path region w :
  (forall w, d1 w = d2 w) ->
  poll_cycle env self d1 name path region w =
  poll_cycle env self d2 name path region w.
Proof.
  intros Hd. unfold poll_cycle. apply bind_ext; auto.
  intros [|v] w1; auto. apply bind_ext; auto.
  intros w2. unfold interrupt_check.
  destruct (negb (name =? INTERRUPT)%string); auto.
  apply try_ext; auto. intros w3. apply bind_ext; auto.
  intros [p|] w4; auto. apply bind_ext; auto.
  intros _ w5. apply bind_ext; auto.
Qed.

Lemma wait_body_ext c1 c2 fuel name timeout region w :
  (forall w, c1 INTERRUPT None None w = c2 INTERRUPT None None w) ->
  wait_body env self c1 fuel name timeout region w =
  wait_body env self c2 fuel name timeout region w.
Proof.
  intros Hc. unfold wait_body. apply bind_ext; auto.
  intros present w1. destruct (negb present); auto.
  apply bind_ext; auto. intros _ w2. apply bind_ext; auto.
  intros start w3. apply bind_ext; auto.
  intros w4. apply while_ext. intros w5. now apply poll_cycle_ext.
Qed.

Lemma click_body_ext w1 w2 name timeout region w :
  (forall w, w1 name timeout region w = w2 name timeout region w) ->
  click_body env self w1 name timeout region w =
  click_body env self w2 name timeout region w.
Proof.
  intros Hw. unfold click_body. apply bind_ext; auto.
  intros w0. apply for_each_ext. intros attempt w3.
  unfold click_attempt. apply bind_ext; auto.
  intros _ w4. apply bind_ext; auto.
Qed.

(** A poll cycle for the popup's own template is the retries and the
    poll sleep: it holds no second watch and never runs [dismiss]. *)
Lemma poll_cycle_self dismiss path region w :
  poll_cycle env self dismiss INTERRUPT path region w =
  bind (for_each (seq 0 3) (locate_attempt env self INTERRUPT path region))
       (fun r => match r with
                 | Return v => ret (Return v)
                 | Next => bind (sleep 500) (fun _ => ret Next)
                 end) w.
Proof.
  unfold poll_cycle. apply bind_ext; auto.
Qed.

Lemma wait_self_depth d fuel timeout region w :
  wait_and_find_image env self (S d) fuel INTERRUPT timeout region w =
  wait_and_find_image env self 1 fuel INTERRUPT timeout region w.
Proof.
  reflexivity.
Qed.

Lemma click_self_depth d fuel timeout region w :
  click_image_with_offset env self (S (S d)) fuel INTERRUPT timeout region w =
  click_image_with_offset env self 2 fuel INTERRUPT timeout region w.
Proof.
  change (click_body env self (wait_and_find_image env self (S d) fuel)
            INTERRUPT timeout region w =
          click_body env self (wait_and_find_image env self 1 fuel)
            INTERRUPT timeout region w).
  apply click_body_ext. intros w1. apply wait_self_depth.
Qed.

Lemma wait_depth d fuel name timeout region w :
  wait_and_find_image env self (3 + d) fuel name timeout region w =
  wait_and_find_image env self 3 fuel name timeout region w.
Proof.
  change (wait_body env self (click_image_with_offset env self (S (S d)) fuel)
            fuel name timeout region w =
          wait_body env self (click_image_with_offset env self 2 fuel)
            fuel name timeout region w).
  apply wait_body_ext. intros w1. apply click_self_depth.
Qed.

Lemma click_depth d fuel name timeout region w :
  click_image_with_offset env self (4 + d) fuel name timeout region w =
  click_image_with_offset env self 4 fuel name timeout region w.
Proof.
  change (click_body env self (wait_and_find_image env self (3 + d) fuel)
            name timeout region w =
          click_body env self (wait_and_find_image env self 3 fuel)
            name timeout region w).
  apply click_body_ext. intros w1. apply wait_depth.
Qed.

Lemma never_wait_self_depth d fuel timeout region :
  never KDepth
    (wait_and_find_image env self (S d) fuel INTERRUPT timeout region).
Proof. simpl. apply never_wait_body_depth_self. Qed.

Lemma never_click_self_depth d fuel timeout region :
  never KDepth
    (click_image_with_offset env self (S (S d)) fuel INTERRUPT timeout region).
Proof.
  change (never KDepth
            (click_body env self (wait_and_find_image env self (S d) fuel)
               INTERRUPT timeout region)).
  apply never_click_body. apply never_wait_self_depth.
Qed.

Lemma never_wait_depth d fuel name timeout region :
  never KDepth
    (wait_and_find_image env self (3 + d) fuel name timeout region).
Proof.
  change (never KDepth
            (wait_body env self
               (click_image_with_offset env self (S (S d)) fuel)
               fuel name timeout region)).
  apply never_wait_body_depth. apply never_click_self_depth.
Qed.

Lemma never_click_depth d fuel name timeout region :
  never KDepth
    (click_image_with_offset env self (4 + d) fuel name timeout region).
Proof.
  change (never KDepth
            (click_body env self (wait_and_find_image env self (3 + d) fuel)
               name timeout region)).
  apply never_click_body. apply never_wait_depth.
Qed.

(** *** Enough fuel *)

(** A poll cycle that does not find its image ends on the poll sleep,
    half a second at least after it began. *)
Lemma poll_cycle_advances dismiss name path region w w1 :
  extends dismiss ->
  poll_cycle env self dismiss name path region w = (Val Next, w1) ->
  now w + 500 <= now w1.
Proof.
  intros Hd H. unfold poll_cycle in H. inv_bind H.
  pose proof (extends_for_each (seq 0 (retry_count self))
                (locate_attempt env self name path region)
                (extends_locate_attempt env dir name path region) w) as Hf.
  rewrite Hrun in Hf. destruct Hf as [Hf _]. simpl in Hf.
  destruct a as [|v]; [| discriminate].
  inv_bind H.
  pose proof (extends_interrupt_check env dir dismiss name Hd w0) as Hi.
  rewrite Hrun0 in Hi. destruct Hi as [Hi _]. simpl in Hi.
  inv_bind H. simpl in Hrun1. rewrite sleep_run in Hrun1 by lia.
  inversion Hrun1; subst. inversion H; subst. simpl. lia.
Qed.

(** The polling loop cannot run out of fuel when it has one unit for
    each half second left to its deadline. *)
Lemma wait_loop_fuel dismiss name path region start timeout cond :
  (forall w, cond w = (Val (now w - start <? timeout), w)) ->
  never KFuel dismiss -> extends dismiss ->
  forall fuel w,
    timeout - (now w - start) <= 500 * Z.of_nat fuel ->
    ends KFuel
      (fst (while_ fuel cond
              (poll_cycle env self dismiss name path region) w)) = false.
Proof.
  intros Hc Hn He. induction fuel as [|f IH]; intros w Hrem;
    rewrite while_unfold; unfold bind at 1; rewrite Hc;
    destruct (now w - start <? timeout) eqn:E; try reflexivity;
    apply Z.ltb_lt in E.
  - lia.
  - unfold bind.
    pose proof (never_poll_cycle env dir KFuel dismiss name path region
                  ltac:(discriminate) Hn w) as Hp.
    destruct (poll_cycle env self dismiss name path region w)
      as [[[|v]|e| |] w1] eqn:Ep; cbn [fst snd ends] in *;
      try reflexivity; try discriminate.
    apply IH. apply poll_cycle_advances in Ep; auto. lia.
Qed.

Lemma enough_fuel_default fuel timeout :
  enough_fuel fuel timeout -> enough_fuel fuel None.
Proof. intros [H _]. now split. Qed.

Lemma never_wait_body_fuel click_image fuel name timeout region :
  enough_fuel fuel timeout ->
  never KFuel (click_image INTERRUPT None None) ->
  extends (click_image INTERRUPT None None) ->
  never KFuel (wait_body env self click_image fuel name timeout region).
Proof.
  intros [Hd Ht] Hn He w. unfold wait_body.
  unfold bind at 1. unfold exists_.
  destruct (negb (os_path_exists env w (_get_image_path env self name)));
    [reflexivity |].
  unfold bind at 1. unfold log at 1. unfold bind at 1. unfold time_time at 1.
  unfold bind at 1.
  match goal with
  | |- context [while_ fuel ?c ?b ?w0] =>
      pose proof (wait_loop_fuel (click_image INTERRUPT None None)
                    name (_get_image_path env self name) region
                    (now w0)
                    (match timeout with
                     | Some t => t
                     | None => max_wait_time self
                     end) c (fun w => eq_refl) Hn He fuel w0) as Hl;
      destruct (while_ fuel c b w0) as [[[|v]|e| |] w1]
  end; cbn [fst snd ends now emit] in *; try reflexivity.
  apply Hl. destruct timeout; cbn [max_wait_time ImageAutomation_init]; lia.
Qed.

Lemma never_fuel_wait_click fuel depth :
  30000 <= 500 * Z.of_nat fuel ->
  (forall name timeout region,
     enough_fuel fuel timeout ->
     never KFuel
       (wait_and_find_image env self depth fuel name timeout region)) /\
  (forall name timeout region,
     enough_fuel fuel timeout ->
     never KFuel
       (click_image_with_offset env self depth fuel name timeout region)).
Proof.
  intros Hf. induction depth as [|d [IHw IHc]]; split; intros; simpl;
    try (intros w; reflexivity).
  - apply never_wait_body_fuel; auto.
    + apply IHc. now split.
    + apply extends_click_image.
  - apply never_click_body. now apply IHw.
Qed.

Lemma never_wait_fuel depth fuel name timeout region :
  enough_fuel fuel timeout ->
  never KFuel (wait_and_find_image env self depth fuel name timeout region).
Proof. intros H. apply never_fuel_wait_click; auto. apply H. Qed.

Lemma never_click_fuel depth fuel name timeout region :
  enough_fuel fuel timeout ->
  never KFuel
    (click_image_with_offset env self depth fuel name timeout region).
Proof. intros H. apply never_fuel_wait_click; auto. apply H. Qed.

(** With enough call depth and fuel both methods return a value. *)
Lemma wait_returns d fuel name timeout region w :
  enough_fuel fuel timeout ->
  exists v w',
    wait_and_find_image env self (3 + d) fuel name timeout region w
      = (Val v, w').
Proof.
  intros Hf.
  pose proof (never_wait_raised env dir (3 + d) fuel name timeout region w).
  pose proof (never_wait_depth d fuel name timeout region w).
  pose proof (never_wait_fuel (3 + d) fuel name timeout region Hf w).
  destruct (wait_and_find_image env self (3 + d) fuel name timeout region w)
    as [[v|e| |] w']; try discriminate.
  now exists v, w'.
Qed.

Lemma click_returns d fuel name timeout region w :
  enough_fuel fuel timeout ->
  exists b w',
    click_image_with_offset env self (4 + d) fuel name timeout region w
      = (Val b, w').
Proof.
  intros Hf.
  pose proof (never_click_raised env dir (4 + d) fuel name timeout region w).
  pose proof (never_click_depth d fuel name timeout region w).
  pose proof (never_click_fuel (4 + d) fuel name timeout region Hf w).
  destruct (click_image_with_offset env self (4 + d) fuel name timeout
              region w) as [[b|e| |] w']; try discriminate.
  now exists b, w'.
Qed.

End DepthAndFuel.

(** ** Text entry and the random e-mail address *)

Section TextFacts.

Variable env : Env.

Lemma never_ensure_english_input k : never k (ensure_english_input env).
Proof. unfold ensure_english_input. destruct k; run_auto. Qed.

Lemma extends_ensure_english_input : extends (ensure_english_input env).
Proof. unfold ensure_english_input. run_auto. Qed.

Lemma never_type_text_safely k text : never k (type_text_safely env text).
Proof.
  unfold type_text_safely, type_text_fallback.
  destruct k; run_auto; apply never_ensure_english_input.
Qed.

Lemma extends_type_text_safely text : extends (type_text_safely env text).
Proof.
  unfold type_text_safely, type_text_fallback. run_auto.
  apply extends_ensure_english_input.
Qed.

Lemma never_random_string k chars n : never k (random_string env chars n).
Proof. induction n as [|n IH]; simpl; run_auto. Qed.

Lemma extends_random_string chars n : extends (random_string env chars n).
Proof. induction n as [|n IH]; simpl; run_auto. Qed.

Lemma never_generate_random_email k : never k (generate_random_email env).
Proof.
  unfold generate_random_email. run_auto. apply never_random_string.
Qed.

Lemma extends_generate_random_email : extends (generate_random_email env).
Proof.
  unfold generate_random_email. run_auto.
Qed.

Lemma jitter_ms_bounds w : 300 <= jitter_ms env w <= 600.
Proof.
  unfold jitter_ms.
  pose proof (Z.mod_pos_bound (Z.of_nat (entropy env (rng w))) (600 - 300 + 1)
                ltac:(lia)).
  lia.
Qed.

Lemma jitter_run w :
  jitter env w =
  (Val tt, advance (jitter_ms env w) (emit (EvSleep (jitter_ms env w)) (use_entropy w))).
Proof.
  unfold jitter, uniform, random_raw, bind, ret.
  change (300 + Z.of_nat (entropy env (rng w)) mod (600 - 300 + 1))
    with (jitter_ms env w).
  rewrite sleep_run; [reflexivity |]. pose proof (jitter_ms_bounds w). lia.
Qed.

Lemma never_jitter k : never k (jitter env).
Proof. intros w. rewrite jitter_run. now destruct k. Qed.

Lemma extends_jitter : extends (jitter env).
Proof.
  intros w. rewrite jitter_run. pose proof (jitter_ms_bounds w).
  split; simpl; [lia |]. now exists [EvSleep (jitter_ms env w)].
Qed.

End TextFacts.

#[export] Hint Resolve never_ensure_english_input extends_ensure_english_input
  never_type_text_safely extends_type_text_safely never_generate_random_email
  extends_generate_random_email never_jitter extends_jitter : run.

(** ** The random e-mail address *)

Section RandomEmail.

Variable env : Env.

Lemma get_In (s : string) (n : nat) :
  (n < String.length s)%nat ->
  exists c, String.get n s = Some c /\ In c (list_ascii_of_string s).
Proof.
  revert n. induction s as [|a s IH]; intros n H; simpl in *; [lia |].
  destruct n as [|n].
  - exists a. auto.
  - destruct (IH n ltac:(lia)) as (c & Hc & Hin). exists c. auto.
Qed.

Lemma choice_run chars w :
  (0 < String.length chars)%nat ->
  exists c,
    choice env chars w = (Val c, drawn 1 w) /\
    In c (list_ascii_of_string chars).
Proof.
  intros H. unfold choice, random_raw, bind, ret.
  destruct (get_In chars (entropy env (rng w) mod String.length chars))
    as (c & Hc & Hin).
  - apply Nat.mod_upper_bound. lia.
  - exists c. rewrite Hc. auto.
Qed.

Lemma random_string_run chars n w :
  (0 < String.length chars)%nat ->
  exists s,
    random_string env chars n w = (Val s, drawn n w) /\
    String.length s = n /\
    Forall (fun c => In c (list_ascii_of_string chars))
           (list_ascii_of_string s).
Proof.
  intros H. revert w. induction n as [|n IH]; intros w.
  - exists ""%string. destruct w. repeat split. constructor.
  - destruct (choice_run chars w H) as (c & Hc & Hin).
    destruct (IH (drawn 1 w)) as (s & Hs & Hlen & Hall).
    exists (String c s). simpl. unfold bind. rewrite Hc, Hs.
    repeat split.
    + unfold ret, drawn. simpl. do 2 f_equal. lia.
    + simpl. now f_equal.
    + simpl. now constructor.
Qed.

Lemma alnum_chars c :
  In c (list_ascii_of_string (ascii_letters ++ digits)%string) ->
  is_alnum c = true.
Proof.
  intros H.
  assert (F : forallb is_alnum
                (list_ascii_of_string (ascii_letters ++ digits)%string)
              = true) by reflexivity.
  rewrite forallb_forall in F. now apply F.
Qed.

(** C6. Every value returned by [generate_random_email] is a local part
    of six characters, each drawn from the 62 letters and digits,
    followed by ["@163.com"], so it matches
    [^[A-Za-z0-9]{6}@163\.com$]; the call uses six numbers of the random
    source and writes one line to the log, and changes nothing else: not
    the clock, not the clipboard, and it performs no input or screen
    action. *)
Theorem generate_random_email_pattern (w : World) :
  exists local_part : string,
    generate_random_email env w =
      (Val (local_part ++ "@163.com")%string,
       emit (EvLog INFO (MsgEmail (local_part ++ "@163.com")%string))
            (drawn 6 w)) /\
    String.length local_part = 6%nat /\
    Forall (fun c =>
              In c (list_ascii_of_string (ascii_letters ++ digits)%string))
           (list_ascii_of_string local_part) /\
    String.length (ascii_letters ++ digits)%string = 62%nat /\
    matches_email_pattern (local_part ++ "@163.com")%string = true.
Proof.
  destruct (random_string_run (ascii_letters ++ digits)%string 6 w
              ltac:(simpl; lia)) as (s & Hs & Hlen & Hall).
  exists s. split; [| split; [exact Hlen | split; [exact Hall | split]]].
  - unfold generate_random_email, bind. rewrite Hs. reflexivity.
  - reflexivity.
  - assert (Ha : Forall (fun c => is_alnum c = true)
                        (list_ascii_of_string s)).
    { eapply Forall_impl; [| exact Hall]. intros c. apply alnum_chars. }
    destruct s as [|c1 [|c2 [|c3 [|c4 [|c5 [|c6 [|c7 s]]]]]]];
      try discriminate.
    simpl in Ha.
    repeat match goal with
           | H : Forall _ (_ :: _) |- _ => inversion H; subst; clear H
           end.
    unfold matches_email_pattern. simpl.
    repeat match goal with
           | H : is_alnum _ = true |- _ => rewrite H; clear H
           end.
    reflexivity.
Qed.

End RandomEmail.

(** ** Text entry *)

Section TextEntry.

Variable env : Env.

Lemma ensure_english_input_run (w : World) :
  exists eng w1,
    ensure_english_input env w = (Val tt, w1) /\
    trace w1 = eng ++ trace w /\
    toggled eng /\
    clipboard w1 = clipboard w.
Proof.
  unfold ensure_english_input, try_, bind, press_and_release.
  rewrite call_run.
  destruct (keyboard_press_and_release env w "shift") as [[[]|e1] n1];
    cbn [fst snd].
  - rewrite sleep_run by lia. rewrite call_run.
    match goal with
    | |- context [keyboard_press_and_release env ?x "shift"] =>
        destruct (keyboard_press_and_release env x "shift") as [[[]|e2] n2]
    end; cbn [fst snd]; eexists; eexists;
      (split; [reflexivity | split; [| split; [| reflexivity]]]);
      simpl; unfold toggled.
    + instantiate (1 := [_; _; _; _]). reflexivity.
    + left. reflexivity.
    + instantiate (1 := [_; _; _; _]). reflexivity.
    + right; left. eexists. reflexivity.
  - eexists; eexists.
    split; [reflexivity | split; [| split; [| reflexivity]]];
      simpl; unfold toggled.
    + instantiate (1 := [_; _]). reflexivity.
    + right; right. eexists. reflexivity.
Qed.

Lemma type_text_fallback_run (text : string) (e : Exn) (w : World) :
  exists fb w',
    type_text_fallback env text e w = (Val tt, w') /\
    trace w' = fb ++ EvLog ERROR (MsgTypeError e) :: trace w /\
    fell_back text fb /\
    clipboard w' = clipboard w.
Proof.
  unfold type_text_fallback, try_, bind, write, log. rewrite call_run.
  match goal with
  | |- context [pyautogui_write env ?x text 100] =>
      destruct (pyautogui_write env x text 100) as [[[]|e2] n2]
  end; cbn [fst snd]; eexists; eexists;
    (split; [reflexivity | split; [| split; [| reflexivity]]]);
    simpl; unfold fell_back.
  - instantiate (1 := [_; _]). reflexivity.
  - left. reflexivity.
  - instantiate (1 := [_; _]). reflexivity.
  - right. eexists. reflexivity.
Qed.

(** What [type_text_safely] does: the two presses of Shift, then the
    copy, the wait of 0.2 s and Ctrl+V; when the copy or the paste
    raises, the error line and the fallback. *)
Lemma type_text_safely_run (text : string) (w : World) :
  exists eng evs w',
    type_text_safely env text w = (Val tt, w') /\
    trace w' = evs ++ eng ++ trace w /\
    toggled eng /\
    ((evs = [EvLog INFO (MsgTyped text); EvHotkey ["ctrl"; "v"] (Done tt);
             EvSleep 200; EvCopy text (Done tt)] /\
      clipboard w' = Some text) \/
     (exists e fb,
        fell_back text fb /\
        evs = fb ++ [EvLog ERROR (MsgTypeError e);
                     EvHotkey ["ctrl"; "v"] (Fails e);
                     EvSleep 200; EvCopy text (Done tt)] /\
        clipboard w' = Some text) \/
     (exists e fb,
        fell_back text fb /\
        evs = fb ++ [EvLog ERROR (MsgTypeError e); EvCopy text (Fails e)] /\
        clipboard w' = clipboard w)).
Proof.
  destruct (ensure_english_input_run w)
    as (eng & w1 & Hrun & Htr & Htog & Hclip).
  exists eng.
  unfold type_text_safely, try_. unfold bind at 1. rewrite Hrun.
  unfold bind at 1. unfold copy. rewrite call_run.
  destruct (pyperclip_copy env w1 text) as [[[]|e1] n1]; cbn [fst snd].
  - unfold bind at 1. rewrite sleep_run by lia.
    unfold bind at 1. unfold hotkey. rewrite call_run.
    match goal with
    | |- context [pyautogui_hotkey env ?x ?k] =>
        destruct (pyautogui_hotkey env x k) as [[[]|e2] n2]
    end; cbn [fst snd].
    + eexists; eexists. split; [reflexivity |].
      split; [| split; [exact Htog | left; split; reflexivity]].
      simpl. now rewrite Htr.
    + match goal with
      | |- context [type_text_fallback env text e2 ?x] =>
          destruct (type_text_fallback_run text e2 x)
            as (fb & w' & Hfb & Hfbtr & Hfell & Hfbclip)
      end.
      exists (fb ++ [EvLog ERROR (MsgTypeError e2);
                     EvHotkey ["ctrl"; "v"] (Fails e2);
                     EvSleep 200; EvCopy text (Done tt)]), w'.
      rewrite Hfb. split; [reflexivity |].
      split; [| split; [exact Htog | right; left]].
      * rewrite Hfbtr. simpl. rewrite Htr, <- app_assoc. reflexivity.
      * exists e2, fb. repeat split; auto.
  - destruct (type_text_fallback_run text e1
                (advance (Z.of_nat n1) (emit (EvCopy text (Fails e1)) w1)))
      as (fb & w' & Hfb & Hfbtr & Hfell & Hfbclip).
    exists (fb ++ [EvLog ERROR (MsgTypeError e1); EvCopy text (Fails e1)]), w'.
    rewrite Hfb. split; [reflexivity |].
    split; [| split; [exact Htog | right; right]].
    + rewrite Hfbtr. simpl. rewrite Htr, <- app_assoc. reflexivity.
    + exists e1, fb. repeat split; auto.
      rewrite Hfbclip. simpl. exact Hclip.
Qed.


(** Events that are no press of Shift leave the input mode alone. *)
Lemma input_mode_app (start : InputMode) (evs rest : list Event) :
  existsb is_shift_press evs = false ->
  input_mode start (evs ++ rest) = input_mode start rest.
Proof.
  induction evs as [|ev evs IH]; simpl; [reflexivity |].
  intros H. apply orb_false_iff in H. destruct H as [H1 H2].
  rewrite H1. now apply IH.
Qed.

(** C8. [type_text_safely] first presses Shift, and 0.2 s later Shift
    again; then it copies [text] to the clipboard, waits 0.2 s and sends
    Ctrl+V; when the copy or the paste raises it logs the error and falls
    back to writing [text] key by key with a 0.1 s interval.  Whenever
    the copy succeeded the clipboard holds [text] when the call returns:
    it is not restored.  The two presses do not force the input method
    to English: when both are delivered, which is when the method logs
    that it switched to English, the mode is the one the call started
    in; when only the first is delivered the mode is the other one; when
    the first raises the mode is untouched.  Nothing after the presses
    changes the mode. *)
Theorem type_text_safely_paths (text : string) (w : World) :
  exists eng evs w',
    type_text_safely env text w = (Val tt, w') /\
    trace w' = evs ++ eng ++ trace w /\
    toggled eng /\
    (forall start : InputMode,
       input_mode start (trace w') = input_mode start (eng ++ trace w) /\
       input_mode start (eng ++ trace w) =
       match eng with
       | [EvLog INFO MsgEnglish; _; _; _] => input_mode start (trace w)
       | [_; _; _; _] => switch (input_mode start (trace w))
       | _ => input_mode start (trace w)
       end) /\
    ((evs = [EvLog INFO (MsgTyped text); EvHotkey ["ctrl"; "v"] (Done tt);
             EvSleep 200; EvCopy text (Done tt)] /\
      clipboard w' = Some text) \/
     (exists e fb,
        fell_back text fb /\
        evs = fb ++ [EvLog ERROR (MsgTypeError e);
                     EvHotkey ["ctrl"; "v"] (Fails e);
                     EvSleep 200; EvCopy text (Done tt)] /\
        clipboard w' = Some text) \/
     (exists e fb,
        fell_back text fb /\
        evs = fb ++ [EvLog ERROR (MsgTypeError e); EvCopy text (Fails e)] /\
        clipboard w' = clipboard w)).
Proof.
  destruct (type_text_safely_run text w)
    as (eng & evs & w' & Hrun & Htr & Htog & Hcases).
  exists eng, evs, w'.
  split; [exact Hrun |]. split; [exact Htr |]. split; [exact Htog |].
  split; [| exact Hcases].
  intros start. split.
  - rewrite Htr. apply input_mode_app.
    destruct Hcases as [[-> _] | [(e & fb & Hfb & -> & _)
                                 | (e & fb & Hfb & -> & _)]];
      [reflexivity | |];
      destruct Hfb as [-> | (e2 & ->)]; reflexivity.
  - destruct Htog as [-> | [(e & ->) | (e & ->)]]; simpl;
      now destruct (input_mode start (trace w)).
Qed.

End TextEntry.

(** C8, on a system whose input method is in its Chinese mode, every
    call succeeding: [ensure_english_input] presses Shift twice and logs
    that it switched to English, and the mode is Chinese still; it is
    Chinese when the text is pasted, and also when, the clipboard out of
    reach, the text is written key by key. *)
Example type_text_in_chinese_mode :
  let env := scripted_env all_files blank_screen zero_entropy in
  let r0 := ensure_english_input env w_init in
  let r := type_text_safely env "a@b.c" w_init in
  let r' := type_text_safely (without_clipboard env) "a@b.c" w_init in
  (fst r0 = Val tt /\
   List.rev (trace (snd r0)) =
     [EvKey "shift" (Done tt); EvSleep 200; EvKey "shift" (Done tt);
      EvLog INFO MsgEnglish] /\
   input_mode Chinese (trace (snd r0)) = Chinese) /\
  (fst r = Val tt /\
   List.rev (trace (snd r)) =
     [EvKey "shift" (Done tt); EvSleep 200; EvKey "shift" (Done tt);
      EvLog INFO MsgEnglish; EvCopy "a@b.c" (Done tt); EvSleep 200;
      EvHotkey ["ctrl"; "v"] (Done tt); EvLog INFO (MsgTyped "a@b.c")] /\
   input_mode Chinese (trace (snd r)) = Chinese) /\
  (fst r' = Val tt /\
   List.rev (trace (snd r')) =
     [EvKey "shift" (Done tt); EvSleep 200; EvKey "shift" (Done tt);
      EvLog INFO MsgEnglish; EvCopy "a@b.c" (Fails PyperclipException);
      EvLog ERROR (MsgTypeError PyperclipException);
      EvWrite "a@b.c" 100 (Done tt);
      EvLog INFO (MsgTypedFallback "a@b.c")] /\
   input_mode Chinese (trace (snd r')) = Chinese).
Proof. vm_compute. repeat split; reflexivity. Qed.

(** ** Locating and clicking *)

Section Clicking.

Variable env : Env.
Variable dir : string.

Local Abbreviation self := (ImageAutomation_init dir).

Lemma locate_inv path conf region w a w' :
  locate env path conf region w = (Val a, w') ->
  w' = advance (Z.of_nat (snd (locateCenterOnScreen env w path conf region)))
               (emit (EvLocate path conf region (Done a)) w) /\
  fst (locateCenterOnScreen env w path conf region) = Done a.
Proof.
  unfold locate. rewrite call_run.
  destruct (fst (locateCenterOnScreen env w path conf region)) as [a0|e];
    intros H; inversion H; subst; auto.
Qed.

(** A retry that returns found its image in the match it just made. *)
Lemma locate_attempt_return name path region retry w v w' :
  locate_attempt env self name path region retry w = (Val (Return v), w') ->
  exists p rest,
    v = Some p /\
    trace w' = EvLog INFO (MsgFound name p)
               :: EvLocate path (7 # 10) region (Done (Some p)) :: rest.
Proof.
  unfold locate_attempt, try_. intros H.
  match type of H with
  | context [match ?m w with _ => _ end] =>
      destruct (m w) as [[r|e| |] w1] eqn:E
  end; try discriminate.
  - inversion H; subst; clear H.
    inv_bind E. inv_bind E. apply locate_inv in Hrun0.
    destruct Hrun0 as [-> Hout]. destruct a0 as [p|]; [| discriminate].
    inv_bind E. inversion Hrun0; subst. inversion E; subst.
    exists p. eexists. split; [reflexivity |]. reflexivity.
  - inv_bind H.
Qed.

Lemma poll_cycle_return dismiss name path region w v w' :
  poll_cycle env self dismiss name path region w = (Val (Return v), w') ->
  exists p rest,
    v = Some p /\
    trace w' = EvLog INFO (MsgFound name p)
               :: EvLocate path (7 # 10) region (Done (Some p)) :: rest.
Proof.
  unfold poll_cycle. intros H. inv_bind H. destruct a as [|v0].
  - inv_bind H; try (inv_bind H); try discriminate.
  - inversion H; subst.
    eapply (for_each_return _ _
              (fun v w' =>
                 exists p rest,
                   v = Some p /\
                   trace w' = EvLog INFO (MsgFound name p)
                     :: EvLocate path (7 # 10) region (Done (Some p)) :: rest));
      [| exact Hrun].
    intros x w1 v1 w2. apply locate_attempt_return.
Qed.

(** The coordinate [wait_and_find_image] returns is the one its last
    action, a match of the image asked for, found on the screen. *)
Lemma wait_body_found click_image fuel name timeout region w p w' :
  wait_body env self click_image fuel name timeout region w
    = (Val (Some p), w') ->
  exists rest,
    trace w' = EvLog INFO (MsgFound name p)
               :: EvLocate (_get_image_path env self name) (7 # 10) region
                           (Done (Some p)) :: rest.
Proof.
  unfold wait_body. intros H. inv_bind H.
  destruct (negb a).
  - inv_bind H; try discriminate.
  - inv_bind H. inv_bind H. inv_bind H. destruct a2 as [|v].
    + inv_bind H; try discriminate.
    + inversion H; subst.
      assert (G : exists p0 rest,
                 Some p = Some p0 /\
                 trace w' = EvLog INFO (MsgFound name p0)
                   :: EvLocate (_get_image_path env self name) (7 # 10)
                        region (Done (Some p0)) :: rest).
      { eapply (while_return _ _ _
                  (fun v w' =>
                     exists p0 rest,
                       v = Some p0 /\
                       trace w' = EvLog INFO (MsgFound name p0)
                         :: EvLocate (_get_image_path env self name) (7 # 10)
                              region (Done (Some p0)) :: rest));
          [| | exact Hrun2].
        - intros w4 v w5. apply poll_cycle_return.
        - intros w4 c w5 Hc. unfold bind, time_time, ret in Hc.
          now inversion Hc. }
      destruct G as (p0 & rest & Hp & Htr). inversion Hp; subst.
      now exists rest.
Qed.

Lemma wait_found depth fuel name timeout region w p w' :
  wait_and_find_image env self depth fuel name timeout region w
    = (Val (Some p), w') ->
  exists rest,
    trace w' = EvLog INFO (MsgFound name p)
               :: EvLocate (_get_image_path env self name) (7 # 10) region
                           (Done (Some p)) :: rest.
Proof.
  destruct depth as [|d]; simpl; [discriminate |]. apply wait_body_found.
Qed.

Lemma offset_x_bounds w : -5 <= offset_x env w <= 5.
Proof.
  unfold offset_x.
  pose proof (Z.mod_pos_bound (Z.of_nat (entropy env (rng w))) (5 - -5 + 1)
                ltac:(lia)).
  lia.
Qed.

Lemma offset_y_bounds w : -5 <= offset_y env w <= 5.
Proof.
  unfold offset_y.
  pose proof (Z.mod_pos_bound (Z.of_nat (entropy env (S (rng w))))
                (5 - -5 + 1) ltac:(lia)).
  lia.
Qed.

(** What [dispatch_click] does, by the outcome of the click. *)
Lemma dispatch_click_run name attempt x y w :
  let cx := x + offset_x env w in
  let cy := y + offset_y env w in
  let w2 := drawn 2 w in
  let res := fst (pyautogui_click env w2 cx cy) in
  let w3 := advance (Z.of_nat (snd (pyautogui_click env w2 cx cy)))
                    (emit (EvClick cx cy res) w2) in
  dispatch_click env self name attempt (x, y) w =
  match res with
  | Done _ => (Val (Return true), emit (EvLog INFO (MsgClicked name cx cy)) w3)
  | Fails e =>
      (Val (if (attempt =? 2)%nat then Return false else Next),
       emit (EvLog ERROR (MsgClickError name e)) w3)
  end.
Proof.
  cbv zeta.
  unfold dispatch_click, randint, random_raw, click, try_, bind, ret.
  cbv beta iota.
  change (use_entropy (use_entropy w)) with (drawn 2 w).
  change (rng (use_entropy w)) with (S (rng w)).
  change (-5 + Z.of_nat (entropy env (rng w)) mod (5 - -5 + 1))
    with (offset_x env w).
  change (-5 + Z.of_nat (entropy env (S (rng w))) mod (5 - -5 + 1))
    with (offset_y env w).
  rewrite call_run.
  destruct (pyautogui_click env (drawn 2 w) (x + offset_x env w)
              (y + offset_y env w)) as [[[]|e] n]; cbn [fst snd];
    [reflexivity |].
  unfold log. cbn [retry_count ImageAutomation_init Nat.sub].
  destruct (attempt =? 2)%nat; reflexivity.
Qed.

Lemma dispatch_click_trace name attempt x y w :
  exists res lg,
    trace (snd (dispatch_click env self name attempt (x, y) w)) =
      lg :: EvClick (x + offset_x env w) (y + offset_y env w) res :: trace w.
Proof.
  rewrite dispatch_click_run. cbv zeta.
  destruct (fst (pyautogui_click env (drawn 2 w) (x + offset_x env w)
                   (y + offset_y env w))) as [[]|e];
    eexists; eexists; reflexivity.
Qed.

(** A click that reports success was dispatched on the coordinate the
    wait just returned, moved by the two offsets. *)
Lemma click_attempt_true depth fuel name timeout region attempt w v w' :
  click_attempt env self (wait_and_find_image env self depth fuel)
    name timeout region attempt w = (Val (Return v), w') ->
  v = true ->
  exists px py dx dy rest,
    trace w' =
      EvLog INFO (MsgClicked name (px + dx) (py + dy))
      :: EvClick (px + dx) (py + dy) (Done tt)
      :: EvLog INFO (MsgFound name (px, py))
      :: EvLocate (_get_image_path env self name) (7 # 10) region
                  (Done (Some (px, py)))
      :: rest /\
    -5 <= dx <= 5 /\ -5 <= dy <= 5.
Proof.
  unfold click_attempt. intros H Hv. inv_bind H. inv_bind H.
  destruct a0 as [[px py]|]; [| discriminate].
  apply wait_found in Hrun0. destruct Hrun0 as (rest & Htr).
  rewrite dispatch_click_run in H. cbv zeta in H.
  destruct (fst (pyautogui_click env (drawn 2 w1) (px + offset_x env w1)
                   (py + offset_y env w1))) as [[]|e].
  - inversion H; subst.
    exists px, py, (offset_x env w1), (offset_y env w1), rest.
    split; [| split; [apply offset_x_bounds | apply offset_y_bounds]].
    simpl. now rewrite Htr.
  - inversion H; subst. destruct (attempt =? 2)%nat; discriminate.
Qed.

(** A [true] from [click_image_with_offset] comes from an attempt that
    located the image and whose click was dispatched without error. *)
Lemma click_image_true depth fuel name timeout region w w' :
  click_image_with_offset env self depth fuel name timeout region w
    = (Val true, w') ->
  exists px py dx dy rest,
    trace w' =
      EvLog INFO (MsgClicked name (px + dx) (py + dy))
      :: EvClick (px + dx) (py + dy) (Done tt)
      :: EvLog INFO (MsgFound name (px, py))
      :: EvLocate (_get_image_path env self name) (7 # 10) region
                  (Done (Some (px, py)))
      :: rest /\
    -5 <= dx <= 5 /\ -5 <= dy <= 5.
Proof.
  intros H. destruct depth as [|d]; [discriminate |].
  simpl in H. unfold click_body in H. inv_bind H.
  destruct a as [|v].
  - inv_bind H; try discriminate.
  - inversion H; subst.
    eapply (for_each_return _ _
              (fun v w' =>
                 v = true ->
                 exists px py dx dy rest,
                   trace w' =
                     EvLog INFO (MsgClicked name (px + dx) (py + dy))
                     :: EvClick (px + dx) (py + dy) (Done tt)
                     :: EvLog INFO (MsgFound name (px, py))
                     :: EvLocate (_get_image_path env self name) (7 # 10)
                                 region (Done (Some (px, py)))
                     :: rest /\
                   -5 <= dx <= 5 /\ -5 <= dy <= 5));
      [| exact Hrun | reflexivity].
    intros a w1 v w2. apply click_attempt_true.
Qed.

End Clicking.

(** ** Every click follows a match *)

Section Keeping.

Context {A B : Type}.
Variable P : list Event -> Prop.

Lemma keeps_ret (a : A) : keeps P (ret a).
Proof. intros w Hw. exact Hw. Qed.

Lemma keeps_bind (m : M A) (f : A -> M B) :
  keeps P m -> (forall a, keeps P (f a)) -> keeps P (bind m f).
Proof.
  intros Hm Hf w Hw. unfold bind. specialize (Hm w Hw).
  destruct (m w) as [[a|e| |] w1]; simpl in *; auto. now apply Hf.
Qed.

Lemma keeps_try (m : M A) (h : Exn -> M A) :
  keeps P m -> (forall e, keeps P (h e)) -> keeps P (try_ m h).
Proof.
  intros Hm Hh w Hw. unfold try_. specialize (Hm w Hw).
  destruct (m w) as [[a|e| |] w1]; simpl in *; auto. now apply Hh.
Qed.

End Keeping.

Section KeepingLoops.

Context {A R : Type}.
Variable P : list Event -> Prop.

Lemma keeps_for_each (xs : list A) (body : A -> M (Flow R)) :
  (forall x, keeps P (body x)) -> keeps P (for_each xs body).
Proof.
  intros Hb. induction xs as [|x xs IH]; simpl.
  - apply keeps_ret.
  - apply keeps_bind; [apply Hb |].
    intros [|v]; [exact IH | apply keeps_ret].
Qed.

Lemma keeps_while (fuel : nat) (cond : M bool) (body : M (Flow R)) :
  keeps P cond -> keeps P body -> keeps P (while_ fuel cond body).
Proof.
  intros Hc Hb. induction fuel as [|f IH]; rewrite while_unfold.
  - apply keeps_bind; [exact Hc |].
    intros [|]; [| apply keeps_ret]. intros w Hw. exact Hw.
  - apply keeps_bind; [exact Hc |].
    intros [|]; [| apply keeps_ret].
    apply keeps_bind; [exact Hb |].
    intros [|v]; [exact IH | apply keeps_ret].
Qed.

End KeepingLoops.

Ltac keep_step :=
  match goal with
  | |- keeps _ (bind _ _) => apply keeps_bind; [| intros ?]
  | |- keeps _ (try_ _ _) => apply keeps_try; [| intros ?]
  | |- keeps _ (for_each _ _) => apply keeps_for_each; intros ?
  | |- keeps _ (while_ _ _ _) => apply keeps_while
  | |- keeps _ (ret _) => apply keeps_ret
  | |- keeps _ (if ?c then _ else _) => destruct c
  | |- keeps _ (match ?x with _ => _ end) => destruct x
  end.

Create HintDb keep discriminated.

Section ClickInvariant.

Variable env : Env.
Variable dir : string.

Local Abbreviation self := (ImageAutomation_init dir).
Local Abbreviation good := (clicks_on_found env self).

Lemma keeps_log lvl msg : keeps good (log lvl msg).
Proof. intros w Hw. exact Hw. Qed.

Lemma keeps_time_time : keeps good time_time.
Proof. intros w Hw. exact Hw. Qed.

Lemma keeps_exists path : keeps good (exists_ env path).
Proof. intros w Hw. exact Hw. Qed.

Lemma keeps_sleep ms : keeps good (sleep ms).
Proof. intros w Hw. unfold sleep. now destruct (ms <? 0). Qed.

Lemma keeps_locate path conf region : keeps good (locate env path conf region).
Proof. intros w Hw. unfold locate. rewrite call_run. exact Hw. Qed.

Lemma keeps_randint a b : keeps good (randint env a b).
Proof. intros w Hw. exact Hw. Qed.

#[local] Hint Resolve keeps_log keeps_time_time keeps_exists keeps_sleep
  keeps_locate keeps_randint : keep.

Ltac keep_auto := repeat (first [ solve [auto with keep] | keep_step ]).

Lemma keeps_locate_attempt name path region retry :
  keeps good (locate_attempt env self name path region retry).
Proof. unfold locate_attempt. keep_auto. Qed.

Lemma keeps_interrupt_check dismiss name :
  keeps good dismiss -> keeps good (interrupt_check env self dismiss name).
Proof. intros Hd. unfold interrupt_check. keep_auto. Qed.

Lemma keeps_poll_cycle dismiss name path region :
  keeps good dismiss ->
  keeps good (poll_cycle env self dismiss name path region).
Proof.
  intros Hd. unfold poll_cycle.
  apply keeps_bind;
    [apply keeps_for_each; intros x; apply keeps_locate_attempt |].
  intros [|v]; [| apply keeps_ret].
  apply keeps_bind; [now apply keeps_interrupt_check |]. intros _. keep_auto.
Qed.

Lemma keeps_wait_body click_image fuel name timeout region :
  (forall n t r, keeps good (click_image n t r)) ->
  keeps good (wait_body env self click_image fuel name timeout region).
Proof.
  intros Hc. unfold wait_body. cbv zeta.
  apply keeps_bind; [apply keeps_exists |]. intros present.
  destruct (negb present); [keep_auto |].
  apply keeps_bind; [apply keeps_log |]. intros _.
  apply keeps_bind; [apply keeps_time_time |]. intros start.
  apply keeps_bind; [| intros [|v]; keep_auto].
  apply keeps_while; [keep_auto |].
  apply keeps_poll_cycle. apply Hc.
Qed.

(** The click an attempt dispatches lies on the match its wait just
    made. *)
Lemma keeps_click_attempt depth fuel name timeout region attempt :
  keeps good (wait_and_find_image env self depth fuel name timeout region) ->
  keeps good
    (click_attempt env self (wait_and_find_image env self depth fuel)
       name timeout region attempt).
Proof.
  intros Hwait. unfold click_attempt.
  apply keeps_bind; [keep_auto |]. intros _ w Hw.
  specialize (Hwait w Hw). unfold bind.
  destruct (wait_and_find_image env self depth fuel name timeout region w)
    as [[[[px py]|]|e| |] w1] eqn:E; cbn [fst snd] in *; auto.
  apply wait_found in E. destruct E as (rest & Htr).
  rewrite dispatch_click_run. cbv zeta.
  pose proof (offset_x_bounds env w1) as Bx.
  pose proof (offset_y_bounds env w1) as By.
  destruct (fst (pyautogui_click env (drawn 2 w1) (px + offset_x env w1)
                   (py + offset_y env w1))) as [[]|e];
    cbn [snd trace emit advance drawn clicks_on_found];
    rewrite Htr in Hwait |- *; cbn [clicks_on_found];
    (split; [| exact Hwait]); repeat split; lia.
Qed.

Lemma keeps_click_body depth fuel name timeout region :
  keeps good (wait_and_find_image env self depth fuel name timeout region) ->
  keeps good
    (click_body env self (wait_and_find_image env self depth fuel)
       name timeout region).
Proof.
  intros Hwait. unfold click_body.
  apply keeps_bind;
    [apply keeps_for_each; intros x; now apply keeps_click_attempt |].
  intros [|v]; keep_auto.
Qed.

Lemma keeps_wait_click depth :
  (forall fuel name timeout region,
     keeps good (wait_and_find_image env self depth fuel name timeout region))
  /\
  (forall fuel name timeout region,
     keeps good
       (click_image_with_offset env self depth fuel name timeout region)).
Proof.
  induction depth as [|d [IHw IHc]].
  - split; intros fuel name timeout region w Hw; exact Hw.
  - split; intros fuel name timeout region; simpl.
    + apply keeps_wait_body. intros n t r. apply IHc.
    + apply keeps_click_body. apply IHw.
Qed.

End ClickInvariant.

Section FirstMatch.

Variable env : Env.
Variable dir : string.

Local Abbreviation self := (ImageAutomation_init dir).

(** A wait whose first match finds the template returns its centre at
    once. *)
Lemma wait_first_match d fuel name timeout region w p :
  os_path_exists env w (_get_image_path env self name) = true ->
  0 < effective_timeout timeout ->
  let w1 := emit (EvLog INFO (MsgWaiting name)) w in
  let scan := locateCenterOnScreen env w1 (_get_image_path env self name)
                (7 # 10) region in
  fst scan = Done (Some p) ->
  wait_and_find_image env self (S d) (S fuel) name timeout region w =
  (Val (Some p),
   emit (EvLog INFO (MsgFound name p))
     (advance (Z.of_nat (snd scan))
        (emit (EvLocate (_get_image_path env self name) (7 # 10) region
                 (Done (Some p))) w1))).
Proof.
  intros Hex Ht w1 scan Hs. subst w1 scan.
  cbn [wait_and_find_image]. unfold wait_body.
  unfold bind at 1. unfold exists_ at 1. rewrite Hex. cbn [negb].
  unfold bind at 1. unfold log at 1.
  unfold bind at 1. unfold time_time at 1.
  rewrite while_unfold.
  unfold bind at 1. unfold bind at 1. unfold bind at 1.
  unfold time_time at 1. unfold ret at 1.
  replace (now (emit (EvLog INFO (MsgWaiting name)) w)
           - now (emit (EvLog INFO (MsgWaiting name)) w)
           <? match timeout with
              | Some t => t
              | None => max_wait_time self
              end) with true.
  2:{ symmetry. apply Z.ltb_lt. rewrite Z.sub_diag.
      destruct timeout; exact Ht. }
  unfold poll_cycle. cbn [retry_count ImageAutomation_init seq for_each].
  unfold locate_attempt at 1. cbn [Nat.ltb Nat.leb].
  unfold try_, bind, locate, ret, log.
  rewrite call_run. cbn [confidence ImageAutomation_init].
  rewrite Hs. reflexivity.
Qed.

End FirstMatch.

Section Dispatch.

Variable env : Env.
Variable dir : string.

Local Abbreviation self := (ImageAutomation_init dir).

(** What [click_image_with_offset] does once its first wait has located
    the image at [(x, y)]: it dispatches one click on that centre moved
    by the two offsets it draws, and returns [true] when the click call
    returns; when the click call raises, the raised click is in the
    trace and the method goes on to its next attempt. *)
Lemma click_dispatches d fuel name timeout region w x y w1 :
  wait_and_find_image env self d fuel name timeout region w
    = (Val (Some (x, y)), w1) ->
  let cx := x + offset_x env w1 in
  let cy := y + offset_y env w1 in
  let res := fst (pyautogui_click env (drawn 2 w1) cx cy) in
  let w3 := advance (Z.of_nat (snd (pyautogui_click env (drawn 2 w1) cx cy)))
                    (emit (EvClick cx cy res) (drawn 2 w1)) in
  match res with
  | Done _ =>
      click_image_with_offset env self (S d) fuel name timeout region w
      = (Val true, emit (EvLog INFO (MsgClicked name cx cy)) w3)
  | Fails e =>
      exists evs,
        trace (snd (click_image_with_offset env self (S d) fuel name timeout
                      region w))
        = evs ++ EvLog ERROR (MsgClickError name e)
              :: EvClick cx cy (Fails e) :: trace w1
  end.
Proof.
  intros H. cbv zeta.
  assert (E0 : click_attempt env self (wait_and_find_image env self d fuel)
                 name timeout region 0 w
               = dispatch_click env self name 0 (x, y) w1).
  { unfold click_attempt. cbn [Nat.ltb Nat.leb]. rewrite bind_ret_l.
    now rewrite (bind_val _ _ _ _ _ H). }
  rewrite dispatch_click_run in E0. cbv zeta in E0.
  change (click_image_with_offset env self (S d) fuel name timeout region)
    with (click_body env self (wait_and_find_image env self d fuel)
            name timeout region).
  unfold click_body.
  cbn [retry_count ImageAutomation_init seq for_each].
  destruct (fst (pyautogui_click env (drawn 2 w1) (x + offset_x env w1)
                   (y + offset_y env w1))) as [[]|e].
  - unfold bind. now rewrite E0.
  - cbn [Nat.eqb] in E0. rewrite bind_assoc.
    rewrite (bind_val _ _ _ _ _ E0).
    match goal with
    | |- exists evs, trace (snd (?m ?w4)) = _ =>
        assert (Hx : extends m)
    end.
    { repeat first [ solve [auto with run]
                   | apply extends_click_attempt; apply extends_wait
                   | run_step ]. }
    match goal with
    | |- exists evs, trace (snd (?m ?w4)) = _ =>
        destruct (Hx w4) as [_ (evs & Hev)]
    end.
    exists evs. rewrite Hev. reflexivity.
Qed.

End Dispatch.

(** C7. For every successful locate inside [click_image_with_offset]
    the click that is dispatched differs from the located centre by at
    most 5 pixels on each axis, and both ends, -5 and +5, are reached.
    - Every click in the trace of a run of the method, its nested
      clicks on the popup included, lies directly on the found line of
      a successful match of a template file and within 5 pixels of the
      centre that match reported; this holds for clicks that raise
      too.
    - When the first wait of the method locates the image at [(x, y)],
      the method dispatches a click on [(x + dx, y + dy)], where [dx]
      and [dy] are the two offsets drawn with [randint(-5, 5)]; it
      returns [True] with that click last when the click call returns,
      and when the click call raises the raised click is in the trace.
    - The same in each of the three attempts of the method: when the
      wait of an attempt, after the warning and the 1 s pause of a
      retry, locates the image at [(x, y)], the attempt dispatches one
      click on [(x + dx, y + dy)]; it ends the method with [True] when
      the click call returns, and when the click call raises the
      method goes on to its next attempt, or returns [False] from the
      third.
    - For every pair of offsets between -5 and 5, the corners included,
      there is a state of the random source with which the method,
      run on a screen that shows the image at [(x, y)], clicks on
      [(x + dx, y + dy)] and returns [True].
    - Whenever the method returns [True], its last located centre and
      the click that followed differ by at most 5 pixels on each
      axis. *)
Theorem click_offset_within_5 (env : Env) (dir : string) (name : string)
    (w : World) :
  (forall depth fuel timeout region,
     clicks_on_found env (ImageAutomation_init dir) (trace w) ->
     clicks_on_found env (ImageAutomation_init dir)
       (trace (snd (click_image_with_offset env (ImageAutomation_init dir)
                      depth fuel name timeout region w)))) /\
  (forall d fuel timeout region x y w1,
     wait_and_find_image env (ImageAutomation_init dir) d fuel name timeout
       region w = (Val (Some (x, y)), w1) ->
     let cx := x + offset_x env w1 in
     let cy := y + offset_y env w1 in
     let res := fst (pyautogui_click env (drawn 2 w1) cx cy) in
     let w3 := advance
                 (Z.of_nat (snd (pyautogui_click env (drawn 2 w1) cx cy)))
                 (emit (EvClick cx cy res) (drawn 2 w1)) in
     -5 <= cx - x <= 5 /\ -5 <= cy - y <= 5 /\
     match res with
     | Done _ =>
         click_image_with_offset env (ImageAutomation_init dir) (S d) fuel
           name timeout region w
         = (Val true, emit (EvLog INFO (MsgClicked name cx cy)) w3)
     | Fails e =>
         exists evs,
           trace (snd (click_image_with_offset env (ImageAutomation_init dir)
                         (S d) fuel name timeout region w))
           = evs ++ EvLog ERROR (MsgClickError name e)
                 :: EvClick cx cy (Fails e) :: trace w1
     end) /\
  (forall d fuel timeout region attempt w0 x y w1,
     bind (if (0 <? attempt)%nat
           then bind (log WARNING (MsgClickAttempt (attempt + 1) name))
                  (fun _ => sleep 1000)
           else ret tt)
       (fun _ => wait_and_find_image env (ImageAutomation_init dir) d fuel
                   name timeout region) w0
     = (Val (Some (x, y)), w1) ->
     let cx := x + offset_x env w1 in
     let cy := y + offset_y env w1 in
     let res := fst (pyautogui_click env (drawn 2 w1) cx cy) in
     let w3 := advance
                 (Z.of_nat (snd (pyautogui_click env (drawn 2 w1) cx cy)))
                 (emit (EvClick cx cy res) (drawn 2 w1)) in
     click_attempt env (ImageAutomation_init dir)
       (wait_and_find_image env (ImageAutomation_init dir) d fuel)
       name timeout region attempt w0 =
     match res with
     | Done _ =>
         (Val (Return true), emit (EvLog INFO (MsgClicked name cx cy)) w3)
     | Fails e =>
         (Val (if (attempt =? 2)%nat then Return false else Next),
          emit (EvLog ERROR (MsgClickError name e)) w3)
     end) /\
  (forall dx dy x y fuel region,
     -5 <= dx <= 5 -> -5 <= dy <= 5 ->
     let path := _get_image_path env (ImageAutomation_init dir) name in
     let w1 := emit (EvLog INFO (MsgWaiting name)) w in
     os_path_exists env w path = true ->
     fst (locateCenterOnScreen env w1 path (7 # 10) region)
       = Done (Some (x, y)) ->
     (forall w2 cx cy, fst (pyautogui_click env w2 cx cy) = Done tt) ->
     exists ent w',
       click_image_with_offset (with_entropy env ent)
         (ImageAutomation_init dir) 2 (S fuel) name None region w
       = (Val true, w') /\
       trace w' =
         EvLog INFO (MsgClicked name (x + dx) (y + dy))
         :: EvClick (x + dx) (y + dy) (Done tt)
         :: EvLog INFO (MsgFound name (x, y))
         :: EvLocate path (7 # 10) region (Done (Some (x, y)))
         :: trace w1) /\
  (forall depth fuel timeout region w',
     click_image_with_offset env (ImageAutomation_init dir) depth fuel name
       timeout region w = (Val true, w') ->
     exists px py dx dy rest,
       trace w' =
         EvLog INFO (MsgClicked name (px + dx) (py + dy))
         :: EvClick (px + dx) (py + dy) (Done tt)
         :: EvLog INFO (MsgFound name (px, py))
         :: EvLocate (_get_image_path env (ImageAutomation_init dir) name)
                     (7 # 10) region (Done (Some (px, py)))
         :: rest /\
       -5 <= dx <= 5 /\ -5 <= dy <= 5).
Proof.
  split; [| split; [| split; [| split]]].
  - intros depth fuel timeout region Hw.
    now apply (proj2 (keeps_wait_click env dir depth)).
  - intros d fuel timeout region x y w1 H. cbv zeta.
    pose proof (offset_x_bounds env w1). pose proof (offset_y_bounds env w1).
    split; [lia |]. split; [lia |].
    exact (click_dispatches env dir d fuel name timeout region w x y w1 H).
  - intros d fuel timeout region attempt w0 x y w1 H. cbv zeta.
    unfold click_attempt. rewrite <- bind_assoc.
    rewrite (bind_val _ _ _ _ _ H).
    exact (dispatch_click_run env dir name attempt x y w1).
  - intros dx dy x y fuel region Hdx Hdy path w1 Hex Hloc Hclick.
    set (ent := fun n => if (n =? rng w)%nat then Z.to_nat (dx + 5)
                         else Z.to_nat (dy + 5)).
    set (env' := with_entropy env ent).
    pose proof (wait_first_match env' dir 0 fuel name None region w (x, y)
                  Hex ltac:(reflexivity) Hloc) as Hw.
    pose proof (click_dispatches env' dir 1 (S fuel) name None region w x y
                  _ Hw) as Hc.
    cbv zeta in Hc.
    assert (Ox : forall w0, rng w0 = rng w -> offset_x env' w0 = dx).
    { intros w0 E. unfold offset_x, env', ent. cbn [entropy with_entropy].
      rewrite E, Nat.eqb_refl, Z2Nat.id by lia.
      rewrite Z.mod_small by lia. lia. }
    assert (Oy : forall w0, rng w0 = rng w -> offset_y env' w0 = dy).
    { intros w0 E. unfold offset_y, env', ent. cbn [entropy with_entropy].
      rewrite E.
      replace (S (rng w) =? rng w)%nat with false
        by (symmetry; apply Nat.eqb_neq; lia).
      rewrite Z2Nat.id by lia. rewrite Z.mod_small by lia. lia. }
    rewrite Ox, Oy in Hc by reflexivity.
    change (pyautogui_click env') with (pyautogui_click env) in Hc.
    rewrite Hclick in Hc.
    exists ent. eexists. split; [exact Hc | reflexivity].
  - intros depth fuel timeout region w' H.
    eapply click_image_true; eauto.
Qed.

Lemma click_offset_within_5_witness :
  exists ent w',
    click_image_with_offset
      (with_entropy (scripted_env all_files (found_at (100, 200))
                       zero_entropy) ent)
      (ImageAutomation_init "images") 2 1 "1.png" None None w_init
    = (Val true, w') /\
    trace w' =
      [EvLog INFO (MsgClicked "1.png" (100 + -5) (200 + 5));
       EvClick (100 + -5) (200 + 5) (Done tt);
       EvLog INFO (MsgFound "1.png" (100, 200));
       EvLocate "images/1.png" (7 # 10) None (Done (Some (100, 200)));
       EvLog INFO (MsgWaiting "1.png")].
Proof.
  apply (proj1 (proj2 (proj2 (proj2
                  (click_offset_within_5
                     (scripted_env all_files (found_at (100, 200))
                        zero_entropy)
                     "images" "1.png" w_init))))
           (-5) 5 100 200 0%nat None);
    try lia; reflexivity.
Defined.


(** ** A template whose file is missing *)

(** C5. When the path a template name resolves to does not exist,
    [wait_and_find_image] returns [None] at once: it logs one error and
    does nothing else, so the clock has not moved and the screen was
    never polled, whatever the timeout. *)
Theorem wait_missing_file (env : Env) (dir : string) (depth fuel : nat)
    (name : string) (timeout : option Z) (region : option Region)
    (w : World) :
  os_path_exists env w (_get_image_path env (ImageAutomation_init dir) name)
    = false ->
  wait_and_find_image env (ImageAutomation_init dir) (S depth) fuel name
    timeout region w =
  (Val None,
   emit (EvLog ERROR
           (MsgFileMissing
              (_get_image_path env (ImageAutomation_init dir) name))) w).
Proof.
  intros H. simpl. unfold wait_body, bind, exists_. rewrite H. reflexivity.
Qed.

Lemma wait_missing_file_witness :
  wait_and_find_image (scripted_env no_files blank_screen zero_entropy)
    (ImageAutomation_init "images") 1 0 "2.png" (Some 30000) None w_init =
  (Val None,
   emit (EvLog ERROR (MsgFileMissing "images/2.png")) w_init).
Proof.
  apply (wait_missing_file (scripted_env no_files blank_screen zero_entropy)
           "images" 0 0 "2.png" (Some 30000) None w_init).
  reflexivity.
Defined.

(** ** The sequence *)

Section Sequence.

Variable env : Env.
Variable dir : string.

Local Abbreviation self := (ImageAutomation_init dir).

Lemma never_automation_steps_raised depth fuel :
  never KRaised (automation_steps env self depth fuel).
Proof.
  unfold automation_steps. cbv zeta.
  run_auto; apply never_click_raised.
Qed.

Lemma never_automation_steps k depth fuel :
  (forall name,
     never k (click_image_with_offset env self depth fuel name None None)) ->
  never k (automation_steps env self depth fuel).
Proof.
  intros H. unfold automation_steps. cbv zeta. run_auto.
Qed.

Lemma sequence_returns d fuel w :
  enough_fuel fuel None ->
  exists b w',
    perform_automation_sequence env self (4 + d) fuel w = (Val b, w').
Proof.
  intros Hf.
  assert (Hr : never KRaised
                 (perform_automation_sequence env self (4 + d) fuel)).
  { unfold perform_automation_sequence. apply never_try_raised.
    intros e. run_auto. }
  assert (Hd : never KDepth
                 (perform_automation_sequence env self (4 + d) fuel)).
  { unfold perform_automation_sequence. apply never_try.
    - apply never_automation_steps. intros name. apply never_click_depth.
    - intros e. run_auto. }
  assert (Hk : never KFuel
                 (perform_automation_sequence env self (4 + d) fuel)).
  { unfold perform_automation_sequence. apply never_try.
    - apply never_automation_steps. intros name. now apply never_click_fuel.
    - intros e. run_auto. }
  specialize (Hr w). specialize (Hd w). specialize (Hk w).
  destruct (perform_automation_sequence env self (4 + d) fuel w)
    as [[b|e| |] w']; try discriminate.
  now exists b, w'.
Qed.

Lemma jitter_val w : jitter env w = (Val tt, snd (jitter env w)).
Proof. now rewrite jitter_run. Qed.

Lemma type_text_safely_val text w :
  type_text_safely env text w = (Val tt, snd (type_text_safely env text w)).
Proof.
  pose proof (never_type_text_safely env KRaised text w).
  pose proof (never_type_text_safely env KDepth text w).
  pose proof (never_type_text_safely env KFuel text w).
  destruct (type_text_safely env text w) as [[[]|e| |] w'];
    try discriminate.
  reflexivity.
Qed.

Lemma generate_random_email_val w :
  exists e w', generate_random_email env w = (Val e, w').
Proof.
  pose proof (never_generate_random_email env KRaised w).
  pose proof (never_generate_random_email env KDepth w).
  pose proof (never_generate_random_email env KFuel w).
  destruct (generate_random_email env w) as [[e|e| |] w'];
    try discriminate.
  now exists e, w'.
Qed.

Lemma run_until_S depth fuel k w wk email :
  run_until env self depth fuel (S k) w = Some (wk, email) ->
  exists w1 em1 w2,
    run_until env self depth fuel k w = Some (w1, em1) /\
    click_image_with_offset env self depth fuel (nth k click_steps "")
      None None w1 = (Val true, w2) /\
    between_clicks env k em1 w2 = (wk, email).
Proof.
  cbn [run_until].
  destruct (run_until env self depth fuel k w) as [[w1 em1]|] eqn:E1;
    [| discriminate].
  destruct (click_image_with_offset env self depth fuel
              (nth k click_steps "") None None w1) as [[[|]|?| |] w2] eqn:E2;
    try discriminate.
  intros H. injection H as H. exists w1, em1, w2. repeat split; auto.
Qed.

Ltac seq_step :=
  cbv beta iota; cbn [negb];
  first
    [ rewrite bind_assoc
    | rewrite bind_ret_l
    | erewrite bind_val by eassumption
    | erewrite bind_val by apply jitter_val
    | erewrite bind_val by apply type_text_safely_val
    | erewrite bind_val by (unfold log; reflexivity) ].

Lemma automation_steps_false depth fuel w w' :
  automation_steps env self depth fuel w = (Val false, w') ->
  exists name w0 w1,
    click_image_with_offset env self depth fuel name None None w0
      = (Val false, w1) /\
    w' = emit (EvLog ERROR (MsgClickFailed name)) w1.
Proof.
  unfold automation_steps. cbv zeta. cbn [for_each seq]. intros H.
  repeat (cbv beta iota in H; cbn [negb] in H;
          first [ rewrite bind_assoc in H
                | rewrite bind_ret_l in H
                | match type of H with
                  | context [negb ?b] => is_var b; destruct b
                  end
                | match type of H with
                  | bind _ _ _ = _ => inv_bind H
                  end ]).
  all: try discriminate.
  all: repeat match goal with
              | Hl : log _ _ _ = _ |- _ => inversion Hl; subst; clear Hl
              end.
  all: inversion H; subst.
  all: do 3 eexists; split; [eassumption | reflexivity].
Qed.

(** C1. When the click the sequence makes as its step number [k] (from
    0, the steps being the clicks of 1, 2, 3, 4, 5, 1 and 6 in this
    order) returns failure, the sequence returns [false] from the world
    that click left, with one more error line and nothing else (same
    clock, same use of the random source, same clipboard): no later step
    runs.  For the click of template 3 this means that no address
    was generated, no text typed, and templates 4, 5, 1 and 6 never
    looked for. *)
Theorem sequence_aborts_at_failing_click (depth fuel k : nat)
    (w wk wf : World) (email : option string) :
  (k < 7)%nat ->
  run_until env self depth fuel k w = Some (wk, email) ->
  click_image_with_offset env self depth fuel (nth k click_steps "")
    None None wk = (Val false, wf) ->
  let w' := emit (EvLog ERROR (MsgClickFailed (nth k click_steps ""))) wf in
  perform_automation_sequence env self depth fuel w = (Val false, w') /\
  trace w' = EvLog ERROR (MsgClickFailed (nth k click_steps "")) :: trace wf /\
  now w' = now wf /\ rng w' = rng wf /\ clipboard w' = clipboard wf.
Proof.
  intros Hk Hrun Hfail. cbv zeta.
  split; [| repeat split].
  unfold perform_automation_sequence. apply try_val.
  unfold automation_steps. cbv zeta. cbn [for_each seq].
  change (str 1 ++ ".png")%string with "1.png".
  change (str 2 ++ ".png")%string with "2.png".
  change (str 3 ++ ".png")%string with "3.png".
  destruct k as [|[|[|[|[|[|[|k]]]]]]]; try lia;
  repeat match goal with
         | H : run_until _ _ _ _ (S _) _ = Some _ |- _ =>
             apply run_until_S in H;
             let w1 := fresh "w" in let em := fresh "em" in
             let w2 := fresh "w" in let H1 := fresh "Hclick" in
             let H2 := fresh "Hbetween" in
             destruct H as (w1 & em & w2 & H & H1 & H2)
         end;
  cbn [run_until nth click_steps] in *;
  inversion Hrun; subst; clear Hrun.
  all: repeat (cbn [between_clicks snd fst] in *;
    match goal with
    | H : (_, _) = (_, _) |- _ => inversion H; subst; clear H
    | H : context [generate_random_email env ?x] |- _ =>
        lazymatch type of H with
        | generate_random_email _ _ = _ => fail
        | _ =>
            let e := fresh "e" in
            let w' := fresh "w" in
            let He := fresh "Hgen" in
            destruct (generate_random_email_val x) as (e & w' & He);
            rewrite He in H
        end
    end).
  all: repeat seq_step; reflexivity.
Qed.

(** C9. [type_text_safely] always returns normally, whatever the
    keyboard, the clipboard and the key injection do; the sequence never
    raises and, given the call depth and fuel its waits need, returns a
    boolean; and it returns [false] only from a click step that returned
    [false], one error line after it: a text-entry step cannot make the
    sequence fail. *)
Theorem text_entry_never_aborts :
  (forall text w, fst (type_text_safely env text w) = Val tt) /\
  (forall depth fuel w,
     ends KRaised (fst (perform_automation_sequence env self depth fuel w))
     = false) /\
  (forall d fuel w,
     enough_fuel fuel None ->
     exists b w',
       perform_automation_sequence env self (4 + d) fuel w = (Val b, w')) /\
  (forall depth fuel w w',
     perform_automation_sequence env self depth fuel w = (Val false, w') ->
     exists name w0 w1,
       click_image_with_offset env self depth fuel name None None w0
         = (Val false, w1) /\
       w' = emit (EvLog ERROR (MsgClickFailed name)) w1).
Proof.
  split; [| split; [| split]].
  - intros text w. now rewrite type_text_safely_val.
  - intros depth fuel w. unfold perform_automation_sequence.
    apply never_try_raised. intros e. run_auto.
  - intros d fuel w. apply sequence_returns.
  - intros depth fuel w w' H. unfold perform_automation_sequence, try_ in H.
    pose proof (never_automation_steps_raised depth fuel w) as Hn.
    destruct (automation_steps env self depth fuel w) as [[r|e| |] ws] eqn:E;
      try discriminate.
    inversion H; subst. now apply automation_steps_false in E.
Qed.

End Sequence.

Lemma sequence_aborts_at_failing_click_witness :
  fst (perform_automation_sequence
         (scripted_env (all_but "images/3.png") (found_at (100, 200))
                       zero_entropy)
         (ImageAutomation_init "images") 4 60 w_init) = Val false.
Proof.
  edestruct (sequence_aborts_at_failing_click
               (scripted_env (all_but "images/3.png") (found_at (100, 200))
                             zero_entropy)
               "images" 4 60 2 w_init) as [H _];
    [lia | vm_compute; reflexivity | vm_compute; reflexivity |].
  rewrite H. reflexivity.
Defined.

Lemma text_entry_never_aborts_witness :
  exists name w0 w1,
    click_image_with_offset
      (scripted_env (all_but "images/3.png") (found_at (100, 200))
                    zero_entropy)
      (ImageAutomation_init "images") 4 60 name None None w0
      = (Val false, w1) /\
    snd (perform_automation_sequence
           (scripted_env (all_but "images/3.png") (found_at (100, 200))
                         zero_entropy)
           (ImageAutomation_init "images") 4 60 w_init)
    = emit (EvLog ERROR (MsgClickFailed name)) w1.
Proof.
  apply (proj2 (proj2 (proj2 (text_entry_never_aborts
                         (scripted_env (all_but "images/3.png")
                                       (found_at (100, 200)) zero_entropy)
                         "images"))) 4%nat 60%nat w_init).
  vm_compute. reflexivity.
Defined.

(** ** Interrupt handling does not nest *)

Section Nesting.

Variable env : Env.
Variable dir : string.

Local Abbreviation self := (ImageAutomation_init dir).

(** C10. The popup watch is guarded by the name of the template waited
    for.  A poll cycle for ["7.png"] itself is the retries and the poll
    sleep only, whatever [dismiss] is; so waiting for ["7.png"] opens no
    call of [click_image_with_offset] (a call-depth budget of 1 is
    enough and any larger budget gives the same run), clicking it opens
    one wait and nothing below it (budget 2), and a wait for any template
    opens at most the click that dismisses the popup and that click's own
    wait (budget 3; 4 for a click of any template): the recursion between
    the two methods stops at depth one. *)
Theorem interrupt_handling_never_nests (fuel d : nat) (timeout : option Z)
    (region : option Region) (w : World) :
  (forall dismiss path,
     poll_cycle env self dismiss INTERRUPT path region w =
     bind (for_each (seq 0 3) (locate_attempt env self INTERRUPT path region))
          (fun r => match r with
                    | Return v => ret (Return v)
                    | Next => bind (sleep 500) (fun _ => ret Next)
                    end) w) /\
  (wait_and_find_image env self (S d) fuel INTERRUPT timeout region w =
   wait_and_find_image env self 1 fuel INTERRUPT timeout region w /\
   ends KDepth
     (fst (wait_and_find_image env self 1 fuel INTERRUPT timeout region w))
   = false) /\
  (click_image_with_offset env self (S (S d)) fuel INTERRUPT timeout region w =
   click_image_with_offset env self 2 fuel INTERRUPT timeout region w /\
   ends KDepth
     (fst (click_image_with_offset env self 2 fuel INTERRUPT timeout region w))
   = false) /\
  (forall name,
     wait_and_find_image env self (3 + d) fuel name timeout region w =
     wait_and_find_image env self 3 fuel name timeout region w /\
     ends KDepth
       (fst (wait_and_find_image env self 3 fuel name timeout region w))
     = false) /\
  (forall name,
     click_image_with_offset env self (4 + d) fuel name timeout region w =
     click_image_with_offset env self 4 fuel name timeout region w /\
     ends KDepth
       (fst (click_image_with_offset env self 4 fuel name timeout region w))
     = false).
Proof.
  split; [| split; [| split; [| split]]].
  - intros dismiss path. apply poll_cycle_self.
  - split; [apply wait_self_depth |].
    apply (never_wait_self_depth env dir 0).
  - split; [apply click_self_depth |].
    apply (never_click_self_depth env dir 0).
  - intros name. split; [apply wait_depth |].
    apply (never_wait_depth env dir 0).
  - intros name. split; [apply click_depth |].
    apply (never_click_depth env dir 0).
Qed.

End Nesting.

(** ** Waiting for a template that never shows *)

Section Timeout.

Variable env : Env.
Variable dir : string.

Local Abbreviation self := (ImageAutomation_init dir).

Lemma locate_attempt_miss name path region retry w :
  never_matches env path region ->
  exists w' n,
    locate_attempt env self name path region retry w = (Val Next, w') /\
    now w' = now w + (if (0 <? retry)%nat then 500 else 0) + Z.of_nat n /\
    (instant env path region -> n = O).
Proof.
  intros Hn. unfold locate_attempt, try_, bind.
  cbn [confidence ImageAutomation_init].
  assert (Hi : forall x r n,
             locateCenterOnScreen env x path (7 # 10) region = (r, n) ->
             instant env path region -> n = O).
  { intros x r n E H. specialize (H x). now rewrite E in H. }
  destruct (0 <? retry)%nat.
  - rewrite sleep_run by lia. unfold log at 1. unfold locate. rewrite call_run.
    match goal with
    | |- context [locateCenterOnScreen env ?x path ?c region] =>
        pose proof (Hn x) as Hx;
        destruct (locateCenterOnScreen env x path c region)
          as [[[p|]|e] n] eqn:E
    end; cbn [fst snd] in *.
    + exfalso. now apply (Hx p).
    + eexists. exists n. split; [reflexivity |].
      split; [simpl; lia | eapply Hi; eauto].
    + unfold log.
      destruct (retry =? retry_count self - 1)%nat;
        (eexists; exists n; split; [reflexivity |];
         split; [simpl; lia | eapply Hi; eauto]).
  - unfold ret at 1. unfold locate. rewrite call_run.
    pose proof (Hn w) as Hx.
    destruct (locateCenterOnScreen env w path (7 # 10) region)
      as [[[p|]|e] n] eqn:E; cbn [fst snd] in *.
    + exfalso. now apply (Hx p).
    + eexists. exists n. split; [reflexivity |].
      split; [simpl; lia | eapply Hi; eauto].
    + unfold log.
      destruct (retry =? retry_count self - 1)%nat;
        (eexists; exists n; split; [reflexivity |];
         split; [simpl; lia | eapply Hi; eauto]).
Qed.

(** The three retries of a poll cycle, for a template that never
    matches: nothing is returned and the two settle delays pass. *)
Lemma retries_miss name path region w :
  never_matches env path region ->
  exists w',
    for_each (seq 0 (retry_count self))
      (locate_attempt env self name path region) w = (Val Next, w') /\
    now w + 1000 <= now w' /\
    (instant env path region -> now w' = now w + 1000).
Proof.
  intros Hn. cbn [retry_count ImageAutomation_init seq for_each].
  destruct (locate_attempt_miss name path region 0 w Hn)
    as (w1 & n1 & H1 & T1 & I1).
  destruct (locate_attempt_miss name path region 1 w1 Hn)
    as (w2 & n2 & H2 & T2 & I2).
  destruct (locate_attempt_miss name path region 2 w2 Hn)
    as (w3 & n3 & H3 & T3 & I3).
  exists w3. unfold bind. rewrite H1, H2, H3. cbn [Nat.ltb Nat.leb] in *.
  split; [reflexivity |]. split; [lia |].
  intros Hi. rewrite (I1 Hi), (I2 Hi), (I3 Hi) in *. lia.
Qed.

Lemma interrupt_check_run dismiss name region w :
  never KDepth dismiss -> never KFuel dismiss -> extends dismiss ->
  exists w',
    interrupt_check env self dismiss name w = (Val tt, w') /\
    now w <= now w' /\
    (quiet env self name region -> now w' = now w).
Proof.
  intros Hd Hf He. unfold interrupt_check.
  destruct (String.eqb_spec name INTERRUPT) as [->|Hne]; cbn [negb].
  - exists w. split; [reflexivity |]. split; [lia | reflexivity].
  - pose proof (never_interrupt_check_raised env dir dismiss name w) as Hr.
    pose proof (never_interrupt_check env dir KDepth dismiss name Hd w) as Hkd.
    pose proof (never_interrupt_check env dir KFuel dismiss name Hf w) as Hkf.
    pose proof (extends_interrupt_check env dir dismiss name He w) as Hx.
    unfold interrupt_check in Hr, Hkd, Hkf, Hx.
    destruct (String.eqb_spec name INTERRUPT) as [->|_]; [congruence |].
    cbn [negb] in *.
    match goal with
    | |- context [try_ ?m ?h w] =>
        destruct (try_ m h w) as [[[]|e| |] w'] eqn:E
    end; cbn [fst snd ends] in *; try discriminate.
    exists w'. split; [reflexivity |]. split; [apply Hx |].
    intros [_ [Heq | [Hn Hi]]]; [congruence |].
    unfold try_, bind, locate in E. rewrite call_run in E.
    cbn [confidence ImageAutomation_init] in E.
    pose proof (Hn w) as Hnw. pose proof (Hi w) as Hiw.
    destruct (locateCenterOnScreen env w (_get_image_path env self INTERRUPT)
                (7 # 10) None) as [[[p|]|e] n]; cbn [fst snd] in *.
    + exfalso. now apply (Hnw p).
    + subst n. inversion E; subst. simpl. lia.
    + subst n. inversion E; subst. simpl. lia.
Qed.

(** A poll cycle for a template that never matches: it returns nothing,
    and lasts the two settle delays and the poll interval, 1.5 s, plus
    the time of its matches and of dismissing the popup. *)
Lemma poll_cycle_miss dismiss name path region w :
  never_matches env path region ->
  never KDepth dismiss -> never KFuel dismiss -> extends dismiss ->
  exists w',
    poll_cycle env self dismiss name path region w = (Val Next, w') /\
    now w + 1500 <= now w' /\
    (instant env path region ->
     (forall w0 w1, interrupt_check env self dismiss name w0 = (Val tt, w1) ->
                    now w1 = now w0) ->
     now w' = now w + 1500).
Proof.
  intros Hn Hd Hf He. unfold poll_cycle.
  destruct (retries_miss name path region w Hn) as (w1 & H1 & T1 & I1).
  destruct (interrupt_check_run dismiss name region w1 Hd Hf He)
    as (w2 & H2 & T2 & _).
  eexists. unfold bind at 1. rewrite H1. unfold bind at 1. rewrite H2.
  unfold bind. cbn [check_interval ImageAutomation_init].
  rewrite sleep_run by lia. split; [reflexivity |].
  split; [simpl; lia |].
  intros Hi Hq. simpl. rewrite (Hq _ _ H2), (I1 Hi). lia.
Qed.

(** The polling loop for a template that never matches ends by its
    deadline check, at the first cycle boundary past the deadline. *)
Lemma wait_loop_miss dismiss name path region start timeout cond :
  (forall w, cond w = (Val (now w - start <? timeout), w)) ->
  never_matches env path region ->
  never KDepth dismiss -> never KFuel dismiss -> extends dismiss ->
  forall fuel w,
    timeout - (now w - start) <= 500 * Z.of_nat fuel ->
    exists w',
      while_ fuel cond (poll_cycle env self dismiss name path region) w
        = (Val Next, w') /\
      timeout <= now w' - start /\
      (instant env path region ->
       (forall w0 w1, interrupt_check env self dismiss name w0 = (Val tt, w1) ->
                      now w1 = now w0) ->
       now w - start < timeout + 1500 ->
       now w' - start < timeout + 1500).
Proof.
  intros Hc Hn Hd Hf He. induction fuel as [|f IH]; intros w Hrem;
    rewrite while_unfold; unfold bind at 1; rewrite Hc;
    destruct (now w - start <? timeout) eqn:E.
  - apply Z.ltb_lt in E. lia.
  - apply Z.ltb_ge in E. exists w. split; [reflexivity |]. split; [lia | auto].
  - apply Z.ltb_lt in E.
    destruct (poll_cycle_miss dismiss name path region w Hn Hd Hf He)
      as (w1 & H1 & T1 & I1).
    destruct (IH w1 ltac:(lia)) as (w' & H' & T' & I').
    exists w'. unfold bind. rewrite H1. split; [exact H' |].
    split; [exact T' |]. intros Hi Hq Hlt. apply I'; auto.
    rewrite (I1 Hi Hq). lia.
  - apply Z.ltb_ge in E. exists w. split; [reflexivity |]. split; [lia | auto].
Qed.

(** C2 (as amended). For a template whose file exists and which never
    matches, [wait_and_find_image] returns [None], not an exception, and
    not before its timeout [t] has elapsed.  The deadline is looked at
    between poll cycles only, and a cycle lasts the two settle delays of
    its retries and the poll interval, 1.5 s in all, so on a quiet
    screen the call returns less than [t] plus one poll cycle after it
    began (for [t] not negative). *)
Theorem wait_times_out (d fuel : nat) (name : string) (timeout : option Z)
    (region : option Region) (w : World) :
  os_path_exists env w (_get_image_path env self name) = true ->
  never_matches env (_get_image_path env self name) region ->
  enough_fuel fuel timeout ->
  exists w',
    wait_and_find_image env self (3 + d) fuel name timeout region w
      = (Val None, w') /\
    effective_timeout timeout <= now w' - now w /\
    (0 <= effective_timeout timeout ->
     quiet env self name region ->
     now w' - now w < effective_timeout timeout + 1500).
Proof.
  intros Hex Hn Hfuel.
  change (wait_and_find_image env self (3 + d) fuel name timeout region w)
    with (wait_body env self (click_image_with_offset env self (S (S d)) fuel)
            fuel name timeout region w).
  unfold wait_body. unfold bind at 1. unfold exists_. rewrite Hex.
  cbn [negb]. unfold bind at 1. unfold log at 1.
  unfold bind at 1. unfold time_time at 1.
  set (w0 := emit (EvLog INFO (MsgWaiting name)) w).
  set (dismiss := click_image_with_offset env self (S (S d)) fuel
                    INTERRUPT None None).
  assert (Hd : never KDepth dismiss) by apply never_click_self_depth.
  assert (Hf : never KFuel dismiss).
  { apply never_click_fuel. eapply enough_fuel_default; eauto. }
  assert (He : extends dismiss) by apply extends_click_image.
  match goal with
  | |- context [while_ fuel ?c ?b] =>
      destruct (wait_loop_miss dismiss name (_get_image_path env self name)
                  region (now w0)
                  (match timeout with
                   | Some t => t
                   | None => max_wait_time self
                   end) c (fun w => eq_refl) Hn Hd Hf He fuel w0)
        as (w1 & H1 & T1 & I1)
  end.
  { destruct Hfuel as [H30 Ht].
    destruct timeout; cbn [max_wait_time ImageAutomation_init]; lia. }
  unfold bind at 1. rewrite H1. unfold bind, log, ret.
  eexists. split; [reflexivity |].
  assert (Et : match timeout with
               | Some t => t
               | None => max_wait_time self
               end = effective_timeout timeout) by (now destruct timeout).
  rewrite Et in *. change (now w0) with (now w) in *.
  split; [simpl; lia |].
  intros Hpos [Hi Hq]. simpl. apply I1; [exact Hi | | lia].
  intros wa wb Hab.
  destruct (interrupt_check_run dismiss name region wa Hd Hf He)
    as (wc & Hc & _ & Hquiet).
  rewrite Hab in Hc. inversion Hc; subst. apply Hquiet. now split.
Qed.

End Timeout.

Lemma wait_times_out_witness :
  exists w',
    wait_and_find_image (scripted_env all_files blank_screen zero_entropy)
      (ImageAutomation_init "images") 3 60 "1.png" (Some 2000) None w_init
      = (Val None, w') /\
    2000 <= now w' - now w_init /\
    now w' - now w_init < 2000 + 1500.
Proof.
  destruct (wait_times_out (scripted_env all_files blank_screen zero_entropy)
              "images" 0 60 "1.png" (Some 2000) None w_init)
    as (w' & H1 & H2 & H3).
  - reflexivity.
  - intros w p. simpl. discriminate.
  - split; simpl; lia.
  - exists w'. split; [exact H1 |]. split; [exact H2 |].
    apply H3; [simpl; lia |].
    split; [intros w; reflexivity |].
    right. split; [intros w p; simpl; discriminate | intros w; reflexivity].
Defined.

(** The bound of one poll interval past the timeout does not hold: on a
    blank screen, with matches that take no time, a wait of 2 s for a
    template whose file exists returns [None] after 3 s, two full poll
    cycles, which is more than 2 s plus the poll interval of 0.5 s. *)
Lemma wait_overshoots_one_poll_interval :
  let env := scripted_env all_files blank_screen zero_entropy in
  let self := ImageAutomation_init "images" in
  let run := wait_and_find_image env self 3 60 "1.png" (Some 2000) None
               w_init in
  os_path_exists env w_init (_get_image_path env self "1.png") = true /\
  never_matches env (_get_image_path env self "1.png") None /\
  fst run = Val None /\
  now (snd run) - now w_init = 3000 /\
  ~ now (snd run) - now w_init <= 2000 + check_interval self.
Proof.
  cbv zeta. split; [reflexivity |]. split; [intros w p; simpl; discriminate |].
  split; [vm_compute; reflexivity |]. split; [vm_compute; reflexivity |].
  vm_compute. intros H. now apply H.
Qed.

(** ** The popup watch inside a wait *)

Section Interrupt.

Variable env : Env.
Variable dir : string.

Local Abbreviation self := (ImageAutomation_init dir).

Lemma bind_extends_trace {A B} (m : M A) (k : A -> M B) w r w1 :
  m w = (r, w1) -> (forall a, extends (k a)) ->
  exists evs, trace (snd (bind m k w)) = evs ++ trace w1.
Proof.
  intros H Hk. unfold bind. rewrite H.
  destruct r as [a|e| |]; try (now exists []).
  destruct (Hk a w1) as [_ Hev]. exact Hev.
Qed.






End Interrupt.



(** ** The retry loop of a click *)

Section Retries.

Variable env : Env.
Variable dir : string.

Local Abbreviation self := (ImageAutomation_init dir).

(** C4. [click_image_with_offset] never lets an exception out, and
    returns a boolean given the call depth and fuel its waits need.  Its
    loop makes at most three attempts: the result is the [return] of the
    first of the attempts 0, 1, 2 that returns, and [false] with an
    error line right after attempt 2 when none does.  The first attempt
    starts with the wait; each later one starts with a warning and a
    delay of 1 s.  In an attempt that located the image, a click that
    raises is logged and gives [false] in attempt 2, the last one, and a
    next attempt before; and [true] is returned only from an attempt that
    located the image and whose click was dispatched without error. *)
Theorem click_retries_bounded (d fuel : nat) (name : string)
    (timeout : option Z) (region : option Region) (w : World) :
  let wait := wait_and_find_image env self d fuel in
  let click := click_image_with_offset env self (S d) fuel name timeout region in
  let att := click_attempt env self wait name timeout region in
  ends KRaised (fst (click w)) = false /\
  (forall v w1, att 0%nat w = (Val (Return v), w1) -> click w = (Val v, w1)) /\
  (forall w1,
     att 0%nat w = (Val Next, w1) ->
     (forall v w2,
        att 1%nat w1 = (Val (Return v), w2) -> click w = (Val v, w2)) /\
     (forall w2,
        att 1%nat w1 = (Val Next, w2) ->
        (forall v w3,
           att 2%nat w2 = (Val (Return v), w3) -> click w = (Val v, w3)) /\
        (forall w3,
           att 2%nat w2 = (Val Next, w3) ->
           click w = (Val false, emit (EvLog ERROR (MsgClickFailed name)) w3)))) /\
  att 0%nat w =
    bind (wait name timeout region)
         (fun location =>
            match location with
            | Some p => dispatch_click env self name 0 p
            | None => ret Next
            end) w /\
  (forall i,
     exists evs,
       trace (snd (att (S i) w)) =
       evs ++ [EvSleep 1000; EvLog WARNING (MsgClickAttempt (S i + 1) name)]
           ++ trace w) /\
  (forall i x y wl e,
     fst (pyautogui_click env (drawn 2 wl) (x + offset_x env wl)
            (y + offset_y env wl)) = Fails e ->
     fst (dispatch_click env self name i (x, y) wl) =
       Val (if (i =? 2)%nat then Return false else Next) /\
     exists n,
       trace (snd (dispatch_click env self name i (x, y) wl)) =
       [EvLog ERROR (MsgClickError name e);
        EvClick (x + offset_x env wl) (y + offset_y env wl) (Fails e)]
       ++ trace wl /\
       now (snd (dispatch_click env self name i (x, y) wl)) =
       now wl + Z.of_nat n) /\
  (forall w',
     click w = (Val true, w') ->
     exists px py dx dy rest,
       trace w' =
         EvLog INFO (MsgClicked name (px + dx) (py + dy))
         :: EvClick (px + dx) (py + dy) (Done tt)
         :: EvLog INFO (MsgFound name (px, py))
         :: EvLocate (_get_image_path env self name) (7 # 10) region
                     (Done (Some (px, py)))
         :: rest /\
       -5 <= dx <= 5 /\ -5 <= dy <= 5) /\
  ((3 <= d)%nat -> enough_fuel fuel timeout ->
   exists b w', click w = (Val b, w')).
Proof.
  intros wait click att.
  assert (Hclick : forall x, click x =
            bind (for_each [0%nat; 1%nat; 2%nat] att)
                 (fun r => match r with
                           | Return v => ret v
                           | Next => bind (log ERROR (MsgClickFailed name))
                                          (fun _ => ret false)
                           end) x) by reflexivity.
  split; [| split; [| split; [| split; [| split; [| split; [| split]]]]]].
  - apply never_click_raised.
  - intros v w1 H. rewrite Hclick. cbn [for_each]. unfold bind.
    now rewrite H.
  - intros w1 H1. split.
    + intros v w2 H2. rewrite Hclick. cbn [for_each]. unfold bind.
      now rewrite H1, H2.
    + intros w2 H2. split.
      * intros v w3 H3. rewrite Hclick. cbn [for_each]. unfold bind.
        now rewrite H1, H2, H3.
      * intros w3 H3. rewrite Hclick. cbn [for_each]. unfold bind.
        now rewrite H1, H2, H3.
  - reflexivity.
  - intros i.
    set (w0 := advance 1000
                 (emit (EvSleep 1000)
                    (emit (EvLog WARNING (MsgClickAttempt (S i + 1) name)) w))).
    set (k := fun location : option Point =>
                match location with
                | Some p => dispatch_click env self name (S i) p
                | None => ret Next
                end).
    assert (E0 : att (S i) w = bind (wait name timeout region) k w0)
      by reflexivity.
    rewrite E0.
    destruct (wait name timeout region w0) as [r w1] eqn:E.
    destruct (bind_extends_trace (wait name timeout region) k w0 r w1 E)
      as (evs & Hev).
    { intros [p|]; [apply extends_dispatch_click | apply extends_ret]. }
    pose proof (extends_wait env dir d fuel name timeout region w0) as Hw.
    fold wait in Hw. rewrite E in Hw. destruct Hw as [_ [evs' Hev']].
    exists (evs ++ evs'). rewrite Hev. cbn [snd] in Hev'. rewrite Hev'.
    rewrite <- app_assoc. reflexivity.
  - intros i x y wl e He. rewrite dispatch_click_run. cbv zeta. rewrite He.
    split; [reflexivity |]. eexists. split; reflexivity.
  - intros w' H. eapply click_image_true; eauto.
  - intros Hd Hf. unfold click.
    replace (S d) with (4 + (d - 3))%nat by lia.
    now apply click_returns.
Qed.

End Retries.

Lemma click_retries_bounded_witness :
  fst (click_image_with_offset
         (scripted_env (all_but "images/2.png") (found_at (100, 200))
                       zero_entropy)
         (ImageAutomation_init "images") 2 0 "2.png" None None w_init)
  = Val false.
Proof.
  destruct (click_retries_bounded
              (scripted_env (all_but "images/2.png") (found_at (100, 200))
                            zero_entropy)
              "images" 1 0 "2.png" None None w_init) as (_ & _ & H & _).
  edestruct H as (_ & H2); [vm_compute; reflexivity |].
  edestruct H2 as (_ & H3); [vm_compute; reflexivity |].
  erewrite H3; [reflexivity | vm_compute; reflexivity].
Defined.

(** ** A complete run *)

(** With the six templates on the screen and no popup, the sequence
    succeeds at the first attempt of every step: one address is
    generated and typed twice, and the clipboard ends holding it. *)
Example sequence_completes :
  let run := perform_automation_sequence
               (scripted_env all_files (found_at (100, 200)) zero_entropy)
               (ImageAutomation_init "images") 4 60 w_init in
  fst run = Val true /\
  clipboard (snd run) = Some "aaaaaa@163.com" /\
  List.length
    (filter (fun ev => match ev with EvCopy _ _ => true | _ => false end)
            (trace (snd run))) = 2%nat.
Proof. vm_compute. repeat split. Qed.

(** ** The format check of executable paths *)

Section RegexFacts.

Lemma lang_empty_inv s : lang ReEmpty s -> False.
Proof. intros H. inversion H. Qed.

Lemma lang_eps_inv s : lang ReEps s -> s = [].
Proof. intros H. now inversion H. Qed.

Lemma lang_class_inv p s :
  lang (ReClass p) s -> exists c, s = [c] /\ p c = true.
Proof. intros H. inversion H; subst. eauto. Qed.

Lemma lang_cat_inv r1 r2 s :
  lang (ReCat r1 r2) s ->
  exists s1 s2, s = s1 ++ s2 /\ lang r1 s1 /\ lang r2 s2.
Proof. intros H. inversion H; subst. eauto. Qed.

Lemma lang_alt_inv r1 r2 s : lang (ReAlt r1 r2) s -> lang r1 s \/ lang r2 s.
Proof. intros H. inversion H; subst; auto. Qed.

Lemma lang_cat_cons r1 r2 c s1 s2 :
  lang r1 (c :: s1) -> lang r2 s2 -> lang (ReCat r1 r2) (c :: s1 ++ s2).
Proof.
  intros H1 H2. change (c :: s1 ++ s2) with ((c :: s1) ++ s2).
  now constructor.
Qed.

Lemma lang_cat_nil_l r1 r2 s :
  lang r1 [] -> lang r2 s -> lang (ReCat r1 r2) s.
Proof.
  intros H1 H2. change s with ([] ++ s). now constructor.
Qed.

Lemma nullable_spec r : nullable r = true <-> lang r [].
Proof.
  induction r; simpl; split; intros H; try discriminate;
    try (now constructor).
  - now apply lang_empty_inv in H.
  - apply lang_class_inv in H. destruct H as (c & H & _). discriminate.
  - apply andb_true_iff in H. destruct H as [H1 H2].
    apply lang_cat_nil_l; tauto.
  - apply lang_cat_inv in H. destruct H as (s1 & s2 & E & H1 & H2).
    symmetry in E. apply app_eq_nil in E. destruct E; subst.
    apply andb_true_iff. tauto.
  - apply orb_true_iff in H. destruct H; [apply LAltL | apply LAltR]; tauto.
  - apply orb_true_iff. apply lang_alt_inv in H. tauto.
Qed.

Lemma star_cons r c s :
  lang (ReStar r) (c :: s) ->
  exists s1 s2, s = s1 ++ s2 /\ lang r (c :: s1) /\ lang (ReStar r) s2.
Proof.
  intros H. remember (ReStar r) as r0 eqn:Er. remember (c :: s) as w eqn:Ew.
  revert s Ew. induction H; intros s0 Ew; try discriminate.
  inversion Er; subst. destruct s1 as [|c1 s1]; simpl in Ew.
  - now apply IHlang2.
  - inversion Ew; subst. exists s1, s2. auto.
Qed.

Lemma deriv_spec r : forall c s, lang (deriv c r) s <-> lang r (c :: s).
Proof.
  induction r; intros c s; simpl.
  - split; intros H; now apply lang_empty_inv in H.
  - split; intros H; [now apply lang_empty_inv in H |].
    apply lang_eps_inv in H. discriminate.
  - destruct (p c) eqn:E; split; intros H.
    + apply lang_eps_inv in H. subst. now constructor.
    + apply lang_class_inv in H. destruct H as (c0 & H & _).
      inversion H; subst. constructor.
    + now apply lang_empty_inv in H.
    + apply lang_class_inv in H. destruct H as (c0 & H & Hp).
      inversion H; subst. congruence.
  - split; intros H.
    + apply lang_alt_inv in H. destruct H as [H | H].
      * apply lang_cat_inv in H. destruct H as (s1 & s2 & -> & H1 & H2).
        apply lang_cat_cons; [now apply IHr1 | assumption].
      * destruct (nullable r1) eqn:E; [| now apply lang_empty_inv in H].
        apply lang_cat_nil_l; [now apply nullable_spec | now apply IHr2].
    + apply lang_cat_inv in H. destruct H as (s1 & s2 & E & H1 & H2).
      destruct s1 as [|c1 s1]; simpl in E.
      * subst. apply LAltR. apply nullable_spec in H1. rewrite H1.
        now apply IHr2.
      * inversion E; subst. apply LAltL. constructor; [| assumption].
        now apply IHr1.
  - split; intros H.
    + apply lang_alt_inv in H.
      destruct H; [apply LAltL; now apply IHr1 | apply LAltR; now apply IHr2].
    + apply lang_alt_inv in H.
      destruct H; [apply LAltL; now apply IHr1 | apply LAltR; now apply IHr2].
  - split; intros H.
    + apply lang_cat_inv in H. destruct H as (s1 & s2 & -> & H1 & H2).
      apply IHr in H1. change (c :: s1 ++ s2) with ((c :: s1) ++ s2).
      now constructor.
    + apply star_cons in H. destruct H as (s1 & s2 & -> & H1 & H2).
      constructor; [| assumption]. now apply IHr.
Qed.

(** The matcher decides the language. *)
Lemma matches_spec s : forall r, matches r s = true <-> lang r s.
Proof.
  induction s as [|c s IH]; intros r; simpl.
  - apply nullable_spec.
  - rewrite IH. apply deriv_spec.
Qed.

End RegexFacts.

Section ExePattern.

Lemma lang_char c s : lang (ReChar c) s <-> s = [c].
Proof.
  unfold ReChar. split.
  - intros H. apply lang_class_inv in H. destruct H as (c0 & -> & E).
    apply Ascii.eqb_eq in E. now subst.
  - intros ->. constructor. apply Ascii.eqb_refl.
Qed.

Lemma lang_lit l : forall s, lang (ReLit l) s <-> s = l.
Proof.
  induction l as [|c l IH]; intros s; simpl.
  - split; [apply lang_eps_inv | intros ->; constructor].
  - split.
    + intros H. apply lang_cat_inv in H.
      destruct H as (s1 & s2 & -> & H1 & H2).
      apply lang_char in H1. apply IH in H2. now subst.
    + intros ->. change (c :: l) with ([c] ++ l).
      constructor; [now apply lang_char | now apply IH].
Qed.

(** A text of [r*] is a sequence of texts of [r]. *)
Lemma lang_star_iff r s :
  lang (ReStar r) s <-> exists ss, s = List.concat ss /\ Forall (lang r) ss.
Proof.
  split.
  - intros H. remember (ReStar r) as r0 eqn:Er.
    induction H; try discriminate; inversion Er; subst.
    + now exists [].
    + destruct (IHlang2 eq_refl) as (ss & -> & Hss).
      exists (s1 :: ss). split; [reflexivity | now constructor].
  - intros (ss & -> & Hss). induction Hss; simpl; now constructor.
Qed.

Lemma lang_star_class p s :
  lang (ReStar (ReClass p)) s <-> forallb p s = true.
Proof.
  split.
  - intros H. apply lang_star_iff in H. destruct H as (ss & -> & Hss).
    induction Hss as [|x ss Hx _ IH]; [reflexivity |].
    apply lang_class_inv in Hx. destruct Hx as (c & -> & Hc).
    simpl. now rewrite Hc.
  - induction s as [|c s IH]; simpl; intros H; [constructor |].
    apply andb_true_iff in H. destruct H as [Hc Hs].
    change (c :: s) with ([c] ++ s). constructor; [now constructor | auto].
Qed.

Lemma lang_plus_class p s :
  lang (RePlus (ReClass p)) s <-> s <> [] /\ forallb p s = true.
Proof.
  unfold RePlus. split.
  - intros H. apply lang_cat_inv in H. destruct H as (s1 & s2 & -> & H1 & H2).
    apply lang_class_inv in H1. destruct H1 as (c & -> & Hc).
    apply lang_star_class in H2. simpl. rewrite Hc, H2.
    split; [discriminate | reflexivity].
  - intros [Hn H]. destruct s as [|c s]; [congruence |].
    simpl in H. apply andb_true_iff in H. destruct H as [Hc Hs].
    change (c :: s) with ([c] ++ s).
    constructor; [now constructor | now apply lang_star_class].
Qed.

Lemma lang_dir s :
  lang (ReCat (RePlus (ReClass is_name_char)) (ReChar BACKSLASH)) s <->
  exists dir, s = dir ++ [BACKSLASH] /\ is_dir_name dir.
Proof.
  split.
  - intros H. apply lang_cat_inv in H. destruct H as (s1 & s2 & -> & H1 & H2).
    apply lang_plus_class in H1. apply lang_char in H2. subst. now exists s1.
  - intros (dir & -> & H). constructor;
      [now apply lang_plus_class | now apply lang_char].
Qed.

Lemma lang_dirs s :
  lang (ReStar (ReCat (RePlus (ReClass is_name_char)) (ReChar BACKSLASH))) s
  <-> exists dirs,
        s = List.concat (map (fun dir => dir ++ [BACKSLASH]) dirs) /\
        Forall is_dir_name dirs.
Proof.
  rewrite lang_star_iff. split.
  - intros (ss & -> & Hss). induction Hss as [|x ss Hx _ IH].
    + now exists [].
    + destruct IH as (dirs & E & Hd). apply lang_dir in Hx.
      destruct Hx as (dir & -> & Hdir). exists (dir :: dirs). simpl.
      rewrite E. split; [reflexivity | now constructor].
  - intros (dirs & -> & Hd).
    exists (map (fun dir => dir ++ [BACKSLASH]) dirs). split; [reflexivity |].
    induction Hd; simpl; constructor; [| assumption].
    apply lang_dir. eauto.
Qed.

(** The pattern describes the intended format. *)
Lemma exe_pattern_lang s : lang exe_pattern s <-> exe_format s.
Proof.
  unfold exe_pattern, exe_format. split.
  - intros H.
    apply lang_cat_inv in H. destruct H as (s1 & r1 & -> & H1 & H).
    apply lang_cat_inv in H. destruct H as (s2 & r2 & -> & H2 & H).
    apply lang_cat_inv in H. destruct H as (s3 & r3 & -> & H3 & H).
    apply lang_cat_inv in H. destruct H as (s4 & r4 & -> & H4 & H).
    apply lang_cat_inv in H. destruct H as (s5 & s6 & -> & H5 & H6).
    apply lang_class_inv in H1. destruct H1 as (d & -> & Hd).
    apply lang_char in H2. apply lang_char in H3. apply lang_dirs in H4.
    destruct H4 as (dirs & -> & Hdirs).
    apply lang_star_class in H5. apply lang_lit in H6. subst.
    exists d, dirs, s5. repeat split; assumption.
  - intros (d & dirs & name & -> & Hd & Hdirs & Hname).
    change (d :: list_ascii_of_string ":" ++ [BACKSLASH] ++
              List.concat (map (fun dir => dir ++ [BACKSLASH]) dirs) ++
              name ++ list_ascii_of_string ".exe")
      with ([d] ++ [":"%char] ++ [BACKSLASH] ++
              List.concat (map (fun dir => dir ++ [BACKSLASH]) dirs) ++
              name ++ list_ascii_of_string ".exe").
    constructor; [now constructor |].
    constructor; [now apply lang_char |].
    constructor; [now apply lang_char |].
    constructor; [apply lang_dirs; eauto |].
    constructor; [now apply lang_star_class | now apply lang_lit].
Qed.

Lemma drop_final_newline_app t : drop_final_newline (t ++ [LF]) = Some t.
Proof.
  induction t as [|c t IH]; [reflexivity |].
  change ((c :: t) ++ [LF]) with (c :: (t ++ [LF])).
  destruct (t ++ [LF]) as [|c' s'] eqn:E.
  - now destruct t.
  - change (drop_final_newline (c :: c' :: s'))
      with (match drop_final_newline (c' :: s') with
            | Some t => Some (c :: t)
            | None => None
            end).
    now rewrite IH.
Qed.

Lemma drop_final_newline_inv s :
  forall t, drop_final_newline s = Some t -> s = t ++ [LF].
Proof.
  induction s as [|c s IH]; intros t H; [discriminate |].
  destruct s as [|c' s].
  - simpl in H. destruct (Ascii.eqb c LF) eqn:E; [| discriminate].
    apply Ascii.eqb_eq in E. inversion H. now subst.
  - change (drop_final_newline (c :: c' :: s))
      with (match drop_final_newline (c' :: s) with
            | Some t => Some (c :: t)
            | None => None
            end) in H.
    destruct (drop_final_newline (c' :: s)) as [t'|]; [| discriminate].
    inversion H; subst. simpl. f_equal. now apply IH.
Qed.

Lemma drop_final_newline_spec s t :
  drop_final_newline s = Some t <-> s = t ++ [LF].
Proof.
  split; [apply drop_final_newline_inv |].
  intros ->. apply drop_final_newline_app.
Qed.

Lemma re_match_dollar_spec r s :
  re_match_dollar r s = true <->
  lang r s \/ exists t, s = t ++ [LF] /\ lang r t.
Proof.
  unfold re_match_dollar. rewrite orb_true_iff, matches_spec.
  split; intros [H | H]; auto; right.
  - destruct (drop_final_newline s) as [t|] eqn:E; [| discriminate].
    apply drop_final_newline_spec in E. apply matches_spec in H. eauto.
  - destruct H as (t & E & H). apply drop_final_newline_spec in E.
    rewrite E. now apply matches_spec.
Qed.

End ExePattern.

(** ** What [validate_exe_path] accepts *)

Lemma exe_format_nonempty s : exe_format s -> s <> [].
Proof. intros (d & dirs & name & -> & _). discriminate. Qed.

Lemma list_ascii_of_string_nil s : list_ascii_of_string s = [] -> s = "".
Proof. destruct s; [reflexivity | discriminate]. Qed.

(** A path that passes has the format, up to a final line feed. *)
Lemma validate_exe_path_format exists_ isfile path :
  validate_exe_path exists_ isfile path = true ->
  exe_format (list_ascii_of_string path) \/
  exists t, list_ascii_of_string path = t ++ [LF] /\ exe_format t.
Proof.
  unfold validate_exe_path. intros H.
  destruct (path =? "")%string; [discriminate |].
  destruct (re_match_dollar exe_pattern (list_ascii_of_string path)) eqn:R;
    [| discriminate].
  apply re_match_dollar_spec in R.
  destruct R as [R | (t & Et & R)]; [left | right; exists t; split; auto];
    now apply exe_pattern_lang.
Qed.

(** X1. [validate_exe_path] returns [True] exactly for a text of the
    form drive letter, colon, backslash, directory names that are not
    empty, each followed by a backslash, and a file name ending in
    [.exe], none of them holding a forbidden character, or for such a
    text followed by one line feed, and only when the file system
    reports that the path exists and is a regular file. *)
Theorem validate_exe_path_accepts exists_ isfile path :
  validate_exe_path exists_ isfile path = true <->
  (exe_format (list_ascii_of_string path) \/
   exists t, list_ascii_of_string path = t ++ [LF] /\ exe_format t) /\
  exists_ path = true /\ isfile path = true.
Proof.
  unfold validate_exe_path.
  destruct (path =? "")%string eqn:E.
  - apply String.eqb_eq in E. subst. simpl. split; [discriminate |].
    intros [[H | (t & H & _)] _].
    + now apply exe_format_nonempty in H.
    + now destruct t.
  - destruct (re_match_dollar exe_pattern (list_ascii_of_string path)) eqn:R;
      simpl.
    + apply re_match_dollar_spec in R.
      assert (F : exe_format (list_ascii_of_string path) \/
                  exists t, list_ascii_of_string path = t ++ [LF] /\
                            exe_format t).
      { destruct R as [R | (t & Et & R)]; [left | right; exists t; split; auto];
          now apply exe_pattern_lang. }
      destruct (exists_ path), (isfile path); simpl; intuition congruence.
    + split; [discriminate |]. intros [F _].
      assert (R' : re_match_dollar exe_pattern (list_ascii_of_string path)
                   = true); [| congruence].
      apply re_match_dollar_spec.
      destruct F as [F | (t & Et & F)]; [left | right; exists t; split; auto];
        now apply exe_pattern_lang.
Qed.

(** Past the drive prefix a path that has the format holds backslashes
    and name characters only. *)
Lemma exe_format_shape s :
  exe_format s ->
  exists d rest,
    s = d :: ":"%char :: BACKSLASH :: rest /\
    is_drive_letter d = true /\
    Forall (fun c => c = BACKSLASH \/ is_name_char c = true) rest.
Proof.
  intros (d & dirs & name & -> & Hd & Hdirs & Hname).
  exists d. eexists. split; [reflexivity |]. split; [assumption |].
  apply Forall_app. split; [| apply Forall_app; split].
  - apply Forall_concat. apply Forall_map.
    eapply Forall_impl; [| exact Hdirs]. intros dir [_ H].
    apply Forall_app. split; [| constructor; auto].
    apply Forall_forall. intros c Hc. right.
    eapply forallb_forall in H; eauto.
  - apply Forall_forall. intros c Hc. right.
    eapply forallb_forall in Hname; eauto.
  - repeat constructor; right; reflexivity.
Qed.

Lemma nth_error_app_last {A} (t : list A) (x : A) i c :
  nth_error (t ++ [x]) i = Some c ->
  nth_error t i = Some c \/ (c = x /\ i = List.length t).
Proof.
  intros H. destruct (Nat.lt_ge_cases i (List.length t)) as [L | L].
  - left. now rewrite nth_error_app1 in H.
  - right. rewrite nth_error_app2 in H by assumption.
    destruct (i - List.length t)%nat as [|k] eqn:E; simpl in H.
    + inversion H. split; [reflexivity | lia].
    + now destruct k.
Qed.

(** X2. In a path that [validate_exe_path] accepts the first character
    is an ASCII letter and the second a colon; every later character is
    a backslash or is none of the eleven characters the pattern forbids
    in names (backslash, slash, colon, star, question mark, double
    quote, angle brackets, bar, carriage return, line feed), except that
    the last character may be a line feed. *)
Theorem validate_exe_path_characters exists_ isfile path :
  validate_exe_path exists_ isfile path = true ->
  forall i c,
    nth_error (list_ascii_of_string path) i = Some c ->
    match i with
    | 0%nat => is_drive_letter c = true
    | 1%nat => c = ":"%char
    | _ => c = BACKSLASH \/ is_name_char c = true \/
           (c = LF /\ S i = List.length (list_ascii_of_string path))
    end.
Proof.
  intros H. apply validate_exe_path_format in H.
  assert (G : forall s, exe_format s -> forall i c,
               nth_error s i = Some c ->
               match i with
               | 0%nat => is_drive_letter c = true
               | 1%nat => c = ":"%char
               | _ => c = BACKSLASH \/ is_name_char c = true
               end).
  { intros s Hs i c Hi. apply exe_format_shape in Hs.
    destruct Hs as (d & rest & -> & Hd & Hrest).
    destruct i as [|[|[|i]]]; simpl in Hi.
    - now inversion Hi; subst.
    - now inversion Hi.
    - inversion Hi. now left.
    - apply nth_error_In in Hi. eapply Forall_forall in Hrest; eauto. }
  destruct H as [H | (t & E & H)]; intros i c Hi.
  - specialize (G _ H i c Hi). destruct i as [|[|i]]; tauto.
  - rewrite E in *. apply nth_error_app_last in Hi.
    destruct Hi as [Hi | [-> ->]].
    + specialize (G _ H i c Hi). destruct i as [|[|i]]; tauto.
    + rewrite length_app. simpl.
      apply exe_format_shape in H. destruct H as (d & rest & -> & _ & _).
      simpl. right. right. split; [reflexivity | lia].
Qed.

Lemma validate_exe_path_characters_witness :
  validate_exe_path (fun _ => true) (fun _ => true) "C:\Anyi\Anyi.exe" = true /\
  forall i c,
    nth_error (list_ascii_of_string "C:\Anyi\Anyi.exe") i = Some c ->
    match i with
    | 0%nat => is_drive_letter c = true
    | 1%nat => c = ":"%char
    | _ => c = BACKSLASH \/ is_name_char c = true \/
           (c = LF /\ S i = List.length (list_ascii_of_string "C:\Anyi\Anyi.exe"))
    end.
Proof.
  split; [reflexivity |].
  apply (validate_exe_path_characters (fun _ => true) (fun _ => true)).
  reflexivity.
Defined.

Lemma name_char_plain c : is_name_char c = true -> Ascii.eqb c BACKSLASH = false.
Proof.
  intros H. destruct (Ascii.eqb c BACKSLASH) eqn:E; [| reflexivity].
  apply Ascii.eqb_eq in E. subst. discriminate.
Qed.

Lemma separated_cons c l :
  separated (c :: l) =
  (negb (Ascii.eqb c BACKSLASH) || starts_plain l) && separated l.
Proof.
  destruct l as [|c2 l]; simpl.
  - now destruct (Ascii.eqb c BACKSLASH).
  - now destruct (Ascii.eqb c BACKSLASH), (Ascii.eqb c2 BACKSLASH).
Qed.

Lemma separated_name_app n rest :
  forallb is_name_char n = true ->
  separated rest = true -> separated (n ++ rest) = true.
Proof.
  induction n as [|c n IH]; intros Hn Hr; [assumption |].
  simpl in Hn. apply andb_true_iff in Hn. destruct Hn as [Hc Hn].
  change ((c :: n) ++ rest) with (c :: (n ++ rest)).
  rewrite separated_cons, (name_char_plain c Hc). simpl. auto.
Qed.

Lemma starts_plain_name_app n rest :
  forallb is_name_char n = true ->
  starts_plain rest = true -> starts_plain (n ++ rest) = true.
Proof.
  destruct n as [|c n]; intros Hn Hr; [assumption |].
  simpl in Hn. apply andb_true_iff in Hn. destruct Hn as [Hc _].
  simpl. now rewrite (name_char_plain c Hc).
Qed.

Lemma separated_app_last l c :
  separated l = true -> Ascii.eqb c BACKSLASH = false ->
  separated (l ++ [c]) = true.
Proof.
  intros Hl Hc. induction l as [|a l IH]; [reflexivity |].
  change ((a :: l) ++ [c]) with (a :: (l ++ [c])).
  rewrite separated_cons in *. apply andb_true_iff in Hl.
  destruct Hl as [H1 H2]. rewrite (IH H2), andb_true_r.
  destruct l as [|b l]; simpl in *; [rewrite Hc; simpl |]; auto using orb_true_r.
Qed.

Lemma separated_nth l :
  separated l = true ->
  forall i, nth_error l i = Some BACKSLASH ->
            nth_error l (S i) <> Some BACKSLASH.
Proof.
  induction l as [|c l IH]; intros H i Hi; [now destruct i |].
  rewrite separated_cons in H. apply andb_true_iff in H.
  destruct H as [H1 H2]. destruct i as [|i].
  - simpl in *. inversion Hi; subst. rewrite Ascii.eqb_refl in H1.
    simpl in H1. destruct l as [|c2 l]; [discriminate |]. simpl in *.
    intros E. inversion E; subst. now rewrite Ascii.eqb_refl in H1.
  - simpl in Hi. now apply IH.
Qed.

(** The part of a well-formed path after the drive prefix. *)
Lemma exe_format_separated s :
  exe_format s -> separated s = true.
Proof.
  intros (d & dirs & name & -> & Hd & Hdirs & Hname).
  set (tail := name ++ list_ascii_of_string ".exe").
  assert (T : starts_plain tail = true /\ separated tail = true).
  { split; [apply starts_plain_name_app | apply separated_name_app];
      auto. }
  assert (R : starts_plain
                (List.concat (map (fun dir => dir ++ [BACKSLASH]) dirs) ++ tail)
              = true /\
              separated
                (List.concat (map (fun dir => dir ++ [BACKSLASH]) dirs) ++ tail)
              = true).
  { induction Hdirs as [|dir dirs [Hne Hdir] _ IH]; [exact T |].
    destruct IH as [IH1 IH2]. simpl. rewrite <- !app_assoc. simpl. split.
    - destruct dir as [|c dir]; [congruence |]. simpl in *.
      apply andb_true_iff in Hdir. destruct Hdir as [Hc _].
      now rewrite (name_char_plain c Hc).
    - apply separated_name_app; [assumption |].
      rewrite separated_cons, IH1, IH2. now rewrite orb_true_r. }
  destruct R as [R1 R2].
  change (separated (d :: ":"%char :: BACKSLASH ::
            List.concat (map (fun dir => dir ++ [BACKSLASH]) dirs) ++ tail)
          = true).
  rewrite !separated_cons, R1, R2. simpl. now rewrite !orb_true_r.
Qed.

(** X3. A path that [validate_exe_path] accepts has no empty directory
    name: it never holds two backslashes in a row.  Its extension is
    the lower-case [.exe]: the path ends with these four characters,
    or with them and one line feed. *)
Theorem validate_exe_path_components exists_ isfile path :
  validate_exe_path exists_ isfile path = true ->
  (forall i,
     nth_error (list_ascii_of_string path) i = Some BACKSLASH ->
     nth_error (list_ascii_of_string path) (S i) <> Some BACKSLASH) /\
  exists t,
    list_ascii_of_string path = t ++ list_ascii_of_string ".exe" \/
    list_ascii_of_string path = t ++ list_ascii_of_string ".exe" ++ [LF].
Proof.
  intros H. apply validate_exe_path_format in H.
  assert (S1 : forall s, exe_format s ->
                 exists t, s = t ++ list_ascii_of_string ".exe").
  { intros s (d & dirs & name & -> & _).
    exists (d :: ":"%char :: BACKSLASH ::
              List.concat (map (fun dir => dir ++ [BACKSLASH]) dirs) ++ name).
    simpl. now rewrite <- !app_assoc. }
  destruct H as [H | (t & E & H)].
  - split; [apply separated_nth; now apply exe_format_separated |].
    destruct (S1 _ H) as (t & Et). eauto.
  - rewrite E. split.
    + apply separated_nth. apply separated_app_last;
        [now apply exe_format_separated | reflexivity].
    + destruct (S1 _ H) as (t' & ->). exists t'. right.
      now rewrite <- app_assoc.
Qed.

Lemma validate_exe_path_components_witness :
  validate_exe_path (fun _ => true) (fun _ => true) "D:\tools\Anyi.exe" = true /\
  (forall i,
     nth_error (list_ascii_of_string "D:\tools\Anyi.exe") i = Some BACKSLASH ->
     nth_error (list_ascii_of_string "D:\tools\Anyi.exe") (S i)
     <> Some BACKSLASH) /\
  exists t,
    list_ascii_of_string "D:\tools\Anyi.exe"
    = t ++ list_ascii_of_string ".exe" \/
    list_ascii_of_string "D:\tools\Anyi.exe"
    = t ++ list_ascii_of_string ".exe" ++ [LF].
Proof.
  split; [reflexivity |].
  apply (validate_exe_path_components (fun _ => true) (fun _ => true)).
  reflexivity.
Defined.

(** ** Reasoning about the host code *)

Local Open Scope host_scope.


Section HostMonadFacts.

Context {A B : Type}.

Lemma hbind_val (m : HostM A) (k : A -> HostM B) s a s1 :
  m s = (HVal a, s1) -> hbind m k s = k a s1.
Proof. intros E. unfold hbind. now rewrite E. Qed.

Lemma hbind_raised (m : HostM A) (k : A -> HostM B) s e s1 :
  m s = (HRaised e, s1) -> hbind m k s = (HRaised e, s1).
Proof. intros E. unfold hbind. now rewrite E. Qed.

Lemma htry_val (m : HostM A) h s a s1 :
  m s = (HVal a, s1) -> htry m h s = (HVal a, s1).
Proof. intros E. unfold htry. now rewrite E. Qed.

Lemma htry_raised (m : HostM A) h s e s1 :
  m s = (HRaised e, s1) -> htry m h s = h e s1.
Proof. intros E. unfold htry. now rewrite E. Qed.

End HostMonadFacts.

Section ProcessFacts.

Variable host : Host.
Variable process_name : string.

Local Abbreviation scan_body :=
  (fun proc : ProcInfo =>
     m <- name_matches host process_name proc ;;
     if m : bool then hret (Return true) else hret Next).

(** The loop of [is_process_running] changes nothing and ends in one of
    three ways. *)
Lemma scan_run procs s :
  let r := hfor_each procs scan_body s in
  snd r = s /\
  ((fst r = HVal (Return true) /\
    exists before p after,
      procs = before ++ p :: after /\
      Forall (fun q => proc_name q <> None) before /\
      matching host process_name p = true) \/
   (fst r = HVal Next) \/
   (fst r = HRaised AttributeError)).
Proof.
  induction procs as [|q procs IH]; simpl.
  - split; [reflexivity |]. right. now left.
  - unfold hbind at 1, name_matches.
    destruct (proc_name q) as [n|] eqn:En; cbn.
    + destruct (contains (str_lower host process_name) (str_lower host n))
        eqn:C; cbn.
      * split; [reflexivity |]. left. split; [reflexivity |].
        exists [], q, procs. repeat split; [constructor |].
        unfold matching. now rewrite En.
      * destruct IH as [IH1 IH2]. split; [exact IH1 |].
        destruct IH2 as [(R & before & p & after & -> & Hb & Hp) | IH2];
          [left | right; exact IH2].
        split; [exact R |]. exists (q :: before), p, after.
        repeat split; [constructor; [congruence | assumption] | assumption].
    + split; [reflexivity |]. right. now right.
Qed.

Lemma scan_match before p after s :
  Forall (fun q => proc_name q <> None) before ->
  matching host process_name p = true ->
  hfor_each (before ++ p :: after) scan_body s = (HVal (Return true), s).
Proof.
  intros Hb Hp. induction Hb as [|q before Hq _ IH]; simpl.
  - unfold hbind, name_matches. unfold matching in Hp.
    destruct (proc_name p); [| discriminate]. cbn. now rewrite Hp.
  - unfold hbind at 1, name_matches.
    destruct (proc_name q) as [n|]; [| congruence]. cbn.
    destruct (contains _ _); cbn; [reflexivity | exact IH].
Qed.

Lemma scan_hidden before p after s :
  Forall (fun q => matching host process_name q = false) before ->
  proc_name p = None ->
  hfor_each (before ++ p :: after) scan_body s = (HRaised AttributeError, s).
Proof.
  intros Hb Hp. induction Hb as [|q before Hq _ IH]; simpl.
  - unfold hbind, name_matches. now rewrite Hp.
  - unfold hbind at 1, name_matches. unfold matching in Hq.
    destruct (proc_name q) as [n|]; [| reflexivity]. cbn.
    rewrite Hq. cbn. exact IH.
Qed.

(** X4. [is_process_running] never raises and only looks: it leaves one
    listing of the processes in the trace, followed by one error line
    when it answers [False] because of an exception.  It answers [True]
    exactly when the listing holds a process whose lower-cased name
    contains the lower-cased [process_name] and every process listed
    before that one has a name.  So a process whose name the system
    withholds ([None]) hides every selected process listed after it:
    the answer is [False] with an [AttributeError] logged. *)
Theorem is_process_running_first_match s :
  let procs := fst (psutil_process_iter host (host_trace s)) in
  let err := snd (psutil_process_iter host (host_trace s)) in
  let r := is_process_running host process_name s in
  exists b log,
    fst r = HVal b /\
    host_trace (snd r) = log ++ HProcessIter procs err :: host_trace s /\
    config_manager (snd r) = config_manager s /\
    (log = [] \/
     exists e, log = [HLog ERROR (MsgCheckFailed process_name e)] /\
               b = false) /\
    (b = true <->
     exists before p after,
       procs = before ++ p :: after /\
       Forall (fun q => proc_name q <> None) before /\
       matching host process_name p = true) /\
    (forall before p after,
       procs = before ++ p :: after ->
       Forall (fun q => matching host process_name q = false) before ->
       proc_name p = None ->
       b = false /\
       log = [HLog ERROR (MsgCheckFailed process_name AttributeError)]).
Proof.
  cbv zeta.
  destruct (psutil_process_iter host (host_trace s)) as [procs err] eqn:It.
  cbn [fst snd].
  set (s1 := {| host_trace := HProcessIter procs err :: host_trace s;
                config_manager := config_manager s |}).
  assert (P : process_iter host s = (HVal (procs, err), s1)).
  { unfold process_iter, hbind, hquery, hemit, hret. now rewrite It. }
  destruct (scan_run procs s1) as [S1 S2]. cbv zeta in S1, S2.
  destruct (hfor_each procs scan_body s1) as [res s2] eqn:Sc.
  cbn [fst snd] in S1, S2. subst s2.
  unfold is_process_running.
  destruct S2 as [(-> & Hm) | [-> | ->]].
  - (* a selected process was reached *)
    erewrite htry_val;
      [| erewrite hbind_val by exact P; cbn [fst snd];
         erewrite hbind_val by exact Sc; reflexivity].
    exists true, []. cbn [fst snd host_trace config_manager app].
    split; [reflexivity |]. split; [reflexivity |]. split; [reflexivity |].
    split; [now left |]. split; [tauto |].
    intros before p after E Hb Hp.
    rewrite E, (scan_hidden before p after s1 Hb Hp) in Sc. discriminate.
  - (* the listing was exhausted *)
    assert (N : (exists before p after,
                   procs = before ++ p :: after /\
                   Forall (fun q => proc_name q <> None) before /\
                   matching host process_name p = true) -> False).
    { intros (before & p & after & E & Hb & Hp).
      rewrite E, (scan_match before p after s1 Hb Hp) in Sc. discriminate. }
    assert (N' : forall before p after,
               procs = before ++ p :: after ->
               Forall (fun q => matching host process_name q = false) before ->
               proc_name p = None -> False).
    { intros before p after E Hb Hp.
      rewrite E, (scan_hidden before p after s1 Hb Hp) in Sc. discriminate. }
    destruct err as [e|].
    + erewrite htry_raised;
        [| erewrite hbind_val by exact P; cbn [fst snd];
           erewrite hbind_val by exact Sc; reflexivity].
      exists false, [HLog ERROR (MsgCheckFailed process_name e)].
      cbn. split; [reflexivity |]. split; [reflexivity |].
      split; [reflexivity |]. split; [right; eauto |].
      split; [split; [discriminate | tauto] |].
      intros before p after E Hb Hp. exfalso. eapply N'; eauto.
    + erewrite htry_val;
        [| erewrite hbind_val by exact P; cbn [fst snd];
           erewrite hbind_val by exact Sc; reflexivity].
      exists false, []. cbn. split; [reflexivity |]. split; [reflexivity |].
      split; [reflexivity |]. split; [now left |].
      split; [split; [discriminate | tauto] |].
      intros before p after E Hb Hp. exfalso. eapply N'; eauto.
  - (* a process without a name was reached *)
    erewrite htry_raised;
      [| erewrite hbind_val by exact P; cbn [fst snd];
         erewrite hbind_raised by exact Sc; reflexivity].
    exists false, [HLog ERROR (MsgCheckFailed process_name AttributeError)].
    cbn. split; [reflexivity |]. split; [reflexivity |].
    split; [reflexivity |]. split; [right; eauto |].
    split; [| auto].
    split; [discriminate |].
    intros (before & p & after & E & Hb & Hp).
    rewrite E, (scan_match before p after s1 Hb Hp) in Sc. discriminate.
Qed.

End ProcessFacts.

Section TerminateFacts.

Variable host : Host.
Variable process_name : string.

Ltac pass_goals :=
  split;
  [ let ev := fresh "ev" in
    let Hev := fresh "Hev" in
    intros ev Hev; cbn in Hev;
    repeat (destruct Hev as [<- | Hev]); try contradiction; cbn; eauto 8
  | intros; try congruence; eexists; cbn; eauto 8 ].

(** One pass through the loop of [terminate_process], for a process
    that has a name. *)
Lemma terminate_one_run p n acc s :
  proc_name p = Some n ->
  let r := terminate_one host process_name p acc s in
  exists evs,
    fst r = HVal (acc || existsb signal_ok evs) /\
    host_trace (snd r) = evs ++ host_trace s /\
    config_manager (snd r) = config_manager s /\
    only_signals host process_name [p] evs /\
    (matching host process_name p = true ->
     exists res, In (HTerminate (proc_pid p) res) evs).
Proof.
  intros En. cbv zeta. unfold terminate_one, name_matches, only_signals.
  rewrite En. unfold hbind at 1. cbn [hret].
  destruct (contains (str_lower host process_name) (str_lower host n)) eqn:C.
  - assert (M : matching host process_name p = true)
      by (unfold matching; now rewrite En).
    unfold htry_denied, htry, hbind, hcall, hlog, hemit, hret.
    cbn [host_trace config_manager].
    destruct (process_terminate host (host_trace s) (proc_pid p))
      as [[]|e] eqn:T.
    + eexists [_; _]. split; [| split; [cbn; reflexivity |]];
        [cbn; now rewrite orb_true_r |]. split; [reflexivity |].
      pass_goals.
    + destruct e.
      * match goal with
        | |- context [process_kill host ?tr ?pid] =>
            destruct (process_kill host tr pid) as [[]|e2] eqn:K
        end.
        -- eexists [_; _; _; _]. split; [| split; [cbn; reflexivity |]];
             [cbn; now rewrite orb_true_r |]. split; [reflexivity |].
           pass_goals.
        -- eexists [_; _; _; _]. split; [| split; [cbn; reflexivity |]];
             [cbn; now rewrite orb_false_r |]. split; [reflexivity |].
           pass_goals.
      * eexists [_; _]. split; [| split; [cbn; reflexivity |]];
          [cbn; now rewrite orb_false_r |]. split; [reflexivity |].
        pass_goals.
      * eexists [_; _]. split; [| split; [cbn; reflexivity |]];
          [cbn; now rewrite orb_false_r |]. split; [reflexivity |].
        pass_goals.
      * eexists [_; _]. split; [| split; [cbn; reflexivity |]];
          [cbn; now rewrite orb_false_r |]. split; [reflexivity |].
        pass_goals.
  - assert (M : matching host process_name p = false)
      by (unfold matching; now rewrite En).
    exists []. cbn. rewrite orb_false_r.
    split; [reflexivity |]. split; [reflexivity |]. split; [reflexivity |].
    pass_goals.
Qed.

Lemma only_signals_app procs p evs1 evs2 :
  only_signals host process_name [p] evs1 ->
  only_signals host process_name procs evs2 ->
  only_signals host process_name (p :: procs) (evs2 ++ evs1).
Proof.
  intros H1 H2 ev Hev. apply in_app_or in Hev. destruct Hev as [Hev | Hev].
  - specialize (H2 ev Hev). destruct ev; auto.
    + destruct H2 as (q & Hq & E & M). exists q. cbn. auto.
    + apply in_or_app. now left.
  - specialize (H1 ev Hev). destruct ev; auto.
    + destruct H1 as (q & [<- | []] & E & M). exists p. cbn. auto.
    + apply in_or_app. now right.
Qed.

(** The loop of [terminate_process]. *)
Lemma terminate_fold_run procs : forall acc s,
  let r := hfold procs (terminate_one host process_name) acc s in
  exists evs,
    host_trace (snd r) = evs ++ host_trace s /\
    config_manager (snd r) = config_manager s /\
    only_signals host process_name procs evs /\
    ((Forall (fun q => proc_name q <> None) procs /\
      fst r = HVal (acc || existsb signal_ok evs) /\
      forall p, In p procs -> matching host process_name p = true ->
                exists res, In (HTerminate (proc_pid p) res) evs) \/
     (Exists (fun q => proc_name q = None) procs /\
      fst r = HRaised AttributeError)).
Proof.
  induction procs as [|p procs IH]; intros acc s; cbv zeta.
  - exists []. cbn. rewrite orb_false_r.
    split; [reflexivity |]. split; [reflexivity |].
    split; [intros ev [] |]. left. split; [constructor |].
    split; [reflexivity |]. intros p [].
  - cbn [hfold]. destruct (proc_name p) as [n|] eqn:En.
    + destruct (terminate_one_run p n acc s En)
        as (evs1 & R1 & T1 & C1 & O1 & M1).
      cbv zeta in R1, T1, C1.
      destruct (terminate_one host process_name p acc s) as [r1 s1] eqn:E1.
      cbn [fst snd] in R1, T1, C1. subst r1.
      rewrite (hbind_val _ _ _ _ _ E1).
      destruct (IH (acc || existsb signal_ok evs1) s1)
        as (evs2 & T2 & C2 & O2 & D). cbv zeta in T2, C2, D.
      exists (evs2 ++ evs1).
      split; [now rewrite T2, T1, app_assoc |].
      split; [now rewrite C2 |].
      split; [now apply only_signals_app |].
      destruct D as [(F & R2 & M2) | (X & R2)]; [left | right].
      * split; [constructor; [congruence | assumption] |].
        split; [rewrite R2, existsb_app;
                now destruct acc, (existsb signal_ok evs1),
                  (existsb signal_ok evs2) |].
        intros q [<- | Hq] Mq.
        -- destruct (M1 Mq) as (res & Hres). exists res.
           apply in_or_app. now right.
        -- destruct (M2 q Hq Mq) as (res & Hres). exists res.
           apply in_or_app. now left.
      * split; [now apply Exists_cons_tl | exact R2].
    + exists []. cbn [app].
      assert (E1 : terminate_one host process_name p acc s
                   = (HRaised AttributeError, s)).
      { unfold terminate_one, name_matches. rewrite En. reflexivity. }
      rewrite (hbind_raised _ _ _ _ _ E1). cbn.
      split; [reflexivity |]. split; [reflexivity |].
      split; [intros ev [] |]. right. split; [| reflexivity].
      now apply Exists_cons_hd.
Qed.

Lemma named_not_unnamed (procs : list ProcInfo) :
  Forall (fun q => proc_name q <> None) procs ->
  Exists (fun q => proc_name q = None) procs -> False.
Proof.
  intros F X. apply Exists_exists in X. destruct X as (q & Hq & E).
  eapply Forall_forall in F; eauto.
Qed.

(** X5. [terminate_process] never raises.  It signals only processes
    of the listing whose lower-cased name contains the lower-cased
    [process_name], and sends [kill] only to a process that answered
    [terminate] with [AccessDenied].  A [True] answer means that a
    signal was delivered.  When every listed process has a name and the
    listing ends normally, every selected process was sent [terminate]
    and the answer is [True] exactly when a signal was delivered.  When
    a listed process has no name, or the listing ends with an
    exception, the answer is [False], whatever was delivered before. *)
Theorem terminate_process_signals s :
  let procs := fst (psutil_process_iter host (host_trace s)) in
  let err := snd (psutil_process_iter host (host_trace s)) in
  let r := terminate_process host process_name s in
  exists b evs,
    fst r = HVal b /\
    host_trace (snd r) = evs ++ HProcessIter procs err :: host_trace s /\
    config_manager (snd r) = config_manager s /\
    only_signals host process_name procs evs /\
    (b = true -> existsb signal_ok evs = true) /\
    (Forall (fun q => proc_name q <> None) procs -> err = None ->
     b = existsb signal_ok evs /\
     forall p, In p procs -> matching host process_name p = true ->
               exists res, In (HTerminate (proc_pid p) res) evs) /\
    (Exists (fun q => proc_name q = None) procs \/ err <> None ->
     b = false).
Proof.
  cbv zeta.
  destruct (psutil_process_iter host (host_trace s)) as [procs err] eqn:It.
  cbn [fst snd].
  set (s1 := {| host_trace := HProcessIter procs err :: host_trace s;
                config_manager := config_manager s |}).
  assert (P : process_iter host s = (HVal (procs, err), s1)).
  { unfold process_iter, hbind, hquery, hemit, hret. now rewrite It. }
  destruct (terminate_fold_run procs false s1) as (evs & T & C & O & D).
  cbv zeta in T, C, D.
  destruct (hfold procs (terminate_one host process_name) false s1)
    as [res s2] eqn:F.
  cbn [fst snd] in T, C, D. cbn [host_trace config_manager s1] in T, C.
  assert (O' : forall ev0,
             only_signals host process_name procs (HLog ERROR ev0 :: evs)).
  { intros ev0 ev [<- | Hev]; [exact I |]. specialize (O ev Hev).
    destruct ev; auto. now right. }
  unfold terminate_process.
  destruct D as [(N & -> & M) | (X & ->)]; [destruct err as [e|] |].
  - (* the listing ended with an exception *)
    erewrite htry_raised;
      [| erewrite hbind_val by exact P; cbn [fst snd];
         erewrite hbind_val by exact F; reflexivity].
    exists false, (HLog ERROR (MsgTerminateError process_name e) :: evs).
    cbn. split; [reflexivity |]. split; [now rewrite T |].
    split; [exact C |]. split; [apply O' |]. split; [discriminate |].
    split; [discriminate | reflexivity].
  - (* the listing was complete *)
    erewrite htry_val;
      [| erewrite hbind_val by exact P; cbn [fst snd];
         erewrite hbind_val by exact F; reflexivity].
    exists (existsb signal_ok evs), evs.
    cbn. split; [reflexivity |]. split; [exact T |].
    split; [exact C |]. split; [exact O |]. split; [auto |].
    split; [auto |].
    intros [X | E]; [| congruence]. exfalso.
    eapply named_not_unnamed; eauto.
  - (* a process without a name was reached *)
    erewrite htry_raised;
      [| erewrite hbind_val by exact P; cbn [fst snd];
         erewrite hbind_raised by exact F; reflexivity].
    exists false, (HLog ERROR (MsgTerminateError process_name AttributeError)
                     :: evs).
    cbn. split; [reflexivity |]. split; [now rewrite T |].
    split; [exact C |]. split; [apply O' |]. split; [discriminate |].
    split; [| reflexivity].
    intros N. exfalso. eapply named_not_unnamed; eauto.
Qed.

End TerminateFacts.

(** With a process whose name is withheld after a selected one, the
    selected one is terminated and the answer is still [False]. *)
Example terminate_process_cut_short :
  let host := example_host [mkProcInfo 11 (Some "anyi.exe");
                            mkProcInfo 12 None;
                            mkProcInfo 13 (Some "anyi.exe")] "" None in
  let r := terminate_process host "anyi.exe" (sys_init default_config) in
  fst r = HVal false /\
  In (HTerminate 11 (Ok tt)) (host_trace (snd r)) /\
  forall res, ~ In (HTerminate 13 res) (host_trace (snd r)).
Proof.
  vm_compute. split; [reflexivity |]. split; [tauto |].
  intros res H.
  repeat (destruct H as [H | H]; [discriminate |]). exact H.
Qed.

Section ConfigFacts.

Variable host : Host.

Lemma dict_get_set_same k v d default :
  dict_get (dict_set k v d) k default = v.
Proof.
  induction d as [|[k' v'] d IH]; simpl.
  - now rewrite String.eqb_refl.
  - destruct (k' =? k)%string eqn:E; simpl.
    + now rewrite String.eqb_refl.
    + now rewrite E.
Qed.

Lemma dict_get_set_other k k' v d default :
  k' <> k -> dict_get (dict_set k v d) k' default = dict_get d k' default.
Proof.
  intros N. induction d as [|[k0 v0] d IH]; simpl.
  - destruct (k =? k')%string eqn:E; [| reflexivity].
    apply String.eqb_eq in E. congruence.
  - destruct (k0 =? k)%string eqn:E; simpl.
    + apply String.eqb_eq in E. subst k0.
      destruct (k =? k')%string eqn:E'; [| reflexivity].
      apply String.eqb_eq in E'. congruence.
    + now rewrite IH.
Qed.

(** [set_anyi_path] on a [dict]. *)
Lemma set_anyi_path_run path s d :
  config (config_manager s) = CDict d ->
  let d' := dict_set "anyi_path" (PStr path) d in
  let file := config_file (config_manager s) in
  let r := set_anyi_path host path s in
  exists log res,
    fst r = HVal tt /\
    config_manager (snd r) = {| config_file := file; config := CDict d' |} /\
    host_trace (snd r) = log ++ HDump file (CDict d') res :: host_trace s /\
    (res = Ok tt /\ log = [] \/
     exists e, res = Err e /\ log = [HLog ERROR (MsgSaveFailed e)]).
Proof.
  intros E. cbv zeta.
  unfold set_anyi_path, save_config, htry, hbind, hcall, hlog, hemit, hret,
    get_config_manager, set_config_manager.
  rewrite E. cbn.
  destruct (json_dump host (host_trace s) (config_file (config_manager s))
              (CDict (dict_set "anyi_path" (PStr path) d))) as [[]|e] eqn:J;
    cbn.
  - exists [], (Ok tt). cbn. repeat split. now left.
  - exists [HLog ERROR (MsgSaveFailed e)], (Err e). cbn.
    repeat split. right. eauto.
Qed.

Lemma set_anyi_path_not_dict path s :
  config (config_manager s) = CNotDict ->
  set_anyi_path host path s = (HRaised TypeError, s).
Proof.
  intros E. unfold set_anyi_path, hbind, get_config_manager. now rewrite E.
Qed.

(** X6. On a configuration that is a [dict], [set_anyi_path] returns
    normally whether or not the file could be written; it attempts
    exactly one write, of the new configuration, and logs one error
    line when the write fails.  Afterwards [get_anyi_path] returns the
    path just set, and every other key reads as before.  On a
    configuration that is not a [dict] it raises [TypeError] and
    changes nothing: no write is attempted. *)
Theorem set_anyi_path_then_get path s :
  let r := set_anyi_path host path s in
  let file := config_file (config_manager s) in
  match config (config_manager s) with
  | CDict d =>
      fst r = HVal tt /\
      get_anyi_path (snd r) = (HVal (PStr path), snd r) /\
      config_file (config_manager (snd r)) = file /\
      exists d' log res,
        config (config_manager (snd r)) = CDict d' /\
        (forall k default,
           k <> "anyi_path" -> dict_get d' k default = dict_get d k default) /\
        host_trace (snd r) = log ++ HDump file (CDict d') res :: host_trace s /\
        (res = Ok tt /\ log = [] \/
         exists e, res = Err e /\ log = [HLog ERROR (MsgSaveFailed e)])
  | CNotDict => r = (HRaised TypeError, s)
  end.
Proof.
  cbv zeta. destruct (config (config_manager s)) as [d|] eqn:E.
  - destruct (set_anyi_path_run path s d E) as (log & res & R & C & T & L).
    cbv zeta in R, C, T.
    split; [exact R |].
    split; [unfold get_anyi_path, hbind, get_config_manager; rewrite C; cbn;
            now rewrite dict_get_set_same |].
    split; [now rewrite C |].
    exists (dict_set "anyi_path" (PStr path) d), log, res.
    split; [now rewrite C |].
    split; [intros k default N; now apply dict_get_set_other |].
    split; assumption.
  - now apply set_anyi_path_not_dict.
Qed.

End ConfigFacts.

Section RunnerFacts.

Variable host : Host.

(** [_run_anyi_exe]: one launch, then log lines, the sleep and the
    poll. *)
Lemma run_anyi_exe_run path s :
  let r := _run_anyi_exe host path s in
  exists b launch tail,
    fst r = HVal b /\
    host_trace (snd r)
    = tail ++ HPopen path launch :: HLog INFO (MsgLaunching path)
           :: host_trace s /\
    config_manager (snd r) = config_manager s /\
    forallb is_background tail = true /\
    (b = true <-> launch = Ok tt /\ In (HPoll None) tail).
Proof.
  cbv zeta.
  unfold _run_anyi_exe, htry, hbind, hcall, hquery, hlog, hemit, hret.
  cbn [host_trace config_manager].
  destruct (subprocess_Popen host
              (HLog INFO (MsgLaunching path) :: host_trace s) path)
    as [[]|e] eqn:P.
  - match goal with
    | |- context [process_poll host ?tr] =>
        destruct (process_poll host tr) as [rc|] eqn:Q
    end.
    + exists false, (Ok tt). eexists [_; _; _].
      split; [| split; [cbn; reflexivity |]]; [reflexivity |]. cbn.
      repeat split; try discriminate.
      intros [_ [H | [H | [H | []]]]]; discriminate.
    + exists true, (Ok tt). eexists [_; _; _].
      split; [| split; [cbn; reflexivity |]]; [reflexivity |]. cbn.
      repeat split; auto.
  - exists false, (Err e). eexists [_].
    split; [| split; [cbn; reflexivity |]]; [reflexivity |]. cbn.
    repeat split; try discriminate. intros [H _]. discriminate.
Qed.

Lemma background_filters tail :
  forallb is_background tail = true ->
  filter is_input tail = [] /\ filter is_popen tail = [] /\
  filter is_print tail = [] /\ filter is_dump tail = [].
Proof.
  induction tail as [|ev tail IH]; cbn; intros H; [auto |].
  apply andb_true_iff in H. destruct H as [H1 H2].
  destruct (IH H2) as (I1 & I2 & I3 & I4).
  destruct ev; try discriminate; cbn; auto.
Qed.

Ltac solve_trace :=
  repeat (simpl; rewrite <- app_assoc); simpl; reflexivity.

Lemma print_run msg s :
  print host msg s =
  (match console_print host (host_trace s) msg with
   | Ok _ => HVal tt
   | Err e => HRaised e
   end,
   {| host_trace :=
        HPrint msg (console_print host (host_trace s) msg) :: host_trace s;
      config_manager := config_manager s |}).
Proof.
  unfold print, hcall, hemit.
  now destruct (console_print host (host_trace s) msg) as [[]|e].
Qed.

Lemma launched_from_line_more evs tr line :
  launched_from_line host tr line -> launched_from_line host (evs ++ tr) line.
Proof.
  intros (pre & post & -> & V & P & Q). exists (evs ++ pre), post.
  split; [now rewrite app_assoc |]. split; [exact V |].
  split; apply in_or_app; now right.
Qed.

(** One pass through the body of the prompt loop. *)
Lemma prompt_attempt_run s :
  let r := prompt_attempt host s in
  exists evs,
    host_trace (snd r) = evs ++ host_trace s /\
    List.length (filter is_prompt evs) = 1%nat /\
    (List.length (filter is_input evs) <= 1)%nat /\
    (List.length (filter is_popen evs)
     <= List.length (filter is_input evs))%nat /\
    config_file (config_manager (snd r)) = config_file (config_manager s) /\
    ((fst r = HVal Next /\ config_manager (snd r) = config_manager s) \/
     (fst r = HVal (Return true) /\
      exists line d,
        launched_from_line host (host_trace (snd r)) line /\
        config (config_manager (snd r)) = CDict d /\
        dict_get d "anyi_path" (PStr "") = PStr (str_strip host line))).
Proof.
  cbv zeta.
  unfold prompt_attempt, htry, hbind, print, hcall, validate_now, hquery,
    hlog, hemit, hret.
  cbn [host_trace config_manager].
  destruct (console_print host (host_trace s) PrintPrompt) as [[]|e0] eqn:Pp;
    cbv beta iota; cbn [host_trace config_manager].
  2:{ exists [HLog ERROR (MsgPromptError e0); HPrint PrintPrompt (Err e0)].
      cbn. repeat split; auto. }
  destruct (input_line host (HPrint PrintPrompt (Ok tt) :: host_trace s))
    as [line|e] eqn:In_.
  - cbv beta iota. cbn [host_trace config_manager].
    set (p := str_strip host line).
    set (tr := HInput (Ok line) :: HPrint PrintPrompt (Ok tt) :: host_trace s).
    destruct (validate_exe_path (host_path_exists host tr)
                (host_path_isfile host tr) p) eqn:V; cbv beta iota.
    + set (s2 := {| host_trace := tr; config_manager := config_manager s |}).
      destruct (run_anyi_exe_run p s2) as (b & launch & tail & R & T & C & B & L).
      cbv zeta in R, T, C.
      destruct (_run_anyi_exe host p s2) as [rb s3] eqn:E3.
      cbn [fst snd] in R, T, C. subst rb.
      cbn [host_trace config_manager s2] in T, C. unfold tr in T.
      destruct (background_filters tail B) as (I1 & I2 & I3 & _).
      assert (I4 : filter is_prompt tail = []).
      { clear - B. induction tail as [|ev tail IH]; [reflexivity |].
        cbn in B. apply andb_true_iff in B. destruct B as [B1 B2].
        destruct ev; try discriminate; cbn; auto. }
      destruct b; cbv beta iota.
      * destruct (config (config_manager s3)) as [d|] eqn:Ec.
        -- destruct (set_anyi_path_run host p s3 d Ec)
             as (log & res & R4 & C4 & T4 & L4).
           cbv zeta in R4, C4, T4.
           destruct (set_anyi_path host p s3) as [r4 s4] eqn:E4.
           cbn [fst snd] in R4, C4, T4. subst r4. cbv beta iota. cbn [fst snd].
           exists (log ++ HDump (config_file (config_manager s3))
                           (CDict (dict_set "anyi_path" (PStr p) d)) res
                       :: tail ++ [HPopen p launch;
                                   HLog INFO (MsgLaunching p);
                                   HInput (Ok line);
                                   HPrint PrintPrompt (Ok tt)]).
           split; [rewrite T4, T; solve_trace |].
           assert (Il : filter is_input log = [] /\ filter is_popen log = []
                        /\ filter is_prompt log = []).
           { destruct L4 as [[_ ->] | (e & _ & ->)]; now cbn. }
           destruct Il as (Il1 & Il2 & Il3).
           split; [rewrite !filter_app, Il3; cbn;
                   rewrite filter_app, I4; reflexivity |].
           split; [rewrite !filter_app, Il1; cbn;
                   rewrite filter_app, I1; cbn; lia |].
           split; [rewrite !filter_app, Il1, Il2; cbn;
                   rewrite !filter_app, I1, I2; cbn; lia |].
           split; [rewrite C4, C; reflexivity |].
           right. split; [reflexivity |].
           exists line, (dict_set "anyi_path" (PStr p) d).
           destruct L as [L _]. destruct (L eq_refl) as [-> Lp].
           split; [| split; [now rewrite C4 | apply dict_get_set_same]].
           exists (log ++ HDump (config_file (config_manager s3))
                           (CDict (dict_set "anyi_path" (PStr p) d)) res
                       :: tail ++ [HPopen p (Ok tt);
                                   HLog INFO (MsgLaunching p)]),
             (HPrint PrintPrompt (Ok tt) :: host_trace s).
           split; [rewrite T4, T; solve_trace |].
           split; [exact V |].
           split; apply in_or_app; right; right; apply in_or_app;
             [right; cbn; auto | now left].
        -- rewrite (set_anyi_path_not_dict host p s3 Ec). cbv beta iota.
           cbn [fst snd].
           exists (HLog ERROR (MsgPromptError TypeError)
                     :: tail ++ [HPopen p launch;
                                 HLog INFO (MsgLaunching p);
                                 HInput (Ok line);
                                 HPrint PrintPrompt (Ok tt)]).
           cbn [host_trace config_manager].
           split; [rewrite T; solve_trace |].
           split; [cbn; rewrite filter_app, I4; reflexivity |].
           split; [cbn; rewrite filter_app, I1; cbn; lia |].
           split; [cbn; rewrite !filter_app, I1, I2; cbn; lia |].
           split; [now rewrite C |].
           left. split; [reflexivity | exact C].
      * cbn [fst snd].
        exists (tail ++ [HPopen p launch; HLog INFO (MsgLaunching p);
                         HInput (Ok line); HPrint PrintPrompt (Ok tt)]).
        split; [rewrite T; solve_trace |].
        split; [rewrite filter_app, I4; reflexivity |].
        split; [rewrite filter_app, I1; cbn; lia |].
        split; [rewrite !filter_app, I1, I2; cbn; lia |].
        split; [now rewrite C |].
        left. split; [reflexivity | exact C].
    + cbn [host_trace config_manager].
      destruct (console_print host tr PrintInvalid) as [[]|e1] eqn:Pi;
        cbv beta iota; cbn [host_trace config_manager fst snd].
      * exists [HPrint PrintInvalid (Ok tt); HInput (Ok line);
                HPrint PrintPrompt (Ok tt)].
        cbn. repeat split; auto.
      * exists [HLog ERROR (MsgPromptError e1); HPrint PrintInvalid (Err e1);
                HInput (Ok line); HPrint PrintPrompt (Ok tt)].
        cbn. repeat split; auto.
  - exists [HLog ERROR (MsgPromptError e); HInput (Err e);
            HPrint PrintPrompt (Ok tt)].
    cbn. repeat split; auto.
Qed.

Lemma hbind_ext {A B} (m : HostM A) (k1 k2 : A -> HostM B) s :
  (forall a s', k1 a s' = k2 a s') -> hbind m k1 s = hbind m k2 s.
Proof.
  intros E. unfold hbind. destruct (m s) as [[a| |] s1]; auto.
Qed.

(** The loop needs no more fuel than the attempts that are left. *)
Lemma prompt_loop_fuel : forall n fuel rc s,
  (rc + n = 3)%nat -> (n <= fuel)%nat ->
  prompt_loop host fuel rc s = prompt_loop host n rc s.
Proof.
  induction n as [|n IH]; intros fuel rc s E L.
  - assert (rc = 3%nat) by lia. subst rc. now destruct fuel.
  - destruct fuel as [|fuel]; [lia |]. cbn [prompt_loop].
    destruct (rc <? max_retries)%nat; [| reflexivity].
    apply hbind_ext. intros [|v] s1; [| reflexivity].
    apply hbind_ext. intros _ s2. apply IH; lia.
Qed.

(** The prompt loop with [n] attempts left. *)
Lemma prompt_loop_run : forall n rc s,
  (rc + n = 3)%nat ->
  let r := prompt_loop host n rc s in
  exists evs,
    host_trace (snd r) = evs ++ host_trace s /\
    (List.length (filter is_prompt evs) <= n)%nat /\
    (List.length (filter is_input evs)
     <= List.length (filter is_prompt evs))%nat /\
    (List.length (filter is_popen evs)
     <= List.length (filter is_input evs))%nat /\
    config_file (config_manager (snd r)) = config_file (config_manager s) /\
    prompt_outcome host s n evs r.
Proof.
  induction n as [|n IH]; intros rc s E; cbv zeta.
  - assert (rc = 3%nat) by lia. subst rc. cbn.
    exists [HLog ERROR MsgGiveUp]. unfold prompt_outcome. cbn.
    repeat split; eauto.
  - cbn [prompt_loop].
    assert (Lt : (rc <? max_retries)%nat = true)
      by (apply Nat.ltb_lt; unfold max_retries; lia).
    rewrite Lt.
    destruct (prompt_attempt_run s) as (evs1 & T1 & A1 & I1 & P1 & F1 & D1).
    cbv zeta in T1, F1, D1.
    destruct (prompt_attempt host s) as [r1 s1] eqn:E1.
    cbn [fst snd] in T1, F1, D1.
    destruct D1 as [[-> C1] | [-> Hl]].
    + (* the attempt failed *)
      rewrite (hbind_val _ _ _ _ _ E1).
      destruct (S rc <? max_retries)%nat.
      * (* the retry message *)
        pose proof (print_run (PrintRetry (max_retries - S rc)) s1) as Ep.
        destruct (console_print host (host_trace s1)
                    (PrintRetry (max_retries - S rc))) as [[]|e] eqn:Cp.
        -- rewrite (hbind_val _ _ _ _ _ Ep).
           set (s2 := {| host_trace :=
                           HPrint (PrintRetry (max_retries - S rc)) (Ok tt)
                           :: host_trace s1;
                         config_manager := config_manager s1 |}).
           destruct (IH (S rc) s2 ltac:(lia))
             as (evs3 & T3 & A3 & I3 & P3 & F3 & O3).
           cbv zeta in T3, F3, O3.
           cbn [host_trace config_manager s2] in T3, F3.
           exists (evs3 ++ HPrint (PrintRetry (max_retries - S rc)) (Ok tt)
                        :: evs1).
           split; [rewrite T3, T1; solve_trace |].
           rewrite !filter_app, !length_app. cbn [filter is_prompt is_input
                                                   is_popen List.length].
           split; [lia |]. split; [lia |]. split; [lia |].
           split; [now rewrite F3, F1 |].
           unfold prompt_outcome in *.
           destruct (fst (prompt_loop host n (S rc) s2)) as [[|]|e|];
             auto.
           ++ destruct O3 as (L3 & C3 & evs' & ->).
              simpl in L3 |- *. rewrite filter_app, length_app. simpl.
              split; [lia |]. split; [rewrite C3; exact C1 |].
              eexists. cbn. reflexivity.
           ++ destruct O3 as (C3 & k & evs' & -> & Co).
              split; [rewrite C3; exact C1 |].
              exists k. eexists. split; [cbn; reflexivity |].
              cbn [host_trace s2] in Co. rewrite T1 in Co.
              rewrite <- Co. f_equal. solve_trace.
        -- rewrite (hbind_raised _ _ _ _ _ Ep). cbn [fst snd].
           exists (HPrint (PrintRetry (max_retries - S rc)) (Err e) :: evs1).
           cbn [host_trace config_manager].
           split; [now rewrite T1 |].
           cbn [filter is_prompt is_input is_popen].
           split; [lia |]. split; [lia |]. split; [lia |].
           split; [exact F1 |].
           unfold prompt_outcome. cbn [fst snd config_manager].
           split; [exact C1 |].
           exists (max_retries - S rc)%nat, evs1. split; [reflexivity |].
           now rewrite <- T1.
      * (* the last attempt *)
        assert (Er : hret tt s1 = (HVal tt, s1)) by reflexivity.
        rewrite (hbind_val _ _ _ _ _ Er).
        destruct (IH (S rc) s1 ltac:(lia))
          as (evs3 & T3 & A3 & I3 & P3 & F3 & O3).
        cbv zeta in T3, F3, O3.
        exists (evs3 ++ evs1).
        split; [rewrite T3, T1; now rewrite app_assoc |].
        rewrite !filter_app, !length_app.
        split; [lia |]. split; [lia |]. split; [lia |].
        split; [now rewrite F3, F1 |].
        unfold prompt_outcome in *.
        destruct (fst (prompt_loop host n (S rc) s1)) as [[|]|e|]; auto.
        -- destruct O3 as (L3 & C3 & evs' & ->).
           simpl in L3 |- *. rewrite filter_app, length_app. simpl.
           split; [lia |]. split; [now rewrite C3, C1 |].
           eexists. cbn. reflexivity.
        -- destruct O3 as (C3 & k & evs' & -> & Co).
           split; [now rewrite C3, C1 |].
           exists k. eexists. split; [cbn; reflexivity |].
           rewrite T1 in Co. rewrite <- Co. f_equal. solve_trace.
    + (* the program was started *)
      rewrite (hbind_val _ _ _ _ _ E1). cbn [hret fst snd].
      exists evs1.
      split; [exact T1 |]. split; [lia |]. split; [lia |].
      split; [exact P1 |]. split; [exact F1 |].
      unfold prompt_outcome. cbn [fst snd]. exact Hl.
Qed.

(** X7. [_prompt_and_run_anyi] ends within three passes of its loop:
    three iterations of fuel are enough and more fuel gives the same
    run.  It shows the prompt at most three times, reads at most one
    line per prompt and launches at most one program per line read.
    It can raise in one way only: the retry message, which is printed
    outside the [try], was refused by the console; the exception is
    that of the [print] and the configuration is untouched.  It
    answers [False] only after three prompts, with the configuration
    untouched and the give-up error logged last.  It answers [True]
    only when a line was read whose stripped text passed
    [validate_exe_path] against the file system as it was just after
    the read, that path was then launched and was still running at the
    poll, and the configuration is a [dict] in which [anyi_path] is
    now that path. *)
Theorem prompt_and_run_anyi_three_attempts fuel s :
  (3 <= fuel)%nat ->
  let r := _prompt_and_run_anyi host fuel s in
  r = _prompt_and_run_anyi host 3 s /\
  exists evs,
    host_trace (snd r) = evs ++ host_trace s /\
    (List.length (filter is_prompt evs) <= 3)%nat /\
    (List.length (filter is_input evs)
     <= List.length (filter is_prompt evs))%nat /\
    (List.length (filter is_popen evs)
     <= List.length (filter is_input evs))%nat /\
    config_file (config_manager (snd r)) = config_file (config_manager s) /\
    match fst r with
    | HVal true =>
        exists line d,
          launched_from_line host (host_trace (snd r)) line /\
          config (config_manager (snd r)) = CDict d /\
          dict_get d "anyi_path" (PStr "") = PStr (str_strip host line)
    | HVal false =>
        List.length (filter is_prompt evs) = 3%nat /\
        config_manager (snd r) = config_manager s /\
        exists evs', evs = HLog ERROR MsgGiveUp :: evs'
    | HRaised e =>
        config_manager (snd r) = config_manager s /\
        exists k evs',
          evs = HPrint (PrintRetry k) (Err e) :: evs' /\
          console_print host (evs' ++ host_trace s) (PrintRetry k) = Err e
    | HOutOfFuel => False
    end.
Proof.
  intros L. cbv zeta. unfold _prompt_and_run_anyi.
  rewrite (prompt_loop_fuel 3 fuel 0 s eq_refl L).
  split; [reflexivity |]. exact (prompt_loop_run 3 0 s eq_refl).
Qed.

Lemma get_anyi_path_run s d :
  config (config_manager s) = CDict d ->
  get_anyi_path s = (HVal (dict_get d "anyi_path" (PStr "")), s).
Proof.
  intros E. unfold get_anyi_path, hbind, get_config_manager. now rewrite E.
Qed.

(** The prompt raises only through a refused retry message. *)
Lemma prompt_raises fuel s :
  (3 <= fuel)%nat ->
  match fst (_prompt_and_run_anyi host fuel s) with
  | HVal _ => True
  | HRaised e =>
      exists k evs',
        host_trace (snd (_prompt_and_run_anyi host fuel s))
        = HPrint (PrintRetry k) (Err e) :: evs' /\
        console_print host evs' (PrintRetry k) = Err e
  | HOutOfFuel => False
  end.
Proof.
  intros L. unfold _prompt_and_run_anyi.
  rewrite (prompt_loop_fuel 3 fuel 0 s eq_refl L).
  destruct (prompt_loop_run 3 0 s eq_refl) as (evs & T & _ & _ & _ & _ & O).
  cbv zeta in T, O. unfold prompt_outcome in O.
  destruct (fst (prompt_loop host 3 0 s)) as [b|e|]; auto.
  destruct O as (_ & k & evs' & -> & Co).
  exists k, (evs' ++ host_trace s). split; [exact T | exact Co].
Qed.

(** X8. When the configuration holds a path that passes
    [validate_exe_path], [run_anyi] launches that path once and never
    turns to the console: after the launch the trace gains only log
    lines, the sleep and the poll.  Its answer is [True] exactly when
    the launch succeeded and the process was still running at the
    poll; a failed launch does not fall back to the prompt, and the
    configuration is left as it was. *)
Theorem run_anyi_stored_path fuel s d p :
  config (config_manager s) = CDict d ->
  dict_get d "anyi_path" (PStr "") = PStr p ->
  validate_exe_path (host_path_exists host (host_trace s))
                    (host_path_isfile host (host_trace s)) p = true ->
  let r := run_anyi host fuel s in
  exists b launch tail,
    fst r = HVal b /\
    host_trace (snd r)
    = tail ++ HPopen p launch :: HLog INFO (MsgLaunching p)
           :: host_trace s /\
    config_manager (snd r) = config_manager s /\
    forallb is_background tail = true /\
    (b = true <-> launch = Ok tt /\ In (HPoll None) tail).
Proof.
  intros Ec Ed V. cbv zeta. unfold run_anyi.
  rewrite (hbind_val _ _ _ _ _ (get_anyi_path_run s d Ec)), Ed.
  destruct (p =? "")%string eqn:Ep.
  - apply String.eqb_eq in Ep. subst p. discriminate.
  - assert (Ev : validate_now host p s = (HVal true, s))
      by (unfold validate_now, hquery; now rewrite V).
    rewrite (hbind_val _ _ _ _ _ Ev). apply run_anyi_exe_run.
Qed.

(** X9. [run_anyi] can raise in three situations only.  When the
    configuration is not a [dict] it raises [AttributeError], and when
    the stored [anyi_path] is neither a [str] nor false it raises
    [TypeError]; in both it has done nothing.  Otherwise it raises
    only from the prompt, with the exception of a retry message that
    the console refused (that [print] is outside the [try]).  In every
    other run it returns a [bool]; three iterations of fuel are
    enough. *)
Theorem run_anyi_raises_only fuel s :
  (3 <= fuel)%nat ->
  let r := run_anyi host fuel s in
  (config (config_manager s) = CNotDict -> r = (HRaised AttributeError, s)) /\
  (forall d,
     config (config_manager s) = CDict d ->
     dict_get d "anyi_path" (PStr "") = PNotStr true ->
     r = (HRaised TypeError, s)) /\
  match fst r with
  | HVal _ => True
  | HRaised e =>
      (config (config_manager s) = CNotDict /\ e = AttributeError /\
       snd r = s) \/
      (exists d,
         config (config_manager s) = CDict d /\
         dict_get d "anyi_path" (PStr "") = PNotStr true /\
         e = TypeError /\ snd r = s) \/
      (exists k evs',
         host_trace (snd r) = HPrint (PrintRetry k) (Err e) :: evs' /\
         console_print host evs' (PrintRetry k) = Err e)
  | HOutOfFuel => False
  end.
Proof.
  intros L. cbv zeta. unfold run_anyi.
  destruct (config (config_manager s)) as [d|] eqn:Ec.
  - rewrite (hbind_val _ _ _ _ _ (get_anyi_path_run s d Ec)).
    split; [discriminate |].
    assert (P : match fst (_prompt_and_run_anyi host fuel s) with
                | HVal _ => True
                | HRaised e =>
                    (CDict d = CNotDict /\ e = AttributeError /\
                     snd (_prompt_and_run_anyi host fuel s) = s) \/
                    (exists d0,
                       CDict d = CDict d0 /\
                       dict_get d0 "anyi_path" (PStr "") = PNotStr true /\
                       e = TypeError /\
                       snd (_prompt_and_run_anyi host fuel s) = s) \/
                    (exists k evs',
                       host_trace (snd (_prompt_and_run_anyi host fuel s))
                       = HPrint (PrintRetry k) (Err e) :: evs' /\
                       console_print host evs' (PrintRetry k) = Err e)
                | HOutOfFuel => False
                end).
    { pose proof (prompt_raises fuel s L) as Q.
      destruct (fst (_prompt_and_run_anyi host fuel s)); auto. }
    destruct (dict_get d "anyi_path" (PStr "")) as [p|[|]] eqn:Ed.
    + split; [intros d0 E0 H0; inversion E0; subst; congruence |].
      destruct (p =? "")%string; [exact P |].
      unfold hbind, validate_now, hquery.
      destruct (validate_exe_path _ _ p); [| exact P].
      destruct (run_anyi_exe_run p s) as (b & _ & _ & R & _).
      cbv zeta in R. now rewrite R.
    + split; [reflexivity |]. cbn [fst snd hraise]. right; left.
      exists d. auto.
    + split; [intros d0 E0 H0; inversion E0; subst; congruence | exact P].
  - assert (Eg : get_anyi_path s = (HRaised AttributeError, s))
      by (unfold get_anyi_path, hbind, get_config_manager; now rewrite Ec).
    rewrite (hbind_raised _ _ _ _ _ Eg).
    split; [reflexivity |]. split; [discriminate |].
    cbn [fst snd]. left. auto.
Qed.

End RunnerFacts.

Lemma prompt_and_run_anyi_three_attempts_witness :
  fst (_prompt_and_run_anyi (example_host [] "C:\Anyi\Anyi.exe" None) 5
         (sys_init default_config)) = HVal true.
Proof.
  destruct (prompt_and_run_anyi_three_attempts
              (example_host [] "C:\Anyi\Anyi.exe" None) 5
              (sys_init default_config)) as [E _]; [lia |].
  cbv zeta in E. rewrite E. reflexivity.
Defined.

(** With the console closed the prompt is refused inside the [try],
    which logs it, and the retry message, printed outside the [try],
    ends the call with the exception of the console. *)
Example prompt_raises_on_closed_console :
  let host := closed_console (example_host [] "C:\Anyi\Anyi.exe" None) in
  let r := _prompt_and_run_anyi host 3 (sys_init default_config) in
  let r' := run_anyi host 3 (sys_init default_config) in
  fst r = HRaised (HostError "closed file") /\
  List.rev (host_trace (snd r)) =
    [HPrint PrintPrompt (Err (HostError "closed file"));
     HLog ERROR (MsgPromptError (HostError "closed file"));
     HPrint (PrintRetry 2) (Err (HostError "closed file"))] /\
  r' = r.
Proof. vm_compute. repeat split; reflexivity. Qed.

Lemma run_anyi_stored_path_witness :
  exists b launch tail,
    fst (run_anyi (example_host [] "" (Some 1)) 0
           (sys_init (CDict [("anyi_path", PStr "C:\Anyi\Anyi.exe")])))
    = HVal b /\
    host_trace
      (snd (run_anyi (example_host [] "" (Some 1)) 0
              (sys_init (CDict [("anyi_path", PStr "C:\Anyi\Anyi.exe")]))))
    = tail ++ HPopen "C:\Anyi\Anyi.exe" launch
           :: HLog INFO (MsgLaunching "C:\Anyi\Anyi.exe") :: [] /\
    b = false.
Proof.
  destruct (run_anyi_stored_path (example_host [] "" (Some 1)) 0
              (sys_init (CDict [("anyi_path", PStr "C:\Anyi\Anyi.exe")]))
              [("anyi_path", PStr "C:\Anyi\Anyi.exe")] "C:\Anyi\Anyi.exe"
              eq_refl eq_refl eq_refl)
    as (b & launch & tail & R & T & _).
  exists b, launch, tail. split; [exact R |]. split; [exact T |].
  cbv zeta in R. vm_compute in R. now inversion R.
Defined.

Lemma run_anyi_raises_only_witness :
  run_anyi (example_host [] "" None) 3 (sys_init CNotDict)
  = (HRaised AttributeError, sys_init CNotDict).
Proof.
  apply (run_anyi_raises_only (example_host [] "" None) 3 (sys_init CNotDict));
    [lia | reflexivity].
Defined.

(** ** The substring test *)

Lemma prefix_spec needle : forall hay,
  String.prefix needle hay = true <-> exists post, hay = (needle ++ post)%string.
Proof.
  induction needle as [|c needle IH]; intros hay.
  - split; [intros _; now exists hay | now destruct hay].
  - destruct hay as [|c' hay]; simpl.
    + split; [discriminate | intros (post & E); discriminate].
    + destruct (ascii_dec c c') as [<- | N].
      * rewrite IH. split; intros (post & E); exists post.
        -- now rewrite E.
        -- now inversion E.
      * split; [discriminate |]. intros (post & E). inversion E. congruence.
Qed.

(** [contains] is Python's [in] for two texts: [needle] occurs in
    [hay]. *)
Lemma contains_spec needle : forall hay,
  contains needle hay = true <->
  exists pre post, hay = (pre ++ needle ++ post)%string.
Proof.
  induction hay as [|c hay IH].
  - cbn [contains]. rewrite orb_false_r, prefix_spec. split.
    + intros (post & E). now exists ""%string, post.
    + intros (pre & post & E). destruct pre; [now exists post |].
      discriminate.
  - cbn [contains]. rewrite orb_true_iff, prefix_spec, IH. split.
    + intros [(post & E) | (pre & post & E)].
      * now exists ""%string, post.
      * exists (String c pre), post. simpl. now rewrite E.
    + intros (pre & post & E). destruct pre as [|c' pre].
      * left. now exists post.
      * right. inversion E. now exists pre, post.
Qed.

(** A process whose name is withheld, listed first, hides the running
    program from [is_process_running]. *)
Example is_process_running_hidden :
  is_process_running
    (example_host [mkProcInfo 4 None; mkProcInfo 11 (Some "anyi.exe")] "" None)
    "anyi.exe" (sys_init default_config)
  = (HVal false,
     {| host_trace :=
          [HLog ERROR (MsgCheckFailed "anyi.exe" AttributeError);
           HProcessIter [mkProcInfo 4 None; mkProcInfo 11 (Some "anyi.exe")]
                        None];
        config_manager := config_manager (sys_init default_config) |}).
Proof. reflexivity. Qed.

Section StartupFacts.

Variable host : Host.

(** X10. Creating the [ConfigManager] never raises.  When the file does
    not exist nothing is read and the configuration is the default
    one; when reading or parsing it fails, one error line is logged and
    the configuration is again the default; otherwise the
    configuration is whatever [json.load] returned.  With the default
    configuration [get_anyi_path] returns the empty text and [run_anyi]
    is the prompt for a path. *)
Theorem ConfigManager_init_loads file s :
  let r := ConfigManager_init host file s in
  fst r = HVal tt /\
  config_file (config_manager (snd r)) = file /\
  (if host_path_exists host (host_trace s) file then
     match json_load host (host_trace s) file with
     | Ok c =>
         config (config_manager (snd r)) = c /\
         host_trace (snd r) = HLoad file (Ok c) :: host_trace s
     | Err e =>
         config (config_manager (snd r)) = default_config /\
         host_trace (snd r)
         = HLog ERROR (MsgLoadFailed e) :: HLoad file (Err e) :: host_trace s
     end
   else
     config (config_manager (snd r)) = default_config /\
     host_trace (snd r) = host_trace s) /\
  (config (config_manager (snd r)) = default_config ->
   get_anyi_path (snd r) = (HVal (PStr ""), snd r) /\
   forall fuel,
     run_anyi host fuel (snd r) = _prompt_and_run_anyi host fuel (snd r)).
Proof.
  cbv zeta.
  assert (G : forall s1, config (config_manager s1) = default_config ->
              get_anyi_path s1 = (HVal (PStr ""), s1) /\
              forall fuel,
                run_anyi host fuel s1 = _prompt_and_run_anyi host fuel s1).
  { intros s1 E.
    assert (Eg : get_anyi_path s1 = (HVal (PStr ""), s1))
      by (unfold get_anyi_path, hbind, get_config_manager; now rewrite E).
    split; [exact Eg |]. intros fuel. unfold run_anyi.
    now rewrite (hbind_val _ _ _ _ _ Eg). }
  unfold ConfigManager_init, _load_config, htry, hbind, hquery, hcall, hlog,
    hemit, hret, set_config_manager.
  cbn [host_trace config_manager].
  destruct (host_path_exists host (host_trace s) file).
  - destruct (json_load host (host_trace s) file) as [c|e];
      cbn [fst snd host_trace config_manager config config_file];
      (split; [reflexivity |]); (split; [reflexivity |]);
      (split; [split; reflexivity |]); intros E; now apply G.
  - cbn [fst snd host_trace config_manager config config_file].
    split; [reflexivity |]. split; [reflexivity |].
    split; [split; reflexivity |]. intros E. now apply G.
Qed.

End StartupFacts.

Section Remembered.

Variable host : Host.

Lemma run_anyi_valid fuel s d p :
  config (config_manager s) = CDict d ->
  dict_get d "anyi_path" (PStr "") = PStr p ->
  validate_exe_path (host_path_exists host (host_trace s))
                    (host_path_isfile host (host_trace s)) p = true ->
  run_anyi host fuel s = _run_anyi_exe host p s.
Proof.
  intros Ec Ed V. unfold run_anyi.
  rewrite (hbind_val _ _ _ _ _ (get_anyi_path_run s d Ec)), Ed.
  destruct (p =? "")%string eqn:Ep.
  - apply String.eqb_eq in Ep. subst p. discriminate.
  - assert (Ev : validate_now host p s = (HVal true, s))
      by (unfold validate_now, hquery; now rewrite V).
    now rewrite (hbind_val _ _ _ _ _ Ev).
Qed.

(** X11. A path accepted at the prompt is remembered: when
    [_prompt_and_run_anyi] answers [True], [get_anyi_path] returns the
    path that was launched, and from any later state with the same
    configuration in which that path still passes [validate_exe_path],
    [run_anyi] launches it directly, without prompting. *)
Theorem prompted_path_is_remembered fuel fuel' s s2 :
  (3 <= fuel)%nat ->
  fst (_prompt_and_run_anyi host fuel s) = HVal true ->
  exists p,
    In (HPopen p (Ok tt))
       (host_trace (snd (_prompt_and_run_anyi host fuel s))) /\
    get_anyi_path (snd (_prompt_and_run_anyi host fuel s))
    = (HVal (PStr p), snd (_prompt_and_run_anyi host fuel s)) /\
    (config_manager s2
     = config_manager (snd (_prompt_and_run_anyi host fuel s)) ->
     validate_exe_path (host_path_exists host (host_trace s2))
                       (host_path_isfile host (host_trace s2)) p = true ->
     run_anyi host fuel' s2 = _run_anyi_exe host p s2).
Proof.
  intros L R. unfold _prompt_and_run_anyi in *.
  rewrite (prompt_loop_fuel host 3 fuel 0 s eq_refl L) in *.
  destruct (prompt_loop_run host 3 0 s eq_refl)
    as (evs & T & _ & _ & _ & _ & O).
  cbv zeta in T, O. unfold prompt_outcome in O. rewrite R in O.
  destruct O as (line & d & (pre & post & Tp & _ & Hp & _) & Ec & Ed).
  exists (str_strip host line).
  split; [rewrite Tp; apply in_or_app; now left |].
  split; [now rewrite (get_anyi_path_run _ d Ec), Ed |].
  intros C V. apply (run_anyi_valid fuel' s2 d); [now rewrite C | exact Ed |
                                                    exact V].
Qed.

End Remembered.

Lemma prompted_path_is_remembered_witness :
  exists p,
    In (HPopen p (Ok tt))
       (host_trace
          (snd (_prompt_and_run_anyi
                  (example_host [] "C:\Anyi\Anyi.exe" None) 3
                  (sys_init default_config)))) /\
    get_anyi_path
      (snd (_prompt_and_run_anyi (example_host [] "C:\Anyi\Anyi.exe" None) 3
              (sys_init default_config)))
    = (HVal (PStr p),
       snd (_prompt_and_run_anyi (example_host [] "C:\Anyi\Anyi.exe" None) 3
              (sys_init default_config))).
Proof.
  destruct (prompted_path_is_remembered
              (example_host [] "C:\Anyi\Anyi.exe" None) 3 0
              (sys_init default_config) (sys_init default_config))
    as (p & H1 & H2 & _); [lia | reflexivity |].
  exists p. split; assumption.
Defined.
